(** * Nazaré wave simulator: the procedural geometry core

    A shallow embedding of the two algorithmic parts of the simulator:

    - [Shore] — the seeded noise primitives ([seededRandom], [noise3D],
      [fbm]) and the one-shot terrain synthesis ([createCliffGeometry],
      [createRockGeometry]) of the [Shore] component;
    - [WaveMesh] — the per-frame ocean surface update run by [useFrame]
      (time accumulator, wave heights, foam and vertex colours), and
      [WaveMeshWireframe], the earlier revision of the same component that
      only writes heights.

    Around them: the rest of the shore scenery (placed rocks, outcrops,
    strata, beach and cliff top), the lighthouse ([createWeatheredBox] and
    the beam), the water material, the forecast utilities
    ([findNearestForecast], [applyForecastToConfig], the sample forecast
    and the fetch), and the presets with the slider limits.

    JavaScript numbers are modelled as real numbers: [Math.sin], [Math.cos],
    [Math.exp], [Math.sqrt], [Math.abs], [Math.min], [Math.max] and [Math.PI]
    are [sin], [cos], [exp], [sqrt], [Rabs], [Rmin], [Rmax] and [PI];
    rounding of IEEE doubles and of [Float32Array] stores is not modelled,
    and neither are [NaN] and the infinities.  Typed arrays are lists
    updated by index.  Where a statement depends on the rounding, [Ieee]
    gives the rounding of one operation: [ShoreDouble.seededRandom] is
    [seededRandom] as the doubles compute it, and [Ieee.roundFloat32] is
    what a [Float32Array] keeps of a number. *)

From Stdlib Require Import Reals Lra Lia List ZArith String Bool Ascii.
From Stdlib Require Import DecimalString DecimalNat.
From stdpp Require Import list.
Open Scope R_scope.

(** ** JavaScript primitives *)

Module Js.

(** A [Float32Array]: fixed length, addressed by index. *)
Abbreviation Float32Array := (list R).

(** [a[i]].  Inside the array this is the element.  Outside, JavaScript
    yields [undefined], which turns arithmetic into [NaN]; the reals have no
    such value and [0] stands in for it.  The arrays of three.js hold whole
    (x, y, z) triples, and on those the loops below never read outside. *)
Definition get (a : Float32Array) (i : nat) : R := default 0 (a !! i).

(** [a[i] = v].  A typed array cannot grow: a store outside it is dropped,
    which is what list insertion does. *)
Definition set (a : Float32Array) (i : nat) (v : R) : Float32Array :=
  <[i := v]> a.

(** [Math.floor]. *)
Definition Math_floor (x : R) : R := IZR (Int_part x).

(** [for (let i = 0; i < len; i += 3) body(i)]: the indices visited are
    [3 * k] for [k < ceil (len / 3)]. *)
Definition for_stride3 {A : Type} (len : nat) (body : nat -> A -> A) (s : A) : A :=
  fold_left (fun s k => body (3 * k)%nat s) (seq 0 ((len + 2) / 3)) s.

(** The heap of typed arrays: [new] appends a fresh array and returns its
    address, stores through a reference update the array in place. *)
Abbreviation Heap := (list (list R)).

Definition alloc (contents : Float32Array) (h : Heap) : nat * Heap :=
  (length h, h ++ [contents]).

Definition deref (h : Heap) (ref : nat) : Float32Array := default [] (h !! ref).

End Js.

(** ** The configuration record ([waveConfig.ts]) *)

Module Config.

Inductive Theme := dark | light.

Record WaveConfig := {
  (* Wave parameters *)
  waveHeight : R;
  wavePeriod : R;
  waveDirection : R;
  waveLength : R;
  waveSpeed : R;
  (* Secondary wave (cross swell) *)
  secondaryWaveHeight : R;
  secondaryWavePeriod : R;
  secondaryWaveDirection : R;
  (* Wind parameters *)
  windSpeed : R;
  windDirection : R;
  windChopIntensity : R;
  (* Canyon effect *)
  canyonAmplification : R;
  canyonFocusWidth : R;
  canyonDepthEffect : R;
  (* Visual parameters *)
  foamThreshold : R;
  foamIntensity : R;
  waterClarity : R;
  waveColor : string;
  (* Display *)
  wireframe : bool;
  animateWaves : bool;
  theme : Theme;
  (* Animation *)
  timeScale : R
}.

End Config.

(** ** Noise primitives and terrain synthesis ([Shore]) *)

Module Shore.
Import Js.

(** Seeded random for consistent, deterministic placement. *)
Definition seededRandom (seed : R) : R :=
  let x := sin seed * 10000 in
  x - Math_floor x.

(** 3D noise function for natural terrain variation. *)
Definition noise3D (x y z : R) : R :=
  sin (x * 0.5 + y * 0.3) * cos (z * 0.4 + x * 0.2) +
  sin (y * 0.7 - z * 0.5) * cos (x * 0.6) * 0.5 +
  sin (x * 1.3 + z * 1.1) * cos (y * 0.9) * 0.25.

(** The four accumulators of the [fbm] loop. *)
Record FbmAcc := {
  value : R;
  amplitude : R;
  frequency : R;
  maxValue : R
}.

(** One octave: the body of [for (let i = 0; i < octaves; i++)]. *)
Definition fbm_octave (x y : R) (i : nat) (a : FbmAcc) : FbmAcc :=
  {| value := value a + amplitude a * noise3D (x * frequency a) (y * frequency a) (INR i * 100);
     maxValue := maxValue a + amplitude a;
     amplitude := amplitude a * 0.5;
     frequency := frequency a * 2.1 |}.

(** [n] more octaves starting at octave [i]. *)
Fixpoint fbm_loop (x y : R) (n i : nat) (a : FbmAcc) : FbmAcc :=
  match n with
  | O => a
  | S n' => fbm_loop x y n' (S i) (fbm_octave x y i a)
  end.

(** Fractal Brownian motion ([octaves] defaults to 4 in the source; every
    call passes it). *)
Definition fbm (x y : R) (octaves : nat) : R :=
  let a := fbm_loop x y octaves 0
             {| value := 0; amplitude := 1; frequency := 1; maxValue := 0 |} in
  value a / maxValue a.

(** The invariant of the [fbm] loop: the running sum is bounded by 1.75
    times the accumulated amplitude. *)
Definition fbm_inv (a : FbmAcc) : Prop :=
  0 < amplitude a /\ 0 <= maxValue a /\
  -1.75 * maxValue a <= value a <= 1.75 * maxValue a.

(** The body of the displacement loop of [createCliffGeometry]. *)
Definition cliffVertex (height seed displaceAmount : R) (i : nat)
    (positions : Float32Array) : Float32Array :=
  let x := get positions i in
  let y := get positions (i + 1) in
  let large := fbm (x * 0.03 + seed) (y * 0.04) 3 * displaceAmount in
  let medium := fbm (x * 0.1 + seed) (y * 0.12) 2 * (displaceAmount * 0.4) in
  let small := fbm (x * 0.3 + seed) (y * 0.35) 2 * (displaceAmount * 0.15) in
  let erosion := Rmax 0 (1 - (y + height / 2) / (height * 0.4)) *
                 fbm (x * 0.15 + seed) (y * 0.1) 2 * (displaceAmount * 0.5) in
  let overhang := Rmax 0 ((y - height * 0.3) / (height * 0.2)) *
                  fbm (x * 0.08 + seed) (y * 0.05) 2 * (displaceAmount * 0.3) in
  let cracks := sin (x * 0.4 + seed) * sin (y * 0.2) * (displaceAmount * 0.15) in
  set positions (i + 2) (large + medium + small + erosion - overhang + cracks).

(** The body of the displacement loop of [createRockGeometry]. *)
Definition rockVertex (seed flattenBottom stretchX stretchZ : R) (i : nat)
    (positions : Float32Array) : Float32Array :=
  let x := get positions i in
  let y := get positions (i + 1) in
  let z := get positions (i + 2) in
  let yScale := if Rlt_dec y 0 then flattenBottom else 1.0 in
  let displacement :=
    1 + fbm (x * 0.08 + seed) (y * 0.1 + z * 0.08 + seed) 3 * 0.3 in
  let angular := 1 + sin (x * 2 + seed) * cos (z * 2 + seed) * 0.1 in
  let positions := set positions i (x * displacement * angular * stretchX) in
  let positions := set positions (i + 1) (y * yScale * displacement * 0.85) in
  set positions (i + 2) (z * displacement * angular * stretchZ).

(** The whole loop over the position array, in place. *)
Definition displaceCliff (height seed displaceAmount : R)
    (positions : Float32Array) : Float32Array :=
  for_stride3 (length positions) (cliffVertex height seed displaceAmount) positions.

Definition displaceRock (seed flattenBottom stretchX stretchZ : R)
    (positions : Float32Array) : Float32Array :=
  for_stride3 (length positions) (rockVertex seed flattenBottom stretchX stretchZ)
    positions.

Section Three.

(** The position arrays of three.js's [PlaneGeometry (width, height, segX,
    segY)] and [IcosahedronGeometry (radius, detail)]: library code, taken
    as given.  [new] puts a fresh copy on the heap at every call. *)
Variable PlaneGeometry : R -> R -> R -> R -> Float32Array.
Variable IcosahedronGeometry : R -> R -> Float32Array.

(** [createCliffGeometry]: a new plane whose vertices are displaced in
    place; returns the address of its position array.
    ([displaceAmount] defaults to 15; [computeVertexNormals] fills another
    attribute and is left out.) *)
Definition createCliffGeometry (width height segX segY seed displaceAmount : R)
    (h : Heap) : nat * Heap :=
  let '(geo, h) := alloc (PlaneGeometry width height segX segY) h in
  let positions := deref h geo in
  (geo, <[geo := displaceCliff height seed displaceAmount positions]> h).

(** [createRockGeometry] ([flattenBottom], [stretchX] and [stretchZ] default
    to 0.4, 1.3 and 1.1; every call passes them). *)
Definition createRockGeometry (baseSize detail seed flattenBottom stretchX stretchZ : R)
    (h : Heap) : nat * Heap :=
  let '(geo, h) := alloc (IcosahedronGeometry baseSize detail) h in
  let positions := deref h geo in
  (geo, <[geo := displaceRock seed flattenBottom stretchX stretchZ positions]> h).

End Three.

(** The arguments of one [createRockGeometry] call. *)
Record RockArgs := {
  baseSize : R;
  detail : R;
  seed : R;
  flattenBottom : R;
  stretchX : R;
  stretchZ : R
}.

Definition rock (size det sd flatY strX strZ : R) : RockArgs :=
  {| baseSize := size; detail := det; seed := sd;
     flattenBottom := flatY; stretchX := strX; stretchZ := strZ |}.

(** Every call of [createRockGeometry] in the program: the two fort
    promontory rocks and the twelve connector rocks. *)
Definition fortMainRock : RockArgs := rock 35 4 400 0.3 1.4 1.2.
Definition fortUpperRock : RockArgs := rock 25 3 410 0.5 1.5 1.0.

Definition fortConnectorRocks : list RockArgs :=
  [ rock 22 3 420 0.35 1.3 1.4;
    rock 18 3 425 0.4 1.2 1.3;
    rock 20 3 430 0.35 1.3 1.2;
    rock 18 3 435 0.3 1.4 1.3;
    rock 16 3 440 0.35 1.2 1.4;
    rock 15 3 445 0.45 1.1 1.2;
    rock 17 3 450 0.4 1.2 1.1;
    rock 14 3 455 0.5 1.0 1.3;
    rock 16 3 460 0.45 1.1 1.2;
    rock 14 3 465 0.3 1.5 1.2;
    rock 15 3 470 0.3 1.4 1.3;
    rock 12 3 475 0.25 1.6 1.1 ].

Definition rockGeometryCalls : list RockArgs :=
  fortMainRock :: fortUpperRock :: fortConnectorRocks.

End Shore.

(** ** The ocean surface ([WaveMesh]) *)

Module WaveMesh.
Import Js.
Import Config.

(** The channels of a [THREE.Color]. *)
Record Color := { r : R; g : R; b : R }.

(** The mesh geometry: its [position] and [color] attribute arrays. *)
Record Geometry := {
  position : Float32Array;
  color : Float32Array
}.

(** What the component keeps between frames: the time accumulator
    [timeRef.current], the mounted mesh [meshRef.current] ([None] for
    [null]) and the copy of the base grid taken when the geometry was made. *)
Record State := {
  timeRef : R;
  meshRef : option Geometry;
  originalPositions : Float32Array
}.

(** Calculate wave speed from period (deep water: c = gT/2π);
    [waveSpeed] is a multiplier. *)
Definition gravity : R := 9.8.

Definition primaryWaveSpeed (config : WaveConfig) : R :=
  (gravity * wavePeriod config) / (2 * PI) * waveSpeed config * 0.3.

Definition secondaryWaveSpeed (config : WaveConfig) : R :=
  (gravity * secondaryWavePeriod config) / (2 * PI) * waveSpeed config * 0.3.

(** Wind speed affects chop intensity. *)
Definition windChopMultiplier (config : WaveConfig) : R :=
  windChopIntensity config * (1 + windSpeed config / 20).

Definition clarityFactor (config : WaveConfig) : R := waterClarity config.

(** Precomputed direction values. *)
Definition primaryDir (config : WaveConfig) : R := (waveDirection config * PI) / 180.
Definition primaryK (config : WaveConfig) : R := (2 * PI) / waveLength config.
Definition primarySin (config : WaveConfig) : R := sin (primaryDir config).
Definition primaryCos (config : WaveConfig) : R := cos (primaryDir config).

Definition secondaryDir (config : WaveConfig) : R :=
  (secondaryWaveDirection config * PI) / 180.
Definition secondaryWaveLength (config : WaveConfig) : R := waveLength config * 0.6.
Definition secondaryK (config : WaveConfig) : R := (2 * PI) / secondaryWaveLength config.
Definition secondarySin (config : WaveConfig) : R := sin (secondaryDir config).
Definition secondaryCos (config : WaveConfig) : R := cos (secondaryDir config).

(** Grid spacing for slope calculation. *)
Definition gridSpacing : R := 300 / 200.

(** Canyon amplification - waves get bigger in the center. *)
Definition distFromCenter (x : R) : R := Rabs x / 150.

Definition canyonFactor (config : WaveConfig) (x : R) : R :=
  1 + (canyonAmplification config - 1) *
      exp (- distFromCenter x * distFromCenter x /
           (canyonFocusWidth config * canyonFocusWidth config)).

(** The exponent of the Gaussian in [canyonFactor]. *)
Definition canyonExponent (config : WaveConfig) (x : R) : R :=
  - distFromCenter x * distFromCenter x /
    (canyonFocusWidth config * canyonFocusWidth config).

(** Depth effect - waves steepen toward shore. *)
Definition shoreDistance (z : R) : R := (z + 150) / 300.

Definition depthFactor (config : WaveConfig) (z : R) : R :=
  1 + canyonDepthEffect config * shoreDistance z.

(** Primary wave. *)
Definition primaryPhase (config : WaveConfig) (x z time : R) : R :=
  primaryK config *
  (primarySin config * x + primaryCos config * z - primaryWaveSpeed config * time).

Definition primaryAmplitude (config : WaveConfig) (x z : R) : R :=
  waveHeight config * canyonFactor config x * depthFactor config z.

Definition primaryWave (config : WaveConfig) (x z time : R) : R :=
  primaryAmplitude config x z * sin (primaryPhase config x z time).

Definition primarySlope (config : WaveConfig) (x z time : R) : R :=
  primaryAmplitude config x z * primaryK config * cos (primaryPhase config x z time).

(** Secondary wave (cross swell). *)
Definition secondaryPhase (config : WaveConfig) (x z time : R) : R :=
  secondaryK config *
  (secondarySin config * x + secondaryCos config * z - secondaryWaveSpeed config * time).

Definition secondaryAmplitude (config : WaveConfig) (x : R) : R :=
  secondaryWaveHeight config * canyonFactor config x * 0.7.

Definition secondaryWave (config : WaveConfig) (x z time : R) : R :=
  secondaryAmplitude config x * sin (secondaryPhase config x z time).

Definition secondarySlope (config : WaveConfig) (x z time : R) : R :=
  secondaryAmplitude config x * secondaryK config * cos (secondaryPhase config x z time).

(** Wind chop (small turbulent waves): [windChop] and [chopSlope] stay 0
    unless [windChopMultiplier > 0]. *)
Definition windChop (config : WaveConfig) (x z time : R) : R :=
  if Rgt_dec (windChopMultiplier config) 0 then
    let chopTime := time * 2 in
    let chop1 := sin (x * 0.08 + chopTime * 1.1) * cos (z * 0.06 + chopTime * 0.9) in
    let chop2 := sin (x * 0.15 - chopTime * 0.7) * cos (z * 0.12 + chopTime * 1.3) in
    let chop3 := sin ((x + z) * 0.1 + chopTime * 0.8) in
    (chop1 * 0.5 + chop2 * 0.3 + chop3 * 0.2) * windChopMultiplier config * 3
  else 0.

Definition chopSlope (config : WaveConfig) (x z time : R) : R :=
  if Rgt_dec (windChopMultiplier config) 0 then
    let chopTime := time * 2 in
    let chopDeriv1 :=
      cos (x * 0.08 + chopTime * 1.1) * 0.08 * cos (z * 0.06 + chopTime * 0.9) in
    let chopDeriv2 :=
      cos (x * 0.15 - chopTime * 0.7) * 0.15 * cos (z * 0.12 + chopTime * 1.3) in
    (chopDeriv1 * 0.5 + chopDeriv2 * 0.3) * windChopMultiplier config * 3
  else 0.

(** The height written to the vertex. *)
Definition totalHeight (config : WaveConfig) (x z time : R) : R :=
  primaryWave config x z time + secondaryWave config x z time + windChop config x z time.

(** Total slope magnitude and steepness. *)
Definition totalSlope (config : WaveConfig) (x z time : R) : R :=
  Rabs (primarySlope config x z time + secondarySlope config x z time +
        chopSlope config x z time).

Definition steepness (config : WaveConfig) (x z time : R) : R :=
  totalSlope config x z time / gridSpacing.

(** The local [foamThreshold]: the configured threshold mapped from 0-1 to
    0-2 slope. *)
Definition foamThreshold (config : WaveConfig) : R := Config.foamThreshold config * 2.

(** Foam from steepness and height. *)
Definition foamAmount (config : WaveConfig) (steepness totalHeight : R) : R :=
  if Rgt_dec steepness (foamThreshold config) then
    let foamAmount :=
      Rmin 1 ((steepness - foamThreshold config) * 2) * foamIntensity config in
    let crestBonus := Rmax 0 (totalHeight / (waveHeight config * 2)) in
    Rmin 1 (foamAmount + crestBonus * foamIntensity config * 0.5)
  else 0.

(** Water clarity applied to the base colour. *)
Definition murkiness (config : WaveConfig) : R := 1 - clarityFactor config.

Definition turbidR (config : WaveConfig) (baseColor : Color) : R :=
  r baseColor * (1 - murkiness config * 0.3).
Definition turbidG (config : WaveConfig) (baseColor : Color) : R :=
  g baseColor * (1 + murkiness config * 0.1).
Definition turbidB (config : WaveConfig) (baseColor : Color) : R :=
  b baseColor * (1 - murkiness config * 0.2).

(** Blend between water colour and white foam. *)
Definition blend (turbid foamAmount : R) : R := turbid + (1 - turbid) * foamAmount.

(** The body of the vertex loop: reads the base grid, writes the height
    into [positions] and the three channels into [colors]. *)
Definition updateVertex (config : WaveConfig) (baseColor : Color) (time : R)
    (originalPositions : Float32Array) (i : nat)
    (buffers : Float32Array * Float32Array) : Float32Array * Float32Array :=
  let '(positions, colors) := buffers in
  let x := get originalPositions i in
  let z := get originalPositions (i + 2) in
  let vertexIndex := (i / 3)%nat in
  let totalHeight := totalHeight config x z time in
  let positions := set positions (i + 1) totalHeight in
  let foamAmount := foamAmount config (steepness config x z time) totalHeight in
  let colors := set colors (vertexIndex * 3) (blend (turbidR config baseColor) foamAmount) in
  let colors := set colors (vertexIndex * 3 + 1) (blend (turbidG config baseColor) foamAmount) in
  let colors := set colors (vertexIndex * 3 + 2) (blend (turbidB config baseColor) foamAmount) in
  (positions, colors).

(** The two halves of [updateVertex], one per array: the height store and
    the three colour stores. *)
Definition writeHeight (config : WaveConfig) (time : R)
    (originalPositions : Float32Array) (i : nat)
    (positions : Float32Array) : Float32Array :=
  let x := get originalPositions i in
  let z := get originalPositions (i + 2) in
  set positions (i + 1) (totalHeight config x z time).

Definition vertexFoam (config : WaveConfig) (x z time : R) : R :=
  foamAmount config (steepness config x z time) (totalHeight config x z time).

Definition writeColors (config : WaveConfig) (baseColor : Color) (time : R)
    (originalPositions : Float32Array) (i : nat)
    (colors : Float32Array) : Float32Array :=
  let x := get originalPositions i in
  let z := get originalPositions (i + 2) in
  let vertexIndex := (i / 3)%nat in
  let foamAmount := vertexFoam config x z time in
  let colors := set colors (vertexIndex * 3) (blend (turbidR config baseColor) foamAmount) in
  let colors := set colors (vertexIndex * 3 + 1) (blend (turbidG config baseColor) foamAmount) in
  set colors (vertexIndex * 3 + 2) (blend (turbidB config baseColor) foamAmount).

(** The two loops of a frame, array by array. *)
Definition heights (config : WaveConfig) (time : R) (orig a : Float32Array) :=
  for_stride3 (length a) (writeHeight config time orig) a.

Definition colours (config : WaveConfig) (bc : Color) (time : R)
    (orig a : Float32Array) :=
  for_stride3 (length a) (writeColors config bc time orig) a.

(** The channel written at offset [d] of a vertex. *)
Definition channel (config : WaveConfig) (bc : Color) (d : nat) : R :=
  match d with
  | O => turbidR config bc
  | S O => turbidG config bc
  | _ => turbidB config bc
  end.

(** The clock after a frame on a mounted mesh. *)
Definition clock (config : WaveConfig) (delta : R) (st : State) : R :=
  if animateWaves config then timeRef st + delta * timeScale config
  else timeRef st.

Section Component.

(** [new THREE.Color(config.waveColor)]: the colour parser of three.js. *)
Variable THREE_Color : string -> Color.

(** The memoised base colour of the render the frame callback belongs to. *)
Definition baseColor (config : WaveConfig) : Color :=
  let color := THREE_Color (waveColor config) in
  {| r := r color; g := g color; b := b color |}.

(** The frame callback. *)
Definition useFrame (config : WaveConfig) (delta : R) (st : State) : State :=
  match meshRef st with
  | None => st
  | Some geo =>
      (* Only advance time if animation is enabled *)
      let time :=
        if animateWaves config then timeRef st + delta * timeScale config
        else timeRef st in
      let positions := position geo in
      let colors := color geo in
      let '(positions, colors) :=
        for_stride3 (length positions)
          (updateVertex config (baseColor config) time (originalPositions st))
          (positions, colors) in
      {| timeRef := time;
         meshRef := Some {| position := positions; color := colors |};
         originalPositions := originalPositions st |}
  end.

(** A run of frames, each with the configuration of its render and the
    time elapsed since the previous frame. *)
Definition frames (ticks : list (WaveConfig * R)) (st : State) : State :=
  fold_left (fun st tick => useFrame (fst tick) (snd tick) st) ticks st.

End Component.

(** The component once mounted on a base grid (the rotated
    [PlaneGeometry (300, 300, 200, 200)] in the program): the position array
    holds the grid, the colour array as many zeros, [originalPositions] a
    copy of the grid, and the clock is at 0. *)
Definition newGeometry (grid : Float32Array) : Geometry :=
  {| position := grid; color := repeat 0 (length grid) |}.

Definition mount (grid : Float32Array) : State :=
  {| timeRef := 0;
     meshRef := Some (newGeometry grid);
     originalPositions := grid |}.

(** The component before the mesh is attached. *)
Definition unmounted (grid : Float32Array) : State :=
  {| timeRef := 0; meshRef := None; originalPositions := grid |}.

(** The mesh [geo] is attached and its arrays have the size of the base
    grid. *)
Definition mounted (st : State) (geo : Geometry) : Prop :=
  meshRef st = Some geo /\
  length (position geo) = length (originalPositions st) /\
  length (color geo) = length (originalPositions st).

(** Moreover the x and z entries of the position array are still those of
    the base grid. *)
Definition aligned (st : State) : Prop :=
  exists geo, mounted st geo /\
    forall j, (j mod 3 <> 1)%nat -> position geo !! j = originalPositions st !! j.

End WaveMesh.

(** ** The earlier, heights-only revision of [WaveMesh] *)

Module WaveMeshWireframe.
Import Js.
Import Config.

Record State := {
  timeRef : R;
  meshRef : option Float32Array;
  originalPositions : Float32Array
}.

Definition distFromCenter (x : R) : R := Rabs x / 150.

Definition canyonFactor (config : WaveConfig) (x : R) : R :=
  1 + (canyonAmplification config - 1) *
      exp (- distFromCenter x * distFromCenter x /
           (canyonFocusWidth config * canyonFocusWidth config)).

Definition shoreDistance (z : R) : R := (z + 150) / 300.

Definition depthFactor (config : WaveConfig) (z : R) : R :=
  1 + canyonDepthEffect config * shoreDistance z.

Definition primaryDir (config : WaveConfig) : R := (waveDirection config * PI) / 180.
Definition primaryK (config : WaveConfig) : R := (2 * PI) / waveLength config.

(** Wave speed based on the deep water wave equation (square-root form). *)
Definition primarySpeed (config : WaveConfig) : R :=
  sqrt (9.8 * waveLength config / (2 * PI)) * 0.5.

Definition primaryPhase (config : WaveConfig) (x z time : R) : R :=
  primaryK config *
  (sin (primaryDir config) * x + cos (primaryDir config) * z -
   primarySpeed config * time).

Definition primaryWave (config : WaveConfig) (x z time : R) : R :=
  waveHeight config * canyonFactor config x * depthFactor config z *
  sin (primaryPhase config x z time).

Definition secondaryDir (config : WaveConfig) : R :=
  (secondaryWaveDirection config * PI) / 180.
Definition secondaryWaveLength (config : WaveConfig) : R := waveLength config * 0.6.
Definition secondaryK (config : WaveConfig) : R := (2 * PI) / secondaryWaveLength config.

Definition secondarySpeed (config : WaveConfig) : R :=
  sqrt (9.8 * secondaryWaveLength config / (2 * PI)) * 0.5.

Definition secondaryPhase (config : WaveConfig) (x z time : R) : R :=
  secondaryK config *
  (sin (secondaryDir config) * x + cos (secondaryDir config) * z -
   secondarySpeed config * time).

Definition secondaryWave (config : WaveConfig) (x z time : R) : R :=
  secondaryWaveHeight config * canyonFactor config x * 0.7 *
  sin (secondaryPhase config x z time).

Definition windChop (config : WaveConfig) (x z time : R) : R :=
  if Rgt_dec (windChopIntensity config) 0 then
    let chopTime := time * 2 in
    let chop1 := sin (x * 0.08 + chopTime * 1.1) * cos (z * 0.06 + chopTime * 0.9) in
    let chop2 := sin (x * 0.15 - chopTime * 0.7) * cos (z * 0.12 + chopTime * 1.3) in
    let chop3 := sin ((x + z) * 0.1 + chopTime * 0.8) in
    (chop1 * 0.5 + chop2 * 0.3 + chop3 * 0.2) * windChopIntensity config * 3
  else 0.

Definition updateVertex (config : WaveConfig) (time : R)
    (originalPositions : Float32Array) (i : nat)
    (positions : Float32Array) : Float32Array :=
  let x := get originalPositions i in
  let z := get originalPositions (i + 2) in
  set positions (i + 1)
    (primaryWave config x z time + secondaryWave config x z time +
     windChop config x z time).

Definition useFrame (config : WaveConfig) (delta : R) (st : State) : State :=
  match meshRef st with
  | None => st
  | Some positions =>
      let time :=
        if animateWaves config then timeRef st + delta * timeScale config
        else timeRef st in
      {| timeRef := time;
         meshRef := Some (for_stride3 (length positions)
                            (updateVertex config time (originalPositions st))
                            positions);
         originalPositions := originalPositions st |}
  end.

Definition frames (ticks : list (WaveConfig * R)) (st : State) : State :=
  fold_left (fun st tick => useFrame (fst tick) (snd tick) st) ticks st.

Definition mount (grid : Float32Array) : State :=
  {| timeRef := 0; meshRef := Some grid; originalPositions := grid |}.

Definition unmounted (grid : Float32Array) : State :=
  {| timeRef := 0; meshRef := None; originalPositions := grid |}.

(** The clock after a frame on a mounted mesh. *)
Definition clock (config : WaveConfig) (delta : R) (st : State) : R :=
  if animateWaves config then timeRef st + delta * timeScale config
  else timeRef st.

Definition mounted (st : State) (positions : Float32Array) : Prop :=
  meshRef st = Some positions /\
  length positions = length (originalPositions st).

End WaveMeshWireframe.

(** ** Sample inputs *)

Module Examples.
Import Js.
Import Config.

(** The numeric defaults of [defaultWaveConfig], with the four settings the
    samples vary left open. *)
Definition sampleConfig (chop foam clarity : R) (colour : string)
    (animate : bool) : WaveConfig :=
  {| waveHeight := 8;
     wavePeriod := 14;
     waveDirection := 0;
     waveLength := 200;
     waveSpeed := 1.0;
     secondaryWaveHeight := 2;
     secondaryWavePeriod := 8;
     secondaryWaveDirection := 30;
     windSpeed := 15;
     windDirection := 45;
     windChopIntensity := chop;
     canyonAmplification := 2.0;
     canyonFocusWidth := 0.4;
     canyonDepthEffect := 0.7;
     foamThreshold := 0.6;
     foamIntensity := foam;
     waterClarity := clarity;
     waveColor := colour;
     wireframe := true;
     animateWaves := animate;
     theme := dark;
     timeScale := 1.0 |}.

(** The defaults, in blue. *)
Definition moderate : WaveConfig := sampleConfig 0.3 0.5 0.7 "#0000ff" true.

(** The same with the animation switched off. *)
Definition paused : WaveConfig := sampleConfig 0.3 0.5 0.7 "#0000ff" false.

(** No wind chop. *)
Definition glassy : WaveConfig := sampleConfig 0 0.5 0.7 "#0000ff" true.

(** Pure green water, fully turbid, no foam: all three sliders allow it. *)
Definition murkyGreen : WaveConfig := sampleConfig 0.3 0 0 "#00ff00" true.

(** A colour parser that knows the two sample colours. *)
Definition sampleColor (s : string) : WaveMesh.Color :=
  if String.eqb s "#00ff00"
  then {| WaveMesh.r := 0; WaveMesh.g := 1; WaveMesh.b := 0 |}
  else {| WaveMesh.r := 0; WaveMesh.g := 0; WaveMesh.b := 1 |}.

(** A base grid of two vertices, (0, 0, 0) and (1.5, 0, 0). *)
Definition twoVertices : Float32Array := [0; 0; 0; 1.5; 0; 0].

End Examples.

(** ** More JavaScript primitives *)

Module JsNum.

(** [x < y] as a boolean. *)
Definition ltb (x y : R) : bool := if Rlt_dec x y then true else false.

(** [Math.round]: the nearest integer, halves rounded up. *)
Definition Math_round (x : R) : R := IZR (Int_part (x + 0.5)).

(** Truncation toward zero, the integer quotient behind [%]. *)
Definition trunc (x : R) : Z :=
  if Rle_dec 0 x then Int_part x else (- Int_part (- x))%Z.

(** [a % b]: the remainder with the sign of the dividend. *)
Definition rem (a b : R) : R := a - b * IZR (trunc (a / b)).

(** The passes of [for (let i = 0; i < Math.floor(n); i++)], and the
    length of [Array.from({ length: Math.floor(n) })]: none when the floor
    is negative. *)
Definition floorCount (n : R) : nat := Z.to_nat (Int_part n).

End JsNum.

(** ** IEEE rounding of one operation *)

Module Ieee.

(** The nearest integer, a tie going to the even one. *)
Definition nearestEven (m : R) : Z :=
  let f := Int_part m in
  let d := m - IZR f in
  if Rlt_dec d (1 / 2) then f
  else if Rlt_dec (1 / 2) d then (f + 1)%Z
  else if Z.even f then f else (f + 1)%Z.

(** The binary exponent of a non-zero [x]: [2 ^ e <= |x| < 2 ^ (e + 1)]. *)
Definition exponent (x : R) : Z := Int_part (ln (Rabs x) / ln 2).

(** Rounding to the nearest number of a binary format with [prec] bits of
    precision and least normal exponent [emin]; below it the spacing stays
    that of the subnormal numbers.  Overflow to infinity is left out. *)
Definition round (prec emin : Z) (x : R) : R :=
  if Req_dec_T x 0 then 0
  else
    let e := Z.max (exponent x) emin in
    let ulp := powerRZ 2 (e - (prec - 1)) in
    IZR (nearestEven (x / ulp)) * ulp.

(** A JavaScript number: binary64. *)
Definition roundDouble : R -> R := round 53 (-1022).

(** What a [Float32Array] keeps of a number stored in it: binary32. *)
Definition roundFloat32 : R -> R := round 24 (-126).

End Ieee.

(** ** [seededRandom] on doubles *)

Module ShoreDouble.
Import Js Ieee.

(** [Math.sin] correctly rounded, the best an engine can do. *)
Definition Math_sin (x : R) : R := roundDouble (sin x).

(** [seededRandom] with the rounding of each operation; [Math_sin] is the
    sine of the engine, [Math.floor] is exact on doubles. *)
Definition seededRandom (Math_sin : R -> R) (seed : R) : R :=
  let x := roundDouble (Math_sin seed * 10000) in
  roundDouble (x - Math_floor x).

End ShoreDouble.

(** ** Placed scenery of the shore ([Shore], continued) *)

Module WaterRocks.
Import Js JsNum Shore.

Record Rock := {
  position : R * R * R;
  scale : R * R * R;
  rotation : R * R * R;
  detail : nat;
  baseScale : R
}.

(** One pass of the loop: [None] when the candidate falls in the fort
    promontory area and is skipped. *)
Definition waterRock (index : nat) : option Rock :=
  let i := INR index in
  let x := -160 + seededRandom (i * 7) * 320 in
  if ltb (-130) x && ltb x (-30) then None
  else
    let z := 128 + seededRandom (i * 7 + 1) * 28 in
    let size := 2 + seededRandom (i * 7 + 2) * 6 in
    let embedDepth := size * 0.15 in
    Some {| position := (x, -6 - embedDepth, z);
            scale := (size * 1.5, size * 0.35, size * 1.2);
            rotation := (seededRandom (i * 11) * 0.2,
                         seededRandom (i * 11 + 1) * PI * 2,
                         seededRandom (i * 11 + 2) * 0.2);
            detail := if ltb 4 size then 2%nat else 1%nat;
            baseScale := size |}.

(** The count is the floor of the product as the doubles have it: next to
    a multiple of 1/30 the rounding of [30 * rockDensity] decides it. *)
Definition waterRocks (rockDensity : R) : list Rock :=
  let baseCount := floorCount (Ieee.roundDouble (30 * rockDensity)) in
  omap waterRock (seq 0 baseCount).

(** Where a rock of the waterline may lie, and how large and tilted it may
    be. *)
Definition placedWaterRock (rock : Rock) : Prop :=
  let '(x, y, z) := position rock in
  let size := baseScale rock in
  -160 <= x < 160 /\ (x <= -130 \/ -30 <= x) /\
  128 <= z < 156 /\
  -7.2 < y <= -6.3 /\ y = -6 - size * 0.15 /\
  2 <= size < 8 /\
  scale rock = (size * 1.5, size * 0.35, size * 1.2) /\
  (detail rock = 2%nat <-> 4 < size) /\ (detail rock = 1%nat <-> size <= 4) /\
  (let '(tiltX, yaw, tiltZ) := rotation rock in
   0 <= tiltX < 0.2 /\ 0 <= yaw < 2 * PI /\ 0 <= tiltZ < 0.2).

End WaterRocks.

Module CliffOutcrops.
Import Js JsNum Shore.





End CliffOutcrops.

Module BeachRocks.
Import Js JsNum Shore.





End BeachRocks.

Module Strata.
Import Js Shore.
Import Config.

(** The three strata colours of each entry of [shoreThemes]. *)
Record StrataTheme := {
  strataLight : string;
  strataDark : string;
  strataOchre : string
}.

Definition shoreThemes (t : Theme) : StrataTheme :=
  match t with
  | dark => {| strataLight := "#4a4238"; strataDark := "#302820";
               strataOchre := "#453525" |}
  | light => {| strataLight := "#d0c0a8"; strataDark := "#988870";
                strataOchre := "#c8a070" |}
  end.

Record Layer := {
  y : R;
  thickness : R;
  color : string
}.

Definition strataLayer (theme : StrataTheme) (index : nat) : Layer :=
  let i := INR index in
  let strataColors := [strataLight theme; strataDark theme; strataOchre theme] in
  {| y := -5 + i * 9 + seededRandom (800 + i) * 4;
     thickness := 0.8 + seededRandom (810 + i) * 0.6;
     color := nth (index mod 3) strataColors "undefined"%string |}.

(** [for (let i = 0; i < 6; i++)]. *)
Definition strataLayers (theme : StrataTheme) : list Layer :=
  map (strataLayer theme) (seq 0 6).

(** The band is drawn as a box of height [thickness] centred at [y]. *)
Definition bottom (l : Layer) : R := y l - thickness l / 2.
Definition top (l : Layer) : R := y l + thickness l / 2.

End Strata.

Module Beach.
Import Js Shore.

Record Geometry := {
  position : Float32Array;
  color : Float32Array
}.

(** The body of the loop of [createBeachGeometry]. *)
Definition beachVertex (depth : R) (i : nat)
    (buffers : Float32Array * Float32Array) : Float32Array * Float32Array :=
  let '(positions, colors) := buffers in
  let x := get positions i in
  let z := get positions (i + 1) in
  let slopeY := (z / depth) * 8 - 4 in
  let ripples := sin (x * 0.2) * cos (z * 0.3) * 0.3 in
  let positions := set positions (i + 2) (slopeY + ripples) in
  let wetness := Rmax 0 (Rmin 1 (1 - (z + depth / 2) / depth)) in
  let vertexIndex := (i / 3)%nat in
  let colors := set colors (vertexIndex * 3) wetness in
  let colors := set colors (vertexIndex * 3 + 1) wetness in
  let colors := set colors (vertexIndex * 3 + 2) wetness in
  (positions, colors).

(** The two halves of [beachVertex]: the height store, and the colour
    stores reading the plane coordinates from [positions]. *)
Definition beachHeight (depth : R) (i : nat) (positions : Float32Array) :
    Float32Array :=
  let x := get positions i in
  let z := get positions (i + 1) in
  set positions (i + 2) ((z / depth) * 8 - 4 + sin (x * 0.2) * cos (z * 0.3) * 0.3).

Definition wetness (depth z : R) : R :=
  Rmax 0 (Rmin 1 (1 - (z + depth / 2) / depth)).

Definition beachColors (depth : R) (positions : Float32Array) (i : nat)
    (colors : Float32Array) : Float32Array :=
  let w := wetness depth (get positions (i + 1)) in
  let vertexIndex := (i / 3)%nat in
  set (set (set colors (vertexIndex * 3) w) (vertexIndex * 3 + 1) w)
    (vertexIndex * 3 + 2) w.

Section Three.

Variable PlaneGeometry : R -> R -> R -> R -> Float32Array.

(** [geo.rotateX(angle)] on the position array. *)
Variable rotateX : R -> Float32Array -> Float32Array.

(** The plane after the loop and before the final rotation. *)
Definition beachBuffers (width depth segX segY : R) :
    Float32Array * Float32Array :=
  let positions := PlaneGeometry width depth segX segY in
  let colors := repeat 0 (length positions) in
  for_stride3 (length positions) (beachVertex depth) (positions, colors).

Definition createBeachGeometry (width depth segX segY : R) : Geometry :=
  let '(positions, colors) := beachBuffers width depth segX segY in
  {| position := rotateX (- PI / 2) positions; color := colors |}.

End Three.

End Beach.

Module CliffTop.
Import Js Shore.

(** The body of the loop of [cliffTopGeo]: rolling coastal terrain. *)
Definition cliffTopVertex (i : nat) (positions : Float32Array) : Float32Array :=
  let x := get positions i in
  let z := get positions (i + 1) in
  let height := fbm (x * 0.015) (z * 0.02) 4 * 8 + fbm (x * 0.05) (z * 0.06) 2 * 3 in
  set positions (i + 2) height.

Definition cliffTopRelief (positions : Float32Array) : Float32Array :=
  for_stride3 (length positions) cliffTopVertex positions.

Section Three.

Variable PlaneGeometry : R -> R -> R -> R -> Float32Array.
Variable rotateX : R -> Float32Array -> Float32Array.

Definition cliffTopGeo : Float32Array :=
  rotateX (- PI / 2) (cliffTopRelief (PlaneGeometry 420 120 70 40)).

End Three.

End CliffTop.

(** ** The lighthouse ([Lighthouse]) *)

Module Lighthouse.
Import Js.

(** Seeded random for consistent weathering. *)
Definition seededRandom (seed : R) : R :=
  let x := sin seed * 10000 in
  x - Math_floor x.

(** The body of the loop of [createWeatheredBox]: subtle irregularity. *)
Definition weatherVertex (seed : R) (i : nat) (positions : Float32Array) :
    Float32Array :=
  let offset := seededRandom (seed + INR i) * 0.15 - 0.075 in
  let positions := set positions i (get positions i + offset) in
  let positions := set positions (i + 1) (get positions (i + 1) + offset * 0.5) in
  set positions (i + 2) (get positions (i + 2) + offset).

Definition weather (seed : R) (positions : Float32Array) : Float32Array :=
  for_stride3 (length positions) (weatherVertex seed) positions.

Section Three.

Variable BoxGeometry : R -> R -> R -> R -> R -> R -> Float32Array.

Definition createWeatheredBox (width height depth seed : R) : Float32Array :=
  weather seed (BoxGeometry width height depth 4 4 4).

End Three.

(** What the beam animation drives: the target of the spotlight and the
    rotation of the beam mesh ([None] for a ref that is [null]). *)
Record Beam := {
  lightTarget : option (R * R * R);
  beamRotationY : option R
}.

(** The frame callback: slow rotation of the beam. *)
Definition useFrame (elapsedTime : R) (st : Beam) : Beam :=
  match lightTarget st, beamRotationY st with
  | Some _, Some _ =>
      let time := elapsedTime in
      let angle := time * 0.3 in
      {| lightTarget := Some (sin angle * 150, 0, cos angle * 150);
         beamRotationY := Some (- angle) |}
  | _, _ => st
  end.

End Lighthouse.

(** ** The water material ([WaveMesh], continued) *)

Module WaveMaterial.
Import Config.

(** Material opacity based on water clarity. *)
Definition opacity (config : WaveConfig) : R :=
  if wireframe config then 1 else 0.85 + waterClarity config * 0.15.

Definition roughness (config : WaveConfig) : R :=
  if wireframe config then 1 else 0.3 - waterClarity config * 0.2.

Definition metalness (config : WaveConfig) : R :=
  if wireframe config then 0 else 0.1.

Definition emissiveIntensity (config : WaveConfig) : R :=
  if wireframe config then 0.2 else 0.

Definition vertexColors (config : WaveConfig) : bool := negb (wireframe config).
Definition transparent (config : WaveConfig) : bool := negb (wireframe config).

End WaveMaterial.

(** ** Forecast utilities ([forecast.ts]) *)

Module Forecast.
Import Js JsNum.

Record ForecastEntry := {
  datetime : string;
  dayName : string;
  hour : R;
  waveHeight : R;
  wavePeriod : R;
  waveDirection : R;
  windSpeed : R;
  windDirection : R
}.

(** *** Reading the day back from a [datetime] *)

(** [\d]. *)
Definition isDigit (c : ascii) : bool :=
  (48 <=? nat_of_ascii c)%nat && (nat_of_ascii c <=? 57)%nat.

(** [\w]: letters, digits and the underscore. *)
Definition isWord (c : ascii) : bool :=
  isDigit c ||
  ((65 <=? nat_of_ascii c)%nat && (nat_of_ascii c <=? 90)%nat) ||
  ((97 <=? nat_of_ascii c)%nat && (nat_of_ascii c <=? 122)%nat) ||
  (nat_of_ascii c =? 95)%nat.

(** The longest run of digits at the start of [s], and what follows it. *)
Fixpoint spanDigits (s : string) : string * string :=
  match s with
  | String c rest =>
      if isDigit c
      then let '(ds, after) := spanDigits rest in (String c ds, after)
      else (EmptyString, s)
  | EmptyString => (EmptyString, EmptyString)
  end.

(** [/(\d+)\./] anchored at the start of [s]: the greedy run of digits must
    be followed by a dot (a shorter run would be followed by a digit). *)
Definition matchDayAt (s : string) : option string :=
  match spanDigits s with
  | (String c ds, String "." _) => Some (String c ds)
  | _ => None
  end.

(** [datetime.match(/(\d+)\./)]: the first position where the pattern
    matches, and its captured group. *)
Fixpoint dayMatch (s : string) : option string :=
  match matchDayAt s with
  | Some ds => Some ds
  | None =>
      match s with
      | EmptyString => None
      | String _ rest => dayMatch rest
      end
  end.

(** [parseInt] of a run of digits. *)
Definition digitValue (c : ascii) : Z := Z.of_nat (nat_of_ascii c - 48).

Fixpoint parseDigits (acc : Z) (s : string) : Z :=
  match s with
  | EmptyString => acc
  | String c rest => parseDigits (acc * 10 + digitValue c) rest
  end.

Definition parseInt (s : string) : Z := parseDigits 0 s.

(** The key built for every forecast line:
    [`${dayName} ${dayNum}. ${hourStr}h`]. *)
Definition forecastKey (dayName dayNum hourStr : string) : string :=
  (dayName ++ " " ++ dayNum ++ ". " ++ hourStr ++ "h")%string.

(** *** The entry nearest to the current time *)

Section Now.

(** The current date: [now.getDate()], [now.getMonth()],
    [now.getFullYear()] and [now.getTime()]. *)
Variable currentDayOfMonth currentMonth currentYear : Z.
Variable nowTime : R.

(** [new Date(year, month, day, hour, 0, 0).getTime()]; [None] is the
    [NaN] of a date out of range. *)
Variable Date_getTime : Z -> Z -> Z -> R -> option R.

(** The month and year an entry day is taken to lie in: a day much smaller
    than the current one is likely next month. *)
Definition entryMonthYear (entryDayOfMonth : Z) : Z * Z :=
  if (entryDayOfMonth <? currentDayOfMonth - 7)%Z then
    let entryMonth := (currentMonth + 1)%Z in
    if (entryMonth >? 11)%Z then (0%Z, (currentYear + 1)%Z)
    else (entryMonth, currentYear)
  else (currentMonth, currentYear).

(** The distance of an entry from now; [None] when its [datetime] shows no
    day and the loop passes over it, and when the distance is [NaN], which
    no comparison finds smaller. *)
Definition entryDiff (entry : ForecastEntry) : option R :=
  match dayMatch (datetime entry) with
  | None => None
  | Some dayDigits =>
      let entryDayOfMonth := parseInt dayDigits in
      let entryHour := hour entry in
      let '(entryMonth, entryYear) := entryMonthYear entryDayOfMonth in
      match Date_getTime entryYear entryMonth entryDayOfMonth entryHour with
      | Some entryDate => Some (Rabs (entryDate - nowTime))
      | None => None
      end
  end.

(** One pass of the loop over [(nearestEntry, smallestDiff)]; [None] is the
    initial [Infinity]. *)
Definition nearestStep (acc : ForecastEntry * option R) (entry : ForecastEntry) :
    ForecastEntry * option R :=
  match entryDiff entry with
  | None => acc
  | Some diff =>
      match snd acc with
      | None => (entry, Some diff)
      | Some smallestDiff =>
          if ltb diff smallestDiff then (entry, Some diff) else acc
      end
  end.

Definition findNearestForecast (entries : list ForecastEntry) :
    option ForecastEntry :=
  match entries with
  | [] => None
  | first :: _ => Some (fst (fold_left nearestStep entries (first, None)))
  end.

End Now.

(** *** Forecast values into the configuration *)

Definition applyForecastToConfig (config : Config.WaveConfig)
    (entry : ForecastEntry) : Config.WaveConfig :=
  (* Convert meteorological wave direction to simulation direction *)
  let simWaveDirection := rem (waveDirection entry + 180) 360 in
  (* Convert knots to m/s *)
  let windSpeedMs := windSpeed entry * 0.514444 in
  {| Config.waveHeight := waveHeight entry;
     Config.wavePeriod := wavePeriod entry;
     Config.waveDirection := simWaveDirection;
     Config.waveLength := Config.waveLength config;
     Config.waveSpeed := Config.waveSpeed config;
     Config.secondaryWaveHeight := Config.secondaryWaveHeight config;
     Config.secondaryWavePeriod := Config.secondaryWavePeriod config;
     Config.secondaryWaveDirection := Config.secondaryWaveDirection config;
     Config.windSpeed := windSpeedMs;
     Config.windDirection := windDirection entry;
     Config.windChopIntensity := Rmin 1 (windSpeedMs / 15);
     Config.canyonAmplification := Config.canyonAmplification config;
     Config.canyonFocusWidth := Config.canyonFocusWidth config;
     Config.canyonDepthEffect := Config.canyonDepthEffect config;
     Config.foamThreshold := Config.foamThreshold config;
     Config.foamIntensity := Config.foamIntensity config;
     Config.waterClarity := Config.waterClarity config;
     Config.waveColor := Config.waveColor config;
     Config.wireframe := Config.wireframe config;
     Config.animateWaves := Config.animateWaves config;
     Config.theme := Config.theme config;
     Config.timeScale := Config.timeScale config |}.

(** *** Sample data when the live forecast is unavailable *)

Definition days : list string :=
  ["Sun"; "Mon"; "Tue"; "Wed"; "Thu"; "Fri"; "Sat"]%string.

(** A non-negative integer in a template literal. *)
Definition decimal (n : nat) : string := NilEmpty.string_of_uint (Nat.to_uint n).

Section Calendar.

(** For [date = today + d days]: [date.getDay()] and [date.getDate()]. *)
Variable getDay : nat -> nat.
Variable getDate : nat -> nat.

Definition fallbackEntry (d h : nat) : ForecastEntry :=
  let dayName := nth (getDay d) days "undefined"%string in
  let dayNum := getDate d in
  let variation := sin (INR d * 0.8 + INR h * 0.1) * 0.5 + 0.5 in
  {| datetime := forecastKey dayName (decimal dayNum) (decimal h);
     dayName := dayName;
     hour := INR h;
     waveHeight := Math_round ((3 + variation * 12) * 10) / 10;
     wavePeriod := Math_round ((10 + variation * 8) * 10) / 10;
     waveDirection := Math_round (280 + sin (INR d) * 40);
     windSpeed := Math_round ((5 + variation * 20) * 10) / 10;
     windDirection := Math_round (45 + cos (INR d * 0.5) * 40) |}.

(** [for (let d = 0; d < 7; d++) for (let h = 0; h < 24; h += 3)]. *)
Definition generateFallbackForecast : list ForecastEntry :=
  flat_map (fun d => map (fun j => fallbackEntry d (3 * j)) (seq 0 8)) (seq 0 7).

(** *** Fetching *)

(** [fetchWithProxy]: the proxies are tried in order; each gives the body
    of an ok response or fails.  [None] stands for the final [throw]. *)
Fixpoint fetchWithProxy (proxies : list (option string)) : option string :=
  match proxies with
  | [] => None
  | Some text :: _ => Some text
  | None :: rest => fetchWithProxy rest
  end.

Record ForecastResult := {
  entries : list ForecastEntry;
  error : option string
}.

(** The parser of the Windguru pages, taken as given. *)
Variable parseWindguruText : string -> string -> list ForecastEntry.

(** [fetchForecastData], from what each proxy answers for the wave page and
    for the wind page. *)
Definition fetchForecastData (waveProxies windProxies : list (option string)) :
    ForecastResult :=
  match fetchWithProxy waveProxies, fetchWithProxy windProxies with
  | Some waveText, Some windText =>
      let entries := parseWindguruText waveText windText in
      if (length entries =? 0)%nat then
        {| entries := generateFallbackForecast;
           error := Some "Could not parse forecast data, using sample data"%string |}
      else {| entries := entries; error := None |}
  | _, _ =>
      {| entries := generateFallbackForecast;
         error := Some "Using sample data (live fetch unavailable)"%string |}
  end.

End Calendar.

End Forecast.

(** ** Presets and slider limits ([waveConfig.ts], [ControlPanel]) *)

Module Presets.
Import Config.

(** [defaultWaveConfig]; the colour and the theme are not among the numeric
    defaults and stay open. *)
Definition defaultWaveConfig (colour : string) (th : Theme) : WaveConfig :=
  {| waveHeight := 8;
     wavePeriod := 14;
     waveDirection := 0;
     waveLength := 200;
     waveSpeed := 1.0;
     secondaryWaveHeight := 2;
     secondaryWavePeriod := 8;
     secondaryWaveDirection := 30;
     windSpeed := 15;
     windDirection := 45;
     windChopIntensity := 0.3;
     canyonAmplification := 2.0;
     canyonFocusWidth := 0.4;
     canyonDepthEffect := 0.7;
     foamThreshold := 0.6;
     foamIntensity := 0.5;
     waterClarity := 0.7;
     waveColor := colour;
     wireframe := true;
     animateWaves := true;
     theme := th;
     timeScale := 1.0 |}.

Inductive PresetName := calm | moderate | big | extreme.

Definition wavePresets (colour : string) (th : Theme) (name : PresetName) :
    WaveConfig :=
  let d := defaultWaveConfig colour th in
  match name with
  | calm =>
      {| waveHeight := 2; wavePeriod := 10;
         waveDirection := waveDirection d; waveLength := waveLength d;
         waveSpeed := waveSpeed d;
         secondaryWaveHeight := secondaryWaveHeight d;
         secondaryWavePeriod := secondaryWavePeriod d;
         secondaryWaveDirection := secondaryWaveDirection d;
         windSpeed := 5; windDirection := windDirection d;
         windChopIntensity := 0.1;
         canyonAmplification := 1.2;
         canyonFocusWidth := canyonFocusWidth d;
         canyonDepthEffect := canyonDepthEffect d;
         foamThreshold := foamThreshold d; foamIntensity := 0.2;
         waterClarity := waterClarity d; waveColor := waveColor d;
         wireframe := wireframe d; animateWaves := animateWaves d;
         theme := theme d; timeScale := timeScale d |}
  | moderate => d
  | big =>
      {| waveHeight := 15; wavePeriod := 16;
         waveDirection := waveDirection d; waveLength := waveLength d;
         waveSpeed := waveSpeed d;
         secondaryWaveHeight := secondaryWaveHeight d;
         secondaryWavePeriod := secondaryWavePeriod d;
         secondaryWaveDirection := secondaryWaveDirection d;
         windSpeed := 25; windDirection := windDirection d;
         windChopIntensity := 0.5;
         canyonAmplification := 2.5;
         canyonFocusWidth := canyonFocusWidth d;
         canyonDepthEffect := canyonDepthEffect d;
         foamThreshold := foamThreshold d; foamIntensity := 0.7;
         waterClarity := waterClarity d; waveColor := waveColor d;
         wireframe := wireframe d; animateWaves := animateWaves d;
         theme := theme d; timeScale := timeScale d |}
  | extreme =>
      {| waveHeight := 25; wavePeriod := 20;
         waveDirection := waveDirection d; waveLength := waveLength d;
         waveSpeed := waveSpeed d;
         secondaryWaveHeight := 5;
         secondaryWavePeriod := secondaryWavePeriod d;
         secondaryWaveDirection := secondaryWaveDirection d;
         windSpeed := 40; windDirection := windDirection d;
         windChopIntensity := 0.8;
         canyonAmplification := 3.0;
         canyonFocusWidth := canyonFocusWidth d;
         canyonDepthEffect := 0.9;
         foamThreshold := foamThreshold d; foamIntensity := 0.9;
         waterClarity := waterClarity d; waveColor := waveColor d;
         wireframe := wireframe d; animateWaves := animateWaves d;
         theme := theme d; timeScale := timeScale d |}
  end.

(** One row of [configLimits]. *)
Record Limit := { min : R; max : R; step : R }.

Definition within (l : Limit) (v : R) : Prop := min l <= v <= max l.

(** [configLimits], each row with the field it bounds. *)
Definition configLimits : list ((WaveConfig -> R) * Limit) :=
  [ (waveHeight, {| min := 0.5; max := 30; step := 0.5 |});
    (wavePeriod, {| min := 4; max := 25; step := 1 |});
    (waveDirection, {| min := 0; max := 360; step := 5 |});
    (waveLength, {| min := 50; max := 500; step := 10 |});
    (waveSpeed, {| min := 0.1; max := 3; step := 0.1 |});
    (secondaryWaveHeight, {| min := 0; max := 10; step := 0.5 |});
    (secondaryWavePeriod, {| min := 4; max := 15; step := 1 |});
    (secondaryWaveDirection, {| min := 0; max := 360; step := 5 |});
    (windSpeed, {| min := 0; max := 60; step := 1 |});
    (windDirection, {| min := 0; max := 360; step := 5 |});
    (windChopIntensity, {| min := 0; max := 1; step := 0.05 |});
    (canyonAmplification, {| min := 1; max := 4; step := 0.1 |});
    (canyonFocusWidth, {| min := 0.1; max := 1; step := 0.05 |});
    (canyonDepthEffect, {| min := 0; max := 1; step := 0.05 |});
    (foamThreshold, {| min := 0; max := 1; step := 0.05 |});
    (foamIntensity, {| min := 0; max := 1; step := 0.05 |});
    (waterClarity, {| min := 0; max := 1; step := 0.05 |});
    (timeScale, {| min := 0.1; max := 3; step := 0.1 |}) ].

(** Every limited field of [config] lies between its [min] and [max]. *)
Definition withinLimits (config : WaveConfig) : Prop :=
  Forall (fun row => within (snd row) (fst row config)) configLimits.

(** [applyPreset] of the control panel: the preset, keeping the display
    settings of the current configuration. *)
Definition applyPreset (colour : string) (th : Theme) (config : WaveConfig)
    (presetName : PresetName) : WaveConfig :=
  let p := wavePresets colour th presetName in
  {| waveHeight := waveHeight p; wavePeriod := wavePeriod p;
     waveDirection := waveDirection p; waveLength := waveLength p;
     waveSpeed := waveSpeed p;
     secondaryWaveHeight := secondaryWaveHeight p;
     secondaryWavePeriod := secondaryWavePeriod p;
     secondaryWaveDirection := secondaryWaveDirection p;
     windSpeed := windSpeed p; windDirection := windDirection p;
     windChopIntensity := windChopIntensity p;
     canyonAmplification := canyonAmplification p;
     canyonFocusWidth := canyonFocusWidth p;
     canyonDepthEffect := canyonDepthEffect p;
     foamThreshold := foamThreshold p; foamIntensity := foamIntensity p;
     waterClarity := waterClarity p;
     waveColor := waveColor config;
     wireframe := wireframe config;
     animateWaves := animateWaves config;
     theme := theme config;
     timeScale := timeScale p |}.

End Presets.

(** ** More sample inputs *)

Module Samples.
Import Js.
Import Config.

(** A flat sea: no swell, no chop. *)
Definition flatSea : WaveConfig :=
  {| waveHeight := 0; wavePeriod := 14; waveDirection := 0;
     waveLength := 200; waveSpeed := 1.0;
     secondaryWaveHeight := 0; secondaryWavePeriod := 8;
     secondaryWaveDirection := 30; windSpeed := 0;
     windDirection := 45; windChopIntensity := 0;
     canyonAmplification := 2.0; canyonFocusWidth := 0.4;
     canyonDepthEffect := 0.7; foamThreshold := 0.6;
     foamIntensity := 0.5; waterClarity := 0.7;
     waveColor := "#0000ff"; wireframe := false;
     animateWaves := true; theme := dark; timeScale := 1.0 |}.

(** The tallest, shortest waves the sliders allow, frozen, with foam at
    full intensity from the slightest slope. *)
Definition breakingSea : WaveConfig :=
  {| waveHeight := 30; wavePeriod := 14; waveDirection := 0;
     waveLength := 50; waveSpeed := 1.0;
     secondaryWaveHeight := 0; secondaryWavePeriod := 8;
     secondaryWaveDirection := 30; windSpeed := 0;
     windDirection := 45; windChopIntensity := 0;
     canyonAmplification := 2.0; canyonFocusWidth := 0.4;
     canyonDepthEffect := 0; foamThreshold := 0;
     foamIntensity := 1; waterClarity := 0.7;
     waveColor := "#0000ff"; wireframe := false;
     animateWaves := false; theme := dark; timeScale := 1.0 |}.

End Samples.

(** ** Text of the forecast keys *)

Module ForecastText.

(** Every character of [s] satisfies [p]. *)
Fixpoint allChars (p : ascii -> bool) (s : string) : bool :=
  match s with
  | EmptyString => true
  | String c rest => p c && allChars p rest
  end.

End ForecastText.

(** ** Sample forecast entries *)

Module ForecastSamples.
Import Forecast.

Definition fridayNoon : ForecastEntry :=
  {| datetime := "Fri 16. 12h"; dayName := "Fri"; hour := 12;
     waveHeight := 3.5; wavePeriod := 14; waveDirection := 290;
     windSpeed := 12; windDirection := 40 |}.

Definition fridayEvening : ForecastEntry :=
  {| datetime := "Fri 16. 18h"; dayName := "Fri"; hour := 18;
     waveHeight := 4.2; wavePeriod := 15; waveDirection := 300;
     windSpeed := 20; windDirection := 30 |}.

(** A clock counting hours within one month. *)
Definition hoursOfMonth (year month day : Z) (hour : R) : option R :=
  Some (IZR day * 24 + hour).

End ForecastSamples.

(** * Properties *)

(** ** Typed arrays and the stride-3 loop *)

Module JsFacts.
Import Js.

Lemma get_lookup (a : Float32Array) (i : nat) (v : R) :
  a !! i = Some v -> get a i = v.
Proof. unfold get. intros ->. reflexivity. Qed.

Lemma lookup_get (a : Float32Array) (i : nat) :
  (i < length a)%nat -> a !! i = Some (get a i).
Proof.
  intros Hi. unfold get.
  destruct (lookup_lt_is_Some_2 a i Hi) as [v Hv]. rewrite Hv. reflexivity.
Qed.

Lemma get_set_eq (a : Float32Array) (i : nat) (v : R) :
  (i < length a)%nat -> get (set a i v) i = v.
Proof.
  intros Hi. apply get_lookup. unfold set. apply list_lookup_insert_eq. exact Hi.
Qed.

Lemma get_set_ne (a : Float32Array) (i j : nat) (v : R) :
  i <> j -> get (set a i v) j = get a j.
Proof.
  intros Hne. unfold get, set. rewrite list_lookup_insert_ne by exact Hne.
  reflexivity.
Qed.

Lemma length_set (a : Float32Array) (i : nat) (v : R) :
  length (set a i v) = length a.
Proof. unfold set. apply length_insert. Qed.

(** Equal lookups give equal reads. *)
Lemma get_ext (a a' : Float32Array) (i : nat) :
  a !! i = a' !! i -> get a i = get a' i.
Proof. unfold get. intros ->. reflexivity. Qed.

(** Stores of the same value into arrays that agree at [j] agree at [j]. *)
Lemma set_lookup_cong (a a' : Float32Array) (i j : nat) (v : R) :
  length a = length a' -> a !! j = a' !! j ->
  set a i v !! j = set a' i v !! j.
Proof.
  intros Hlen Hj. unfold set. destruct (decide (i = j)) as [->|Hne].
  - destruct (lt_dec j (length a)) as [Hlt|Hge].
    + rewrite !list_lookup_insert_eq by lia. reflexivity.
    + rewrite !list_insert_ge by lia. exact Hj.
  - rewrite !list_lookup_insert_ne by exact Hne. exact Hj.
Qed.

Lemma triple_div (k d : nat) : (d < 3)%nat -> ((3 * k + d) / 3 = k)%nat.
Proof. intros Hd. symmetry. apply (Nat.div_unique _ 3 k d); lia. Qed.

(** Entries away from the stored indices are untouched. *)
Ltac stores_elsewhere :=
  unfold set; cbv zeta; rewrite !list_lookup_insert_ne by lia; reflexivity.

Section Stride.

(** A loop body that, at the triple starting at [3 * k], writes only inside
    that triple and whose writes depend only on that triple. *)
Variable body : nat -> Float32Array -> Float32Array.

Hypothesis body_length : forall k a, length (body (3 * k) a) = length a.

Hypothesis body_frame : forall k a j,
  (j < 3 * k \/ 3 * k + 3 <= j)%nat -> body (3 * k) a !! j = a !! j.

Hypothesis body_local : forall k a a' j,
  length a = length a' ->
  (forall j', (3 * k <= j' < 3 * k + 3)%nat -> a !! j' = a' !! j') ->
  (3 * k <= j < 3 * k + 3)%nat -> body (3 * k) a !! j = body (3 * k) a' !! j.

Lemma fold_stride3_length (n : nat) (a : Float32Array) :
  length (fold_left (fun s k => body (3 * k) s) (seq 0 n) a) = length a.
Proof.
  induction n as [|n IH]; [reflexivity|].
  rewrite seq_S, fold_left_app. cbn [fold_left Nat.add].
  rewrite body_length. exact IH.
Qed.

(** After the first [n] triples, an entry below [3 * n] holds what the body
    computes for its own triple from the initial array; the rest is
    untouched. *)
Lemma fold_stride3_lookup (n : nat) (a : Float32Array) (j : nat) :
  fold_left (fun s k => body (3 * k) s) (seq 0 n) a !! j =
  if (j <? 3 * n)%nat then body (3 * (j / 3)) a !! j else a !! j.
Proof.
  induction n as [|n IH] in j |- *.
  - simpl. reflexivity.
  - rewrite seq_S, fold_left_app. cbn [fold_left Nat.add].
    set (prev := fold_left _ (seq 0 n) a) in *.
    destruct (Nat.ltb_spec j (3 * S n)) as [Hlt|Hge].
    + destruct (Nat.ltb_spec j (3 * n)) as [Hold|Hcur].
      * rewrite body_frame by lia. rewrite IH.
        destruct (Nat.ltb_spec j (3 * n)); [reflexivity|lia].
      * assert (Hk : (j / 3 = n)%nat).
        { symmetry. apply (Nat.div_unique j 3 n (j - 3 * n)); lia. }
        rewrite Hk. apply body_local.
        -- apply fold_stride3_length.
        -- intros j' Hj'. rewrite IH.
           destruct (Nat.ltb_spec j' (3 * n)); [lia|reflexivity].
        -- lia.
    + rewrite body_frame by lia. rewrite IH.
      destruct (Nat.ltb_spec j (3 * n)); [lia|reflexivity].
Qed.

(** The loop over the whole array: every entry is what the body computes
    for its triple from the initial array. *)
Lemma for_stride3_lookup (a : Float32Array) (j : nat) :
  for_stride3 (length a) body a !! j = body (3 * (j / 3)) a !! j.
Proof.
  unfold for_stride3. rewrite fold_stride3_lookup.
  destruct (Nat.ltb_spec j (3 * ((length a + 2) / 3))) as [Hlt|Hge]; [reflexivity|].
  assert (Hlen : (length a <= j)%nat).
  { pose proof (Nat.div_mod_eq (length a + 2) 3) as Hdm.
    pose proof (Nat.mod_upper_bound (length a + 2) 3 ltac:(lia)). lia. }
  rewrite (lookup_ge_None_2 a j) by lia.
  symmetry. apply lookup_ge_None_2. rewrite body_length. lia.
Qed.

Lemma for_stride3_length (a : Float32Array) :
  length (for_stride3 (length a) body a) = length a.
Proof. unfold for_stride3. apply fold_stride3_length. Qed.

End Stride.

(** A loop over a pair of arrays whose body updates each array without
    reading the other is a pair of loops. *)
Lemma for_stride3_pair (n : nat) (f g : nat -> Float32Array -> Float32Array)
    (p c : Float32Array) :
  for_stride3 n (fun i (s : Float32Array * Float32Array) => (f i (fst s), g i (snd s))) (p, c) =
  (for_stride3 n f p, for_stride3 n g c).
Proof.
  unfold for_stride3. generalize ((n + 2) / 3)%nat as m. intros m.
  induction m as [|m IH]; [reflexivity|].
  rewrite seq_S, !fold_left_app. cbn [fold_left].
  rewrite IH. reflexivity.
Qed.

(** Bodies that agree everywhere give the same loop. *)
Lemma for_stride3_ext {A : Type} (n : nat) (f g : nat -> A -> A) (s : A) :
  (forall i s, f i s = g i s) -> for_stride3 n f s = for_stride3 n g s.
Proof.
  intros Hfg. unfold for_stride3. generalize ((n + 2) / 3)%nat as m. intros m.
  induction m as [|m IH]; [reflexivity|].
  rewrite seq_S, !fold_left_app. cbn [fold_left].
  rewrite IH. apply Hfg.
Qed.

End JsFacts.

(** ** Rounding *)

Module IeeeFacts.
Import Js Ieee.

Lemma nearestEven_le (m : R) (n : Z) : m <= IZR n -> (nearestEven m <= n)%Z.
Proof.
  intros Hm. unfold nearestEven. cbv zeta.
  destruct (base_Int_part m) as [Hle Hgt].
  assert (Hf : (Int_part m <= n)%Z) by (apply le_IZR; lra).
  destruct (Rlt_dec (m - IZR (Int_part m)) (1 / 2)) as [Hd|Hd]; [exact Hf|].
  assert (Hlt : (Int_part m < n)%Z).
  { apply lt_IZR. lra. }
  destruct (Rlt_dec (1 / 2) (m - IZR (Int_part m))); [lia|].
  destruct (Z.even (Int_part m)); lia.
Qed.

Lemma nearestEven_ge (m : R) (n : Z) : IZR n <= m -> (n <= nearestEven m)%Z.
Proof.
  intros Hm. unfold nearestEven. cbv zeta.
  destruct (base_Int_part m) as [Hle Hgt].
  assert (Hf : (n <= Int_part m)%Z).
  { assert (IZR n - 1 < IZR (Int_part m)) by lra.
    rewrite <- minus_IZR in H. apply lt_IZR in H. lia. }
  destruct (Rlt_dec (m - IZR (Int_part m)) (1 / 2)); [exact Hf|].
  destruct (Rlt_dec (1 / 2) (m - IZR (Int_part m))); [lia|].
  destruct (Z.even (Int_part m)); lia.
Qed.

(** A number nearer to [n] than to any other integer rounds to [n]. *)
Lemma nearestEven_near (m : R) (n : Z) :
  IZR n - 1 / 2 < m < IZR n + 1 / 2 -> nearestEven m = n.
Proof.
  intros Hm. unfold nearestEven. cbv zeta.
  destruct (Rle_dec (IZR n) m) as [Hge|Hlt].
  - assert (Hf : Int_part m = n).
    { symmetry. apply Int_part_spec. lra. }
    rewrite Hf. destruct (Rlt_dec (m - IZR n) (1 / 2)); [reflexivity|lra].
  - assert (Hf : Int_part m = (n - 1)%Z).
    { symmetry. apply Int_part_spec. rewrite minus_IZR. lra. }
    rewrite Hf, minus_IZR.
    destruct (Rlt_dec (m - (IZR n - 1)) (1 / 2)); [lra|].
    destruct (Rlt_dec (1 / 2) (m - (IZR n - 1))); [lia|lra].
Qed.

Lemma ln_2_pos : 0 < ln 2.
Proof. rewrite <- ln_1. apply ln_increasing; lra. Qed.

Lemma ln_powerRZ_2 (e : Z) : ln (powerRZ 2 e) = IZR e * ln 2.
Proof. rewrite powerRZ_Rpower by lra. apply ln_Rpower. Qed.

(** The exponent is the one of the binade [x] lies in. *)
Lemma exponent_spec (x : R) (e : Z) :
  powerRZ 2 e <= Rabs x < powerRZ 2 (e + 1) -> exponent x = e.
Proof.
  intros [Hlo Hhi]. unfold exponent. symmetry. apply Int_part_spec.
  pose proof ln_2_pos as H2.
  pose proof (powerRZ_lt 2 e ltac:(lra)) as Hpos.
  assert (Hl : IZR e * ln 2 <= ln (Rabs x)).
  { rewrite <- ln_powerRZ_2. destruct Hlo as [Hlo|Hlo].
    - left. apply ln_increasing; assumption.
    - rewrite Hlo. right. reflexivity. }
  assert (Hu : ln (Rabs x) < (IZR e + 1) * ln 2).
  { rewrite <- plus_IZR, <- ln_powerRZ_2. apply ln_increasing; lra. }
  assert (Hq : ln (Rabs x) / ln 2 * ln 2 = ln (Rabs x)) by (field; lra).
  set (q := ln (Rabs x) / ln 2) in *. split; nra.
Qed.

(** Below 1 the exponent is negative. *)
Lemma exponent_below_1 (x : R) : 0 < x < 1 -> (exponent x <= -1)%Z.
Proof.
  intros Hx. unfold exponent. rewrite Rabs_right by lra.
  pose proof ln_2_pos as H2.
  assert (Hln : ln x < 0) by (rewrite <- ln_1; apply ln_increasing; lra).
  assert (Hq : ln x / ln 2 * ln 2 = ln x) by (field; lra).
  destruct (base_Int_part (ln x / ln 2)) as [Hle _].
  set (q := ln x / ln 2) in *.
  assert (IZR (Int_part q) < 0) by nra.
  apply lt_IZR in H. lia.
Qed.

Lemma round_0 (prec emin : Z) : round prec emin 0 = 0.
Proof. unfold round. destruct (Req_dec_T 0 0); [reflexivity|lra]. Qed.

(** Rounding within a known binade. *)
Lemma round_binade (prec emin : Z) (x : R) (e : Z) :
  powerRZ 2 e <= Rabs x < powerRZ 2 (e + 1) -> (emin <= e)%Z ->
  round prec emin x =
  IZR (nearestEven (x / powerRZ 2 (e - (prec - 1)))) * powerRZ 2 (e - (prec - 1)).
Proof.
  intros Hx He. unfold round.
  pose proof (powerRZ_lt 2 e ltac:(lra)) as Hpos.
  destruct (Req_dec_T x 0) as [->|_].
  - rewrite Rabs_R0 in Hx. lra.
  - cbv zeta. rewrite (exponent_spec x e Hx).
    replace (Z.max e emin) with e by lia. reflexivity.
Qed.

Lemma powerRZ_2_IZR (n : Z) : (0 <= n)%Z -> powerRZ 2 n = IZR (2 ^ n).
Proof.
  intros Hn. destruct n as [|p|p]; [reflexivity| |lia].
  cbn [powerRZ]. rewrite <- (positive_nat_Z p), <- pow_IZR. reflexivity.
Qed.

(** A number of [0, 1) rounds into [0, 1]: the last step up may reach 1. *)
Lemma round_unit (prec emin : Z) (y : R) :
  (1 <= prec)%Z -> (emin <= -1)%Z ->
  0 <= y < 1 -> 0 <= round prec emin y <= 1.
Proof.
  intros Hprec Hemin Hy. unfold round.
  destruct (Req_dec_T y 0) as [_|Hne]; [lra|]. cbv zeta.
  pose proof (exponent_below_1 y ltac:(lra)) as He.
  set (e := Z.max (exponent y) emin).
  assert (He' : (e <= -1)%Z) by (unfold e; lia).
  set (s := (e - (prec - 1))%Z).
  pose proof (powerRZ_lt 2 s ltac:(lra)) as Hu.
  assert (Hinv : powerRZ 2 s * powerRZ 2 (- s) = 1).
  { rewrite <- powerRZ_add by lra. replace (s + - s)%Z with 0%Z by lia.
    reflexivity. }
  assert (HN : powerRZ 2 (- s) = IZR (2 ^ (- s))).
  { apply powerRZ_2_IZR. unfold s. lia. }
  assert (Hm : y / powerRZ 2 s = y * powerRZ 2 (- s)).
  { apply Rmult_eq_reg_r with (powerRZ 2 s); [|lra]. unfold Rdiv.
    rewrite Rmult_assoc, Rinv_l by lra.
    rewrite Rmult_assoc, (Rmult_comm (powerRZ 2 (- s))), Hinv. reflexivity. }
  pose proof (powerRZ_lt 2 (- s) ltac:(lra)) as HNpos.
  assert (Hlo : (0 <= nearestEven (y / powerRZ 2 s))%Z).
  { apply nearestEven_ge. rewrite Hm. simpl. nra. }
  assert (Hhi : (nearestEven (y / powerRZ 2 s) <= 2 ^ (- s))%Z).
  { apply nearestEven_le. rewrite Hm, <- HN. nra. }
  apply IZR_le in Hlo, Hhi. rewrite <- HN in Hhi. simpl in Hlo.
  set (n := IZR (nearestEven (y / powerRZ 2 s))) in *. split; nra.
Qed.

Lemma pow2_neg (p : positive) : powerRZ 2 (Z.neg p) = / IZR (2 ^ Z.pos p).
Proof.
  cbn [powerRZ]. f_equal. rewrite <- (positive_nat_Z p), <- pow_IZR. reflexivity.
Qed.

(** The exponent names the binade. *)
Lemma exponent_bounds (x : R) :
  x <> 0 ->
  powerRZ 2 (exponent x) <= Rabs x < powerRZ 2 (exponent x + 1).
Proof.
  intros Hx. pose proof (Rabs_pos_lt x Hx) as Hpos.
  pose proof ln_2_pos as H2. unfold exponent.
  set (q := ln (Rabs x) / ln 2).
  assert (Hq : q * ln 2 = ln (Rabs x)) by (unfold q; field; lra).
  destruct (base_Int_part q) as [Hle Hgt].
  assert (Habs : Rabs x = exp (q * ln 2)) by (rewrite Hq, exp_ln; auto).
  rewrite !powerRZ_Rpower by lra. unfold Rpower. rewrite plus_IZR.
  clearbody q. rewrite Habs.
  split.
  - destruct (Req_dec_T (IZR (Int_part q)) q) as [->|Hne]; [lra|].
    left. apply exp_increasing. nra.
  - apply exp_increasing. nra.
Qed.

Lemma exponent_from_1 (y : R) : 1 <= y -> (0 <= exponent y)%Z.
Proof.
  intros Hy. unfold exponent. rewrite Rabs_right by lra.
  pose proof ln_2_pos as H2.
  assert (Hln : 0 <= ln y).
  { destruct Hy as [Hy|<-]; [|rewrite ln_1; lra].
    left. rewrite <- ln_1. apply ln_increasing; lra. }
  assert (Hq : ln y / ln 2 * ln 2 = ln y) by (field; lra).
  destruct (base_Int_part (ln y / ln 2)) as [_ Hgt].
  set (q := ln y / ln 2) in *.
  assert (-1 < IZR (Int_part q)) by nra.
  apply lt_IZR in H. lia.
Qed.

Lemma ulp_inverse (s : Z) (y : R) :
  y / powerRZ 2 s = y * powerRZ 2 (- s) /\ powerRZ 2 s * powerRZ 2 (- s) = 1.
Proof.
  pose proof (powerRZ_lt 2 s ltac:(lra)) as Hu.
  assert (Hinv : powerRZ 2 s * powerRZ 2 (- s) = 1).
  { rewrite <- powerRZ_add by lra. replace (s + - s)%Z with 0%Z by lia.
    reflexivity. }
  split; [|exact Hinv].
  apply Rmult_eq_reg_r with (powerRZ 2 s); [|lra]. unfold Rdiv.
  rewrite Rmult_assoc, Rinv_l by lra.
  rewrite Rmult_assoc, (Rmult_comm (powerRZ 2 (- s))), Hinv. reflexivity.
Qed.

(** Rounding keeps the sign of a number that is not positive. *)
Lemma round_nonpos (prec emin : Z) (x : R) : x <= 0 -> round prec emin x <= 0.
Proof.
  intros Hx. unfold round. destruct (Req_dec_T x 0); [lra|]. cbv zeta.
  set (s := (Z.max (exponent x) emin - (prec - 1))%Z).
  pose proof (powerRZ_lt 2 s ltac:(lra)) as Hu.
  assert (Hm : x / powerRZ 2 s <= 0).
  { unfold Rdiv. pose proof (Rinv_0_lt_compat _ Hu). nra. }
  pose proof (nearestEven_le _ 0 Hm) as Hn. apply IZR_le in Hn. nra.
Qed.

(** Rounding does not carry a number from below 0.99 up to 1. *)
Lemma round_below_1 (prec emin : Z) (y : R) :
  (8 <= prec)%Z -> (emin <= -1)%Z ->
  0 < y <= 0.99 -> 0 <= round prec emin y < 1.
Proof.
  intros Hprec Hemin Hy. unfold round.
  destruct (Req_dec_T y 0) as [|_]; [lra|]. cbv zeta.
  pose proof (exponent_below_1 y ltac:(lra)) as He.
  set (s := (Z.max (exponent y) emin - (prec - 1))%Z).
  assert (Hs : (8 <= - s)%Z) by (unfold s; lia).
  pose proof (powerRZ_lt 2 s ltac:(lra)) as Hu.
  destruct (ulp_inverse s y) as [Hm Hinv].
  assert (HN : powerRZ 2 (- s) = IZR (2 ^ (- s))) by (apply powerRZ_2_IZR; lia).
  assert (Hbig : 256 <= IZR (2 ^ (- s))).
  { apply IZR_le. change 256%Z with (2 ^ 8)%Z. apply Z.pow_le_mono_r; lia. }
  assert (Hlo : (0 <= nearestEven (y / powerRZ 2 s))%Z).
  { apply nearestEven_ge. rewrite Hm, HN. simpl. nra. }
  assert (Hhi : (nearestEven (y / powerRZ 2 s) <= 2 ^ (- s) - 1)%Z).
  { apply nearestEven_le. rewrite Hm, HN, minus_IZR. nra. }
  apply IZR_le in Hlo, Hhi. rewrite minus_IZR, <- HN in Hhi. simpl in Hlo.
  set (n := IZR (nearestEven (y / powerRZ 2 s))) in *. split; nra.
Qed.

(** Rounding does not carry a number from 1 or above to below 1. *)
Lemma round_from_1 (prec emin : Z) (y : R) :
  (1 <= prec)%Z -> (emin <= 0)%Z -> 1 <= y -> 1 <= round prec emin y.
Proof.
  intros Hprec Hemin Hy. unfold round.
  destruct (Req_dec_T y 0) as [|Hne]; [lra|]. cbv zeta.
  pose proof (exponent_from_1 y Hy) as He.
  destruct (exponent_bounds y Hne) as [Hlo _]. rewrite Rabs_right in Hlo by lra.
  replace (Z.max (exponent y) emin) with (exponent y) by lia.
  set (e := exponent y) in *. set (s := (e - (prec - 1))%Z).
  pose proof (powerRZ_lt 2 s ltac:(lra)) as Hu.
  destruct (ulp_inverse s y) as [Hm Hinv].
  assert (Hsplit : powerRZ 2 e = powerRZ 2 (prec - 1) * powerRZ 2 s).
  { rewrite <- powerRZ_add by lra. f_equal. unfold s. lia. }
  assert (HP : powerRZ 2 (prec - 1) = IZR (2 ^ (prec - 1)))
    by (apply powerRZ_2_IZR; lia).
  assert (HE : 1 <= powerRZ 2 e).
  { rewrite powerRZ_2_IZR by lia. apply IZR_le.
    change 1%Z with (2 ^ 0)%Z. apply Z.pow_le_mono_r; lia. }
  assert (Hn : (2 ^ (prec - 1) <= nearestEven (y / powerRZ 2 s))%Z).
  { apply nearestEven_ge. rewrite <- HP, Hm.
    pose proof (powerRZ_lt 2 (- s) ltac:(lra)).
    pose proof (powerRZ_lt 2 (prec - 1) ltac:(lra)).
    assert (powerRZ 2 (prec - 1) = powerRZ 2 e * powerRZ 2 (- s)).
    { rewrite Hsplit, Rmult_assoc, Hinv. lra. }
    nra. }
  apply IZR_le in Hn. rewrite <- HP in Hn.
  set (n := IZR (nearestEven (y / powerRZ 2 s))) in *.
  pose proof (powerRZ_lt 2 (prec - 1) ltac:(lra)). nra.
Qed.

Lemma powerRZ_2_le (a b : Z) : (a <= b)%Z -> powerRZ 2 a <= powerRZ 2 b.
Proof.
  intros Hab. replace b with (a + (b - a))%Z by lia.
  rewrite powerRZ_add by lra.
  pose proof (powerRZ_lt 2 a ltac:(lra)).
  assert (1 <= powerRZ 2 (b - a)).
  { rewrite powerRZ_2_IZR by lia. apply IZR_le.
    change 1%Z with (2 ^ 0)%Z. apply Z.pow_le_mono_r; lia. }
  nra.
Qed.

(** Only the last half step below 1 is carried up to 1: a double-rounded
    number of [0, 1 - 2 ^ -53] stays below 1. *)
Lemma roundDouble_below_1 (y : R) :
  0 <= y <= 1 - / 9007199254740992 -> roundDouble y < 1.
Proof.
  intros Hy. unfold roundDouble, round.
  destruct (Req_dec_T y 0) as [|Hne]; [lra|]. cbv zeta.
  pose proof (exponent_below_1 y ltac:(lra)) as He.
  destruct (exponent_bounds y Hne) as [_ Hup]. rewrite Rabs_right in Hup by lra.
  set (e := Z.max (exponent y) (-1022)).
  destruct (Z.eq_dec e (-1)%Z) as [Heq|Hlow].
  - rewrite Heq. change (-1 - (53 - 1))%Z with (-53)%Z. rewrite pow2_neg.
    change (IZR (2 ^ 53)) with 9007199254740992.
    assert (Hn : (nearestEven (y / / 9007199254740992) <= 9007199254740991)%Z).
    { apply nearestEven_le.
      replace (y / / 9007199254740992) with (y * 9007199254740992)
        by (field; lra).
      lra. }
    apply IZR_le in Hn. lra.
  - assert (He2 : (e <= -2)%Z) by (unfold e in *; lia).
    assert (Hexp : (exponent y + 1 <= -1)%Z) by (unfold e in *; lia).
    assert (Hhalf : y < / 2).
    { pose proof (powerRZ_2_le _ _ Hexp) as Hle.
      rewrite pow2_neg in Hle. change (IZR (2 ^ 1)) with 2 in Hle. lra. }
    set (s := (e - (53 - 1))%Z).
    pose proof (powerRZ_lt 2 s ltac:(lra)) as Hu.
    destruct (ulp_inverse s y) as [Hm Hinv].
    assert (HN : powerRZ 2 (- s) = 2 * IZR (2 ^ (- s - 1))).
    { replace (- s)%Z with (1 + (- s - 1))%Z at 1 by lia.
      rewrite powerRZ_add by lra.
      rewrite (powerRZ_2_IZR (- s - 1)) by (unfold s; lia).
      cbn [powerRZ]. simpl. lra. }
    assert (Hpos : 0 < IZR (2 ^ (- s - 1))).
    { pose proof (powerRZ_lt 2 (- s) ltac:(lra)). lra. }
    assert (Hn : (nearestEven (y / powerRZ 2 s) <= 2 ^ (- s - 1))%Z).
    { apply nearestEven_le. rewrite Hm, HN. nra. }
    apply IZR_le in Hn.
    set (n := IZR (nearestEven (y / powerRZ 2 s))) in *.
    set (h := IZR (2 ^ (- s - 1))) in *.
    assert (h * powerRZ 2 s = / 2).
    { assert (2 * h * powerRZ 2 s = 1) by (rewrite <- HN; lra). lra. }
    nra.
Qed.

(** *** What a [Float32Array] keeps of a colour value *)

(** In the binade of 1 the spacing of binary32 is [2 ^ -23]. *)
Lemma roundFloat32_binade_1 (v : R) :
  1 <= v < 2 ->
  roundFloat32 v = IZR (nearestEven (v * 8388608)) / 8388608.
Proof.
  intros Hv. unfold roundFloat32.
  rewrite (round_binade 24 (-126) v 0); [| |lia].
  - change (0 - (24 - 1))%Z with (-23)%Z. rewrite pow2_neg.
    change (IZR (2 ^ 23)) with 8388608.
    replace (v / / 8388608) with (v * 8388608) by (field; lra).
    reflexivity.
  - rewrite Rabs_right by lra. change (0 + 1)%Z with 1%Z.
    cbn [powerRZ]. simpl. lra.
Qed.

Lemma roundFloat32_unit (v : R) : 0 <= v <= 1 -> 0 <= roundFloat32 v <= 1.
Proof.
  intros Hv. destruct (Rlt_dec v 1) as [Hlt|Hge].
  - apply round_unit; [lia|lia|lra].
  - replace v with 1 by lra. rewrite roundFloat32_binade_1 by lra.
    rewrite (nearestEven_near _ 8388608) by lra. lra.
Qed.

(** The largest value the store keeps of a number up to 1.1 is the
    binary32 number next to 1.1, [9227469 / 2 ^ 23]. *)
Lemma roundFloat32_tinted (v : R) :
  0 <= v <= 1.1 -> 0 <= roundFloat32 v <= 9227469 / 8388608.
Proof.
  intros Hv. destruct (Rlt_dec v 1) as [Hlt|Hge].
  - pose proof (round_unit 24 (-126) v ltac:(lia) ltac:(lia) ltac:(lra)) as Hr.
    fold (roundFloat32 v) in Hr. lra.
  - rewrite roundFloat32_binade_1 by lra.
    assert (Hlo : (8388608 <= nearestEven (v * 8388608))%Z)
      by (apply nearestEven_ge; lra).
    assert (Hhi : (nearestEven (v * 8388608) <= 9227469)%Z)
      by (apply nearestEven_le; lra).
    apply IZR_le in Hlo, Hhi. lra.
Qed.

Lemma roundFloat32_1_1 : roundFloat32 1.1 = 9227469 / 8388608.
Proof.
  rewrite roundFloat32_binade_1 by lra.
  rewrite (nearestEven_near _ 9227469) by lra. reflexivity.
Qed.

End IeeeFacts.

(** ** Noise primitives *)

Module ShoreFacts.
Import Js JsFacts Shore.
Import Ieee IeeeFacts.

Lemma Math_floor_spec (x : R) : Math_floor x <= x < Math_floor x + 1.
Proof.
  unfold Math_floor. destruct (base_Int_part x) as [Hle Hgt]. lra.
Qed.

Lemma Math_floor_0 : Math_floor 0 = 0.
Proof.
  unfold Math_floor. rewrite <- (Int_part_spec 0 0%Z); [reflexivity|lra].
Qed.

(** The sine of a small positive number is just below the number. *)
Lemma sin_small (a : R) : 0 < a <= 1 -> a - a * a * a / 6 <= sin a < a.
Proof.
  intros Ha. split; [|apply sin_lt_x; lra].
  pose proof PI2_1 as Hpi.
  destruct (sin_bound a 0 ltac:(lra) ltac:(lra)) as [Hlb _].
  unfold sin_approx, sin_term in Hlb. simpl in Hlb. lra.
Qed.

(** The correctly rounded sine of [- 2 ^ -70] is [- 2 ^ -70]. *)
Lemma Math_sin_tiny :
  ShoreDouble.Math_sin (- powerRZ 2 (-70)) = - powerRZ 2 (-70).
Proof.
  unfold ShoreDouble.Math_sin, roundDouble. rewrite sin_neg.
  rewrite pow2_neg.
  change (IZR (2 ^ 70)) with 1180591620717411303424.
  set (a := / 1180591620717411303424).
  assert (Ha : 0 < a <= 1) by (unfold a; lra).
  pose proof (sin_small a Ha) as Ht.
  set (t := sin a) in *.
  assert (Hcube : a * a * a / 6 <= a / 2) by (unfold a; lra).
  rewrite (round_binade 53 (-1022) (- t) (-71)); [| |lia].
  - change (-71 - (53 - 1))%Z with (-123)%Z. rewrite pow2_neg.
    change (IZR (2 ^ 123)) with 10633823966279326983230456482242756608.
    rewrite (nearestEven_near _ (-9007199254740992)).
    + unfold a. lra.
    + unfold a in *. lra.
  - rewrite Rabs_Ropp, Rabs_right by lra.
    change (-71 + 1)%Z with (-70)%Z. rewrite !pow2_neg.
    change (IZR (2 ^ 71)) with 2361183241434822606848.
    change (IZR (2 ^ 70)) with 1180591620717411303424.
    fold a. unfold a in *. lra.
Qed.

(** C10, as the code has it.  [seededRandom] returns [sin seed * 10000]
    minus its floor, the integer [n] with [n <= sin seed * 10000 < n + 1].
    Computed exactly the result lies in [0, 1).  The doubles round the
    subtraction: what the function returns lies in [0, 1], whatever sine
    the engine has, and it is below 1 unless the exact difference is
    within [2 ^ -53] of 1.  [seededRandom 0 = 0] either way. *)
Theorem seededRandom_fractional_part :
  (forall seed : R,
     (exists n : Z,
        IZR n <= sin seed * 10000 < IZR n + 1 /\
        seededRandom seed = sin seed * 10000 - IZR n) /\
     0 <= seededRandom seed < 1 /\
     (forall Math_sin : R -> R,
        0 <= ShoreDouble.seededRandom Math_sin seed <= 1 /\
        (let x := roundDouble (Math_sin seed * 10000) in
         x - Math_floor x <= 1 - / 9007199254740992 ->
         ShoreDouble.seededRandom Math_sin seed < 1))) /\
  seededRandom 0 = 0 /\
  ShoreDouble.seededRandom ShoreDouble.Math_sin 0 = 0.
Proof.
  split; [|split].
  - intros seed. pose proof (Math_floor_spec (sin seed * 10000)) as Hfl.
    unfold seededRandom. split; [|split].
    + exists (Int_part (sin seed * 10000)). unfold Math_floor in *. split.
      * exact Hfl.
      * reflexivity.
    + cbv zeta. lra.
    + intros Math_sin. unfold ShoreDouble.seededRandom. cbv zeta.
      set (x := roundDouble (Math_sin seed * 10000)).
      pose proof (Math_floor_spec x) as Hx. split.
      * unfold roundDouble at 1 2. apply round_unit; [lia|lia|lra].
      * intros Hlast. apply roundDouble_below_1. lra.
  - unfold seededRandom. cbv zeta. rewrite sin_0.
    replace (0 * 10000) with 0 by lra. rewrite Math_floor_0. lra.
  - unfold ShoreDouble.seededRandom, ShoreDouble.Math_sin, roundDouble. cbv zeta.
    rewrite sin_0, round_0, Rmult_0_l, round_0, Math_floor_0.
    replace (0 - 0) with 0 by lra. apply round_0.
Qed.

(** At the seed 0 the product is 0, far from the last step below 1. *)
Lemma seededRandom_fractional_part_witness :
  ShoreDouble.seededRandom ShoreDouble.Math_sin 0 < 1.
Proof.
  destruct seededRandom_fractional_part as [Hall _].
  destruct (Hall 0) as (_ & _ & Hdouble).
  apply (Hdouble ShoreDouble.Math_sin). cbv zeta.
  unfold ShoreDouble.Math_sin, roundDouble.
  rewrite sin_0, round_0, Rmult_0_l, round_0, Math_floor_0. lra.
Defined.

(** C10, counterexample.  At the seed [- 2 ^ -70] the sine is the seed, the
    product [- 10000 * 2 ^ -70] is exact, its floor is [-1], and the sum
    [1 - 10000 * 2 ^ -70] is nearer to 1 than to the double below 1: the
    function returns exactly 1. *)
Lemma seededRandom_counterexample :
  ShoreDouble.seededRandom ShoreDouble.Math_sin (- powerRZ 2 (-70)) = 1 /\
  ~ (ShoreDouble.seededRandom ShoreDouble.Math_sin (- powerRZ 2 (-70)) < 1).
Proof.
  assert (Hone : ShoreDouble.seededRandom ShoreDouble.Math_sin
                   (- powerRZ 2 (-70)) = 1).
  { unfold ShoreDouble.seededRandom. cbv zeta. rewrite Math_sin_tiny.
    rewrite pow2_neg.
    change (IZR (2 ^ 70)) with 1180591620717411303424.
    set (a := / 1180591620717411303424).
    assert (Hx : roundDouble (- a * 10000) = - a * 10000).
    { unfold roundDouble.
      rewrite (round_binade 53 (-1022) (- a * 10000) (-57)); [| |lia].
      - change (-57 - (53 - 1))%Z with (-109)%Z. rewrite pow2_neg.
        change (IZR (2 ^ 109)) with 649037107316853453566312041152512.
        rewrite (nearestEven_near _ (-5497558138880000)).
        + unfold a. lra.
        + unfold a. lra.
      - replace (- a * 10000) with (- (a * 10000)) by lra.
        rewrite Rabs_Ropp, Rabs_right by (unfold a; lra).
        change (-57 + 1)%Z with (-56)%Z. rewrite !pow2_neg.
        change (IZR (2 ^ 57)) with 144115188075855872.
        change (IZR (2 ^ 56)) with 72057594037927936.
        unfold a. lra. }
    rewrite Hx.
    assert (Hfloor : Math_floor (- a * 10000) = -1).
    { unfold Math_floor. f_equal. symmetry. apply Int_part_spec.
      unfold a. lra. }
    rewrite Hfloor. unfold roundDouble.
    rewrite (round_binade 53 (-1022) (- a * 10000 - -1) (-1)); [| |lia].
    - change (-1 - (53 - 1))%Z with (-53)%Z. rewrite pow2_neg.
      change (IZR (2 ^ 53)) with 9007199254740992.
      rewrite (nearestEven_near _ 9007199254740992).
      + lra.
      + unfold a. lra.
    - rewrite Rabs_right by (unfold a; lra).
      change (-1 + 1)%Z with 0%Z. rewrite pow2_neg.
      change (IZR (2 ^ 1)) with 2. cbn [powerRZ]. unfold a. lra. }
  split; [exact Hone|]. rewrite Hone. lra.
Qed.

(** A product of a sine and a cosine stays within [-1, 1]. *)
Lemma sin_cos_bound (a b : R) : -1 <= sin a * cos b <= 1.
Proof.
  pose proof (SIN_bound a). pose proof (COS_bound b). split; nra.
Qed.

Lemma noise3D_bound (x y z : R) : -1.75 <= noise3D x y z <= 1.75.
Proof.
  unfold noise3D.
  pose proof (sin_cos_bound (x * 0.5 + y * 0.3) (z * 0.4 + x * 0.2)).
  pose proof (sin_cos_bound (y * 0.7 - z * 0.5) (x * 0.6)).
  pose proof (sin_cos_bound (x * 1.3 + z * 1.1) (y * 0.9)).
  lra.
Qed.

Lemma fbm_octave_inv (x y : R) (i : nat) (a : FbmAcc) :
  fbm_inv a ->
  fbm_inv (fbm_octave x y i a) /\ 0 < maxValue (fbm_octave x y i a).
Proof.
  intros (Hamp & Hmax & Hval). unfold fbm_inv, fbm_octave. simpl.
  pose proof (noise3D_bound (x * frequency a) (y * frequency a) (INR i * 100)) as Hn.
  repeat split; nra.
Qed.

Lemma fbm_loop_inv (x y : R) (n i : nat) (a : FbmAcc) :
  fbm_inv a -> fbm_inv (fbm_loop x y n i a).
Proof.
  induction n as [|n IH] in i, a |- *; simpl; intros Ha; [exact Ha|].
  apply IH. apply fbm_octave_inv. exact Ha.
Qed.

Lemma fbm_loop_maxValue (x y : R) (n i : nat) (a : FbmAcc) :
  fbm_inv a -> 0 < maxValue a -> 0 < maxValue (fbm_loop x y n i a).
Proof.
  induction n as [|n IH] in i, a |- *; simpl; intros Ha Hpos; [exact Hpos|].
  destruct (fbm_octave_inv x y i a Ha) as [Hinv Hm]. apply IH; assumption.
Qed.

(** With at least one octave, [fbm] stays within the range of [noise3D]. *)
Lemma fbm_bound (x y : R) (octaves : nat) :
  (0 < octaves)%nat -> -1.75 <= fbm x y octaves <= 1.75.
Proof.
  intros Hoct. destruct octaves as [|n]; [lia|]. unfold fbm. simpl fbm_loop.
  set (a0 := {| value := 0; amplitude := 1; frequency := 1; maxValue := 0 |}).
  assert (Ha0 : fbm_inv a0) by (unfold fbm_inv, a0; simpl; lra).
  destruct (fbm_octave_inv x y 0 a0 Ha0) as [H1 Hm1].
  pose proof (fbm_loop_inv x y n 1 _ H1) as (_ & _ & Hval).
  pose proof (fbm_loop_maxValue x y n 1 _ H1 Hm1) as Hpos.
  set (a := fbm_loop x y n 1 (fbm_octave x y 0 a0)) in *.
  cbv zeta.
  assert (Hq : value a / maxValue a * maxValue a = value a) by (field; lra).
  split; nra.
Qed.

End ShoreFacts.

(** ** Terrain synthesis *)

Module TerrainFacts.
Import Js JsFacts Shore ShoreFacts.

(** *** The rock loop *)

Lemma rockVertex_length sd fb sx sz (i : nat) (a : Float32Array) :
  length (rockVertex sd fb sx sz i a) = length a.
Proof. unfold rockVertex. cbv zeta. rewrite !length_set. reflexivity. Qed.

Lemma rockVertex_frame sd fb sx sz (i : nat) (a : Float32Array) (j : nat) :
  (j < i \/ i + 3 <= j)%nat -> rockVertex sd fb sx sz i a !! j = a !! j.
Proof. intros Hj. unfold rockVertex. stores_elsewhere. Qed.

Lemma rockVertex_local sd fb sx sz (i : nat) (a a' : Float32Array) (j : nat) :
  length a = length a' ->
  (forall j', (i <= j' < i + 3)%nat -> a !! j' = a' !! j') ->
  (i <= j < i + 3)%nat ->
  rockVertex sd fb sx sz i a !! j = rockVertex sd fb sx sz i a' !! j.
Proof.
  intros Hlen Hloc Hj. unfold rockVertex. cbv zeta.
  rewrite (get_ext a a' i) by (apply Hloc; lia).
  rewrite (get_ext a a' (i + 1)) by (apply Hloc; lia).
  rewrite (get_ext a a' (i + 2)) by (apply Hloc; lia).
  repeat (apply set_lookup_cong; [rewrite ?length_set; exact Hlen|]).
  apply Hloc. exact Hj.
Qed.

(** The height of vertex [k] after the loop, from the vertex before it. *)
Lemma displaceRock_y sd fb sx sz (a : Float32Array) (k : nat) :
  (3 * k + 2 < length a)%nat ->
  let x := get a (3 * k) in
  let y := get a (3 * k + 1) in
  let z := get a (3 * k + 2) in
  get (displaceRock sd fb sx sz a) (3 * k + 1) =
  y * (if Rlt_dec y 0 then fb else 1.0) *
  (1 + fbm (x * 0.08 + sd) (y * 0.1 + z * 0.08 + sd) 3 * 0.3) * 0.85.
Proof.
  intros Hk x y z. apply get_lookup. unfold displaceRock.
  rewrite (for_stride3_lookup _
             (fun k => rockVertex_length sd fb sx sz (3 * k))
             (fun k => rockVertex_frame sd fb sx sz (3 * k))
             (fun k => rockVertex_local sd fb sx sz (3 * k))).
  rewrite (triple_div k 1) by lia.
  unfold rockVertex, set. cbv zeta.
  rewrite list_lookup_insert_ne by lia.
  rewrite list_lookup_insert_eq by (rewrite length_insert; lia).
  reflexivity.
Qed.

(** *** The cliff loop *)

Lemma cliffVertex_length ht sd da (i : nat) (a : Float32Array) :
  length (cliffVertex ht sd da i a) = length a.
Proof. unfold cliffVertex. cbv zeta. apply length_set. Qed.

Lemma cliffVertex_frame ht sd da (i : nat) (a : Float32Array) (j : nat) :
  (j < i \/ i + 3 <= j)%nat -> cliffVertex ht sd da i a !! j = a !! j.
Proof. intros Hj. unfold cliffVertex. stores_elsewhere. Qed.

Lemma cliffVertex_local ht sd da (i : nat) (a a' : Float32Array) (j : nat) :
  length a = length a' ->
  (forall j', (i <= j' < i + 3)%nat -> a !! j' = a' !! j') ->
  (i <= j < i + 3)%nat ->
  cliffVertex ht sd da i a !! j = cliffVertex ht sd da i a' !! j.
Proof.
  intros Hlen Hloc Hj. unfold cliffVertex. cbv zeta.
  rewrite (get_ext a a' i) by (apply Hloc; lia).
  rewrite (get_ext a a' (i + 1)) by (apply Hloc; lia).
  apply set_lookup_cong; [exact Hlen|]. apply Hloc. exact Hj.
Qed.

(** The depth of vertex [k] after the loop is computed from its x and y,
    which the loop leaves alone. *)
Lemma displaceCliff_xy ht sd da (a : Float32Array) (j : nat) :
  (j mod 3 <> 2)%nat -> displaceCliff ht sd da a !! j = a !! j.
Proof.
  intros Hj. unfold displaceCliff.
  rewrite (for_stride3_lookup _
             (fun k => cliffVertex_length ht sd da (3 * k))
             (fun k => cliffVertex_frame ht sd da (3 * k))
             (fun k => cliffVertex_local ht sd da (3 * k))).
  unfold cliffVertex, set. cbv zeta. apply list_lookup_insert_ne.
  pose proof (Nat.div_mod_eq j 3). lia.
Qed.

Lemma displaceCliff_z ht sd da (a : Float32Array) (k : nat) :
  (3 * k + 2 < length a)%nat ->
  exists depth,
    displaceCliff ht sd da a !! (3 * k + 2)%nat = Some depth /\
    cliffVertex ht sd da (3 * k) a !! (3 * k + 2)%nat = Some depth.
Proof.
  intros Hk. unfold displaceCliff.
  rewrite (for_stride3_lookup _
             (fun k => cliffVertex_length ht sd da (3 * k))
             (fun k => cliffVertex_frame ht sd da (3 * k))
             (fun k => cliffVertex_local ht sd da (3 * k))).
  rewrite (triple_div k 2) by lia.
  unfold cliffVertex, set. cbv zeta.
  eexists. split; apply list_lookup_insert_eq; exact Hk.
Qed.

(** *** The heap of geometries *)

Lemma alloc_update (h : Heap) (contents result : Float32Array) :
  <[length h := result]> (h ++ [contents]) = h ++ [result].
Proof.
  rewrite insert_app_r_alt by lia. rewrite Nat.sub_diag. reflexivity.
Qed.

Lemma deref_alloc (h : Heap) (contents : Float32Array) :
  deref (h ++ [contents]) (length h) = contents.
Proof. unfold deref. rewrite list_lookup_middle by reflexivity. reflexivity. Qed.

(** A call allocates one array, fills it, and touches nothing else. *)
Lemma createRockGeometry_heap (Ico : R -> R -> Float32Array)
    (size det sd fb sx sz : R) (h : Heap) :
  createRockGeometry Ico size det sd fb sx sz h =
  (length h, h ++ [displaceRock sd fb sx sz (Ico size det)]).
Proof.
  unfold createRockGeometry, alloc. rewrite deref_alloc, alloc_update.
  reflexivity.
Qed.

Lemma createCliffGeometry_heap (Plane : R -> R -> R -> R -> Float32Array)
    (width height segX segY sd da : R) (h : Heap) :
  createCliffGeometry Plane width height segX segY sd da h =
  (length h, h ++ [displaceCliff height sd da (Plane width height segX segY)]).
Proof.
  unfold createCliffGeometry, alloc. rewrite deref_alloc, alloc_update.
  reflexivity.
Qed.

(** *** Rock grounding *)

(** The vertical factor applied to a lower-hemisphere vertex is positive and
    below 1 as long as the flattening argument is in (0, 0.77]. *)
Lemma flatten_factor_bound (fb d : R) :
  0 < fb <= 0.77 -> 0.475 <= d <= 1.525 -> 0 < fb * d * 0.85 < 1.
Proof. intros Hfb Hd. split; nra. Qed.

Lemma rockGeometryCalls_flatten :
  Forall (fun args => 0 < flattenBottom args <= 0.5) rockGeometryCalls.
Proof.
  unfold rockGeometryCalls, fortConnectorRocks, fortMainRock, fortUpperRock, rock.
  repeat constructor; simpl; lra.
Qed.

Lemma displaceRock_length sd fb sx sz (a : Float32Array) :
  length (displaceRock sd fb sx sz a) = length a.
Proof.
  unfold displaceRock.
  apply (for_stride3_length _ (fun k => rockVertex_length sd fb sx sz (3 * k))).
Qed.

(** C8. For every [createRockGeometry] call of the program, whatever
    icosahedron three.js supplies and wherever on the heap the geometry
    lands, the call leaves at the address it returns an array of the size
    of the icosahedron, and every vertex whose height [y] was negative
    before the displacement holds a new height there that is strictly
    closer to the ground plane: it is [y] times a factor in (0, 1), so
    still negative and of smaller absolute value. *)
Theorem rock_grounding (IcosahedronGeometry : R -> R -> Float32Array)
    (args : RockArgs) (h : Heap) (k : nat) (y : R) :
  In args rockGeometryCalls ->
  let base := IcosahedronGeometry (baseSize args) (detail args) in
  let made :=
    createRockGeometry IcosahedronGeometry (baseSize args) (detail args)
      (seed args) (flattenBottom args) (stretchX args) (stretchZ args) h in
  (3 * k + 2 < length base)%nat ->
  base !! (3 * k + 1)%nat = Some y ->
  y < 0 ->
  exists rock y',
    snd made !! fst made = Some rock /\
    length rock = length base /\
    rock !! (3 * k + 1)%nat = Some y' /\
    y < y' < 0 /\
    Rabs y' < Rabs y.
Proof.
  intros Hin base made Hk Hy Hneg.
  pose proof (proj1 (List.Forall_forall _ _) rockGeometryCalls_flatten args Hin) as Hfb.
  simpl in Hfb.
  unfold made. rewrite createRockGeometry_heap. cbn [fst snd]. fold base.
  set (rock := displaceRock (seed args) (flattenBottom args) (stretchX args)
                 (stretchZ args) base).
  assert (Hlen : length rock = length base) by apply displaceRock_length.
  exists rock, (get rock (3 * k + 1)).
  split; [apply list_lookup_middle; reflexivity|].
  split; [exact Hlen|].
  split; [apply lookup_get; lia|].
  unfold rock. rewrite (displaceRock_y _ _ _ _ base k Hk). cbv zeta.
  rewrite (get_lookup base (3 * k + 1) y Hy).
  destruct (Rlt_dec y 0) as [_|Hn]; [|lra].
  set (d := 1 + fbm _ _ 3 * 0.3).
  assert (Hd : 0.475 <= d <= 1.525).
  { unfold d. match goal with |- context [fbm ?u ?v 3] =>
      pose proof (fbm_bound u v 3 ltac:(lia)) end. lra. }
  pose proof (flatten_factor_bound (flattenBottom args) d ltac:(lra) Hd) as Hf.
  assert (Hy' : y < y * flattenBottom args * d * 0.85 < 0) by (split; nra).
  split; [exact Hy'|].
  rewrite (Rabs_left y) by exact Hneg.
  rewrite Rabs_left by lra. lra.
Qed.

(** The first vertex of the main fort rock, were it at (0, -35, 0). *)
Lemma rock_grounding_witness :
  let Ico := fun (_ _ : R) => [0; -35; 0] in
  let made := createRockGeometry Ico 35 4 400 0.3 1.4 1.2 [] in
  exists rock y',
    snd made !! fst made = Some rock /\
    length rock = length (Ico 35 4) /\
    rock !! 1%nat = Some y' /\
    -35 < y' < 0 /\
    Rabs y' < Rabs (-35).
Proof.
  intros Ico made.
  apply (rock_grounding Ico fortMainRock [] 0 (-35)).
  - left. reflexivity.
  - simpl. lia.
  - reflexivity.
  - lra.
Defined.

(** C9. Terrain generation is deterministic.  Whatever the heap at the time
    of the call, [createCliffGeometry] and [createRockGeometry] leave at the
    address they return one and the same position array for one and the same
    arguments; and regenerating a feature allocates a new array, leaving the
    array of the earlier call as it was. *)
Theorem terrain_generation_deterministic
    (PlaneGeometry : R -> R -> R -> R -> Float32Array)
    (IcosahedronGeometry : R -> R -> Float32Array) :
  (forall width height segX segY seed displaceAmount (h1 h2 : Heap),
     let run1 := createCliffGeometry PlaneGeometry width height segX segY seed displaceAmount h1 in
     let run2 := createCliffGeometry PlaneGeometry width height segX segY seed displaceAmount h2 in
     exists positions,
       snd run1 !! fst run1 = Some positions /\
       snd run2 !! fst run2 = Some positions) /\
  (forall baseSize detail seed flattenBottom stretchX stretchZ (h1 h2 : Heap),
     let run1 := createRockGeometry IcosahedronGeometry baseSize detail seed flattenBottom stretchX stretchZ h1 in
     let run2 := createRockGeometry IcosahedronGeometry baseSize detail seed flattenBottom stretchX stretchZ h2 in
     exists positions,
       snd run1 !! fst run1 = Some positions /\
       snd run2 !! fst run2 = Some positions) /\
  (forall width height segX segY seed displaceAmount (h : Heap),
     let run1 := createCliffGeometry PlaneGeometry width height segX segY seed displaceAmount h in
     let run2 := createCliffGeometry PlaneGeometry width height segX segY seed displaceAmount (snd run1) in
     fst run1 <> fst run2 /\
     snd run2 !! fst run1 = snd run1 !! fst run1 /\
     snd run2 !! fst run2 = snd run1 !! fst run1) /\
  (forall baseSize detail seed flattenBottom stretchX stretchZ (h : Heap),
     let run1 := createRockGeometry IcosahedronGeometry baseSize detail seed flattenBottom stretchX stretchZ h in
     let run2 := createRockGeometry IcosahedronGeometry baseSize detail seed flattenBottom stretchX stretchZ (snd run1) in
     fst run1 <> fst run2 /\
     snd run2 !! fst run1 = snd run1 !! fst run1 /\
     snd run2 !! fst run2 = snd run1 !! fst run1).
Proof.
  split; [|split; [|split]].
  - intros. subst run1 run2. rewrite !createCliffGeometry_heap. cbn [fst snd].
    eexists. split; apply list_lookup_middle; reflexivity.
  - intros. subst run1 run2. rewrite !createRockGeometry_heap. cbn [fst snd].
    eexists. split; apply list_lookup_middle; reflexivity.
  - intros. subst run1 run2. rewrite !createCliffGeometry_heap. cbn [fst snd].
    rewrite ?createCliffGeometry_heap. cbn [fst snd].
    rewrite length_app. cbn [length]. split; [lia|]. split.
    + apply lookup_app_l. rewrite length_app. cbn [length]. lia.
    + rewrite (list_lookup_middle (h ++ [_]) [] _ (length h + 1))
        by (rewrite length_app; reflexivity).
      rewrite list_lookup_middle by reflexivity. reflexivity.
  - intros. subst run1 run2. rewrite !createRockGeometry_heap. cbn [fst snd].
    rewrite ?createRockGeometry_heap. cbn [fst snd].
    rewrite length_app. cbn [length]. split; [lia|]. split.
    + apply lookup_app_l. rewrite length_app. cbn [length]. lia.
    + rewrite (list_lookup_middle (h ++ [_]) [] _ (length h + 1))
        by (rewrite length_app; reflexivity).
      rewrite list_lookup_middle by reflexivity. reflexivity.
Qed.

End TerrainFacts.

(** ** The wave model, vertex by vertex *)

Module WaveFacts.
Import Js JsFacts Config WaveMesh.

(** C2. The phase speed of the primary wave is the deep-water speed
    [g * wavePeriod / (2 * PI)] with [g = 9.8], times the [waveSpeed]
    multiplier and the damping constant 0.3; the secondary wave has the same
    speed with [secondaryWavePeriod]; and these are the speeds that multiply
    the time in the two phases. *)
Theorem phase_speed_gravity_period (config : WaveConfig) :
  primaryWaveSpeed config =
    (9.8 * wavePeriod config / (2 * PI)) * (waveSpeed config * 0.3) /\
  secondaryWaveSpeed config =
    (9.8 * secondaryWavePeriod config / (2 * PI)) * (waveSpeed config * 0.3) /\
  (forall x z time,
     primaryPhase config x z time =
     2 * PI / waveLength config *
     (sin (waveDirection config * PI / 180) * x +
      cos (waveDirection config * PI / 180) * z -
      (9.8 * wavePeriod config / (2 * PI)) * (waveSpeed config * 0.3) * time)) /\
  (forall x z time,
     secondaryPhase config x z time =
     2 * PI / (waveLength config * 0.6) *
     (sin (secondaryWaveDirection config * PI / 180) * x +
      cos (secondaryWaveDirection config * PI / 180) * z -
      (9.8 * secondaryWavePeriod config / (2 * PI)) * (waveSpeed config * 0.3) * time)).
Proof.
  unfold primaryPhase, secondaryPhase, primaryK, secondaryK, secondaryWaveLength,
    primarySin, primaryCos, secondarySin, secondaryCos, primaryDir, secondaryDir,
    primaryWaveSpeed, secondaryWaveSpeed, gravity.
  repeat split; intros; unfold Rdiv; ring.
Qed.

(** *** Foam *)

Lemma foamAmount_range (config : WaveConfig) (steepness totalHeight : R) :
  0 <= foamIntensity config <= 1 ->
  0 <= foamAmount config steepness totalHeight <= 1.
Proof.
  intros Hint. unfold foamAmount.
  destruct (Rgt_dec steepness (foamThreshold config)) as [Hgt|Hle]; [|lra].
  set (above := Rmin 1 ((steepness - foamThreshold config) * 2)).
  set (crestBonus := Rmax 0 (totalHeight / (waveHeight config * 2))).
  assert (Habove : 0 <= above <= 1).
  { unfold above. split; [apply Rmin_glb; lra|apply Rmin_l]. }
  assert (Hcrest : 0 <= crestBonus) by apply Rmax_l.
  split.
  - apply Rmin_glb; [lra|]. nra.
  - apply Rmin_l.
Qed.

Lemma foamAmount_below_threshold (config : WaveConfig) (steepness totalHeight : R) :
  steepness <= foamThreshold config ->
  foamAmount config steepness totalHeight = 0.
Proof.
  intros Hs. unfold foamAmount.
  destruct (Rgt_dec steepness (foamThreshold config)); [lra|reflexivity].
Qed.

(** Without foam intensity there is no foam, steep or not. *)
Lemma foamAmount_no_intensity (config : WaveConfig) (steepness totalHeight : R) :
  foamIntensity config = 0 ->
  foamAmount config steepness totalHeight = 0.
Proof.
  intros Hint. unfold foamAmount. rewrite Hint.
  destruct (Rgt_dec steepness (foamThreshold config)); [|reflexivity].
  rewrite !Rmult_0_r, Rmult_0_l, Rplus_0_r. apply Rmin_right. lra.
Qed.

(** C3. With [foamIntensity] in [0, 1] and a positive [waveHeight], the
    foam amount computed from any steepness and any total height lies in
    [0, 1], and it is 0 whenever the steepness does not exceed the
    threshold, [foamThreshold * 2].  (Over the reals the bound does not
    need [waveHeight] to be positive; in JavaScript that keeps the crest
    bonus a number.) *)
Theorem foamAmount_bounds (config : WaveConfig) (steepness totalHeight : R) :
  0 <= foamIntensity config <= 1 ->
  0 < waveHeight config ->
  0 <= foamAmount config steepness totalHeight <= 1 /\
  (steepness <= foamThreshold config ->
   foamAmount config steepness totalHeight = 0).
Proof.
  intros Hint Hwh. split.
  - apply foamAmount_range. exact Hint.
  - apply foamAmount_below_threshold.
Qed.

(** A steep crest under the default configuration. *)
Lemma foamAmount_bounds_witness :
  0 <= foamAmount Examples.moderate 2 4 <= 1.
Proof.
  apply (foamAmount_bounds Examples.moderate 2 4); simpl; lra.
Defined.

End WaveFacts.

(** ** The canyon profile *)

Module CanyonFacts.
Import Js JsFacts Config WaveMesh.

Lemma exp_nonpos_le_1 (t : R) : t <= 0 -> 0 < exp t <= 1.
Proof.
  intros Ht. split; [apply exp_pos|].
  destruct (Req_dec t 0) as [->|Hne].
  - rewrite exp_0. lra.
  - rewrite <- exp_0. left. apply exp_increasing. lra.
Qed.

Lemma exp_le_mono (s t : R) : s <= t -> exp s <= exp t.
Proof.
  intros Hst. destruct (Req_dec s t) as [->|Hne]; [lra|].
  left. apply exp_increasing. lra.
Qed.

(** [exp (- t)] is at most [1 / (1 + t)] for [t >= 0]. *)
Lemma exp_neg_bound (t : R) : 0 <= t -> exp (- t) * (1 + t) <= 1.
Proof.
  intros Ht. rewrite exp_Ropp.
  assert (Hexp : 1 + t <= exp t).
  { destruct (Req_dec t 0) as [->|Hne].
    - rewrite exp_0. lra.
    - left. apply exp_ineq1. exact Hne. }
  pose proof (exp_pos t) as Hpos.
  assert (Hinv : / exp t * exp t = 1) by (field; lra).
  pose proof (Rinv_0_lt_compat _ Hpos). nra.
Qed.

Lemma canyonFactor_exponent (config : WaveConfig) (x : R) :
  canyonFactor config x =
  1 + (canyonAmplification config - 1) * exp (canyonExponent config x).
Proof. reflexivity. Qed.

Lemma distFromCenter_nonneg (x : R) : 0 <= distFromCenter x.
Proof. unfold distFromCenter. pose proof (Rabs_pos x). lra. Qed.

Lemma canyonExponent_scaled (config : WaveConfig) (x : R) :
  0 < canyonFocusWidth config ->
  canyonExponent config x * (canyonFocusWidth config * canyonFocusWidth config) =
  - (distFromCenter x * distFromCenter x).
Proof. intros Hw. unfold canyonExponent. field. lra. Qed.

Lemma canyonExponent_nonpos (config : WaveConfig) (x : R) :
  0 < canyonFocusWidth config -> canyonExponent config x <= 0.
Proof.
  intros Hw. pose proof (canyonExponent_scaled config x Hw) as Hs.
  pose proof (distFromCenter_nonneg x).
  assert (Hww : 0 < canyonFocusWidth config * canyonFocusWidth config) by nra.
  assert (Hdd : 0 <= distFromCenter x * distFromCenter x) by nra.
  nra.
Qed.

Lemma canyonExponent_antitone (config : WaveConfig) (x1 x2 : R) :
  0 < canyonFocusWidth config -> Rabs x1 <= Rabs x2 ->
  canyonExponent config x2 <= canyonExponent config x1.
Proof.
  intros Hw Hx.
  pose proof (canyonExponent_scaled config x1 Hw) as H1.
  pose proof (canyonExponent_scaled config x2 Hw) as H2.
  assert (Hd : 0 <= distFromCenter x1 <= distFromCenter x2).
  { unfold distFromCenter. pose proof (Rabs_pos x1). lra. }
  assert (Hsq : distFromCenter x1 * distFromCenter x1 <=
                distFromCenter x2 * distFromCenter x2) by nra.
  assert (Hww : 0 < canyonFocusWidth config * canyonFocusWidth config) by nra.
  nra.
Qed.

Lemma canyonExponent_strict (config : WaveConfig) (x1 x2 : R) :
  0 < canyonFocusWidth config -> Rabs x1 < Rabs x2 ->
  canyonExponent config x2 < canyonExponent config x1.
Proof.
  intros Hw Hx.
  pose proof (canyonExponent_scaled config x1 Hw) as H1.
  pose proof (canyonExponent_scaled config x2 Hw) as H2.
  assert (Hd : 0 <= distFromCenter x1 < distFromCenter x2).
  { unfold distFromCenter. pose proof (Rabs_pos x1). lra. }
  assert (Hsq : distFromCenter x1 * distFromCenter x1 <
                distFromCenter x2 * distFromCenter x2) by nra.
  assert (Hww : 0 < canyonFocusWidth config * canyonFocusWidth config) by nra.
  nra.
Qed.

(** C5. With [canyonAmplification >= 1] and [canyonFocusWidth > 0] the
    canyon factor is exactly [canyonAmplification] at [x = 0], lies in
    [1, canyonAmplification] everywhere, does not increase when [|x|] grows
    (and strictly decreases when the amplification exceeds 1), and tends to
    1 as [|x|] tends to infinity.  The wireframe revision computes the same
    factor. *)
Theorem canyonFactor_profile (config : WaveConfig) :
  1 <= canyonAmplification config ->
  0 < canyonFocusWidth config ->
  canyonFactor config 0 = canyonAmplification config /\
  (forall x, 1 <= canyonFactor config x <= canyonAmplification config) /\
  (forall x1 x2, Rabs x1 <= Rabs x2 ->
     canyonFactor config x2 <= canyonFactor config x1) /\
  (1 < canyonAmplification config ->
   forall x1 x2, Rabs x1 < Rabs x2 ->
     canyonFactor config x2 < canyonFactor config x1) /\
  (forall eps, 0 < eps ->
     exists M, forall x, M < Rabs x -> Rabs (canyonFactor config x - 1) < eps) /\
  (forall x, WaveMeshWireframe.canyonFactor config x = canyonFactor config x).
Proof.
  intros HA Hw. split; [|split; [|split; [|split; [|split]]]].
  - unfold canyonFactor, distFromCenter. rewrite Rabs_R0.
    replace (- (0 / 150) * (0 / 150) /
             (canyonFocusWidth config * canyonFocusWidth config)) with 0
      by (field; lra).
    rewrite exp_0. lra.
  - intros x. rewrite canyonFactor_exponent.
    pose proof (exp_nonpos_le_1 _ (canyonExponent_nonpos config x Hw)). nra.
  - intros x1 x2 Hx. rewrite !canyonFactor_exponent.
    pose proof (exp_le_mono _ _ (canyonExponent_antitone config x1 x2 Hw Hx)).
    nra.
  - intros HA1 x1 x2 Hx. rewrite !canyonFactor_exponent.
    pose proof (exp_increasing _ _ (canyonExponent_strict config x1 x2 Hw Hx)).
    nra.
  - intros eps Heps.
    set (c := (canyonAmplification config - 1) / eps).
    assert (Hc : 0 <= c).
    { unfold c. apply Rmult_le_pos; [lra|]. left. apply Rinv_0_lt_compat. lra. }
    assert (Hceps : c * eps = canyonAmplification config - 1)
      by (unfold c; field; lra).
    exists (150 * canyonFocusWidth config * (1 + c)). intros x Hx.
    rewrite canyonFactor_exponent.
    set (t := - canyonExponent config x).
    assert (Ht : c < t).
    { pose proof (canyonExponent_scaled config x Hw) as Hs.
      assert (Hd : canyonFocusWidth config * (1 + c) < distFromCenter x)
        by (unfold distFromCenter; lra).
      assert (Hww : 0 < canyonFocusWidth config * canyonFocusWidth config) by nra.
      assert (Hsq : canyonFocusWidth config * canyonFocusWidth config * (1 + c)
                    < distFromCenter x * distFromCenter x).
      { assert (0 < canyonFocusWidth config * (1 + c)) by nra.
        assert (canyonFocusWidth config * (1 + c) * (canyonFocusWidth config * (1 + c))
                < distFromCenter x * distFromCenter x) by nra.
        nra. }
      unfold t. nra. }
    replace (canyonExponent config x) with (- t) by (unfold t; lra).
    pose proof (exp_neg_bound t ltac:(lra)) as Hb.
    pose proof (exp_pos (- t)) as Hpos.
    replace (1 + (canyonAmplification config - 1) * exp (- t) - 1)
      with ((canyonAmplification config - 1) * exp (- t)) by ring.
    rewrite Rabs_right by (apply Rle_ge; nra).
    rewrite <- Hceps.
    assert (Hec : exp (- t) * c < 1) by nra.
    nra.
  - intros x. reflexivity.
Qed.

Lemma canyonFactor_profile_witness :
  canyonFactor Examples.moderate 0 = 2.0.
Proof.
  apply (canyonFactor_profile Examples.moderate); simpl; lra.
Defined.

End CanyonFacts.

(** ** The frame callback and its arrays *)

Module MeshFacts.
Import Js JsFacts Config WaveMesh.

Lemma updateVertex_split (config : WaveConfig) (bc : Color) (time : R)
    (orig : Float32Array) (i : nat) (s : Float32Array * Float32Array) :
  updateVertex config bc time orig i s =
  (writeHeight config time orig i (fst s), writeColors config bc time orig i (snd s)).
Proof. destruct s as [p c]. reflexivity. Qed.

(** *** The height store *)

Lemma writeHeight_length config time orig (i : nat) (a : Float32Array) :
  length (writeHeight config time orig i a) = length a.
Proof. unfold writeHeight. cbv zeta. apply length_set. Qed.

Lemma writeHeight_frame config time orig (i : nat) (a : Float32Array) (j : nat) :
  (j < i \/ i + 3 <= j)%nat -> writeHeight config time orig i a !! j = a !! j.
Proof. intros Hj. unfold writeHeight. stores_elsewhere. Qed.

Lemma writeHeight_local config time orig (i : nat) (a a' : Float32Array) (j : nat) :
  length a = length a' ->
  (forall j', (i <= j' < i + 3)%nat -> a !! j' = a' !! j') ->
  (i <= j < i + 3)%nat ->
  writeHeight config time orig i a !! j = writeHeight config time orig i a' !! j.
Proof.
  intros Hlen Hloc Hj. unfold writeHeight. cbv zeta.
  apply set_lookup_cong; [exact Hlen|]. apply Hloc. exact Hj.
Qed.

Lemma heights_lookup config time orig (a : Float32Array) (j : nat) :
  heights config time orig a !! j =
  writeHeight config time orig (3 * (j / 3)) a !! j.
Proof.
  unfold heights.
  apply (for_stride3_lookup _
           (fun k => writeHeight_length config time orig (3 * k))
           (fun k => writeHeight_frame config time orig (3 * k))
           (fun k => writeHeight_local config time orig (3 * k))).
Qed.

Lemma heights_length config time orig (a : Float32Array) :
  length (heights config time orig a) = length a.
Proof.
  unfold heights.
  apply (for_stride3_length _
           (fun k => writeHeight_length config time orig (3 * k))).
Qed.

(** The y entry of vertex [k] is the total height at its grid position. *)
Lemma heights_y config time orig (a : Float32Array) (k : nat) :
  (3 * k + 1 < length a)%nat ->
  heights config time orig a !! (3 * k + 1)%nat =
  Some (totalHeight config (get orig (3 * k)) (get orig (3 * k + 2)) time).
Proof.
  intros Hk. rewrite heights_lookup, (triple_div k 1) by lia.
  unfold writeHeight, set. cbv zeta.
  apply list_lookup_insert_eq. exact Hk.
Qed.

(** The x and z entries are not written. *)
Lemma heights_xz config time orig (a : Float32Array) (j : nat) :
  (j mod 3 <> 1)%nat -> heights config time orig a !! j = a !! j.
Proof.
  intros Hj. rewrite heights_lookup. unfold writeHeight, set. cbv zeta.
  apply list_lookup_insert_ne.
  pose proof (Nat.div_mod_eq j 3). lia.
Qed.

(** *** The colour stores *)

Lemma vertexIndex_triple (k : nat) : ((3 * k / 3) * 3 = 3 * k)%nat.
Proof. replace (3 * k)%nat with (3 * k + 0)%nat at 1 by lia. rewrite triple_div; lia. Qed.

Lemma writeColors_length config bc time orig (i : nat) (a : Float32Array) :
  length (writeColors config bc time orig i a) = length a.
Proof. unfold writeColors. cbv zeta. rewrite !length_set. reflexivity. Qed.

Lemma writeColors_frame config bc time orig (k : nat) (a : Float32Array) (j : nat) :
  (j < 3 * k \/ 3 * k + 3 <= j)%nat ->
  writeColors config bc time orig (3 * k) a !! j = a !! j.
Proof.
  intros Hj. unfold writeColors, set. cbv zeta. rewrite vertexIndex_triple.
  rewrite !list_lookup_insert_ne by lia. reflexivity.
Qed.

Lemma writeColors_local config bc time orig (k : nat) (a a' : Float32Array) (j : nat) :
  length a = length a' ->
  (forall j', (3 * k <= j' < 3 * k + 3)%nat -> a !! j' = a' !! j') ->
  (3 * k <= j < 3 * k + 3)%nat ->
  writeColors config bc time orig (3 * k) a !! j =
  writeColors config bc time orig (3 * k) a' !! j.
Proof.
  intros Hlen Hloc Hj. unfold writeColors. cbv zeta.
  repeat (apply set_lookup_cong; [rewrite ?length_set; exact Hlen|]).
  apply Hloc. exact Hj.
Qed.

Lemma colours_lookup config bc time orig (a : Float32Array) (j : nat) :
  colours config bc time orig a !! j =
  writeColors config bc time orig (3 * (j / 3)) a !! j.
Proof.
  unfold colours.
  apply (for_stride3_lookup _
           (fun k => writeColors_length config bc time orig (3 * k))
           (writeColors_frame config bc time orig)
           (writeColors_local config bc time orig)).
Qed.

Lemma colours_length config bc time orig (a : Float32Array) :
  length (colours config bc time orig a) = length a.
Proof.
  unfold colours.
  apply (for_stride3_length _
           (fun k => writeColors_length config bc time orig (3 * k))).
Qed.

Lemma colours_channel config bc time orig (a : Float32Array) (k d : nat) :
  (d < 3)%nat -> (3 * k + d < length a)%nat ->
  colours config bc time orig a !! (3 * k + d)%nat =
  Some (blend (channel config bc d)
          (vertexFoam config (get orig (3 * k)) (get orig (3 * k + 2)) time)).
Proof.
  intros Hd Hk. rewrite colours_lookup, (triple_div k d) by lia.
  unfold writeColors, set. cbv zeta. rewrite vertexIndex_triple.
  destruct d as [|[|[|d]]]; [| | |lia]; cbn [channel].
  - rewrite !list_lookup_insert_ne by lia. rewrite Nat.add_0_r.
    apply list_lookup_insert_eq. lia.
  - rewrite list_lookup_insert_ne by lia.
    apply list_lookup_insert_eq. rewrite length_insert. lia.
  - apply list_lookup_insert_eq. rewrite !length_insert. lia.
Qed.

(** *** The callback *)

Section Callback.

Variable THREE_Color : string -> Color.

(** With the mesh attached, a frame advances the clock and runs the two
    loops over the arrays of the mesh. *)
Lemma useFrame_mounted (config : WaveConfig) (delta : R) (st : State)
    (geo : Geometry) :
  mounted st geo ->
  useFrame THREE_Color config delta st =
  {| timeRef := clock config delta st;
     meshRef := Some
       {| position := heights config (clock config delta st)
                        (originalPositions st) (position geo);
          color := colours config (baseColor THREE_Color config)
                     (clock config delta st) (originalPositions st) (color geo) |};
     originalPositions := originalPositions st |}.
Proof.
  intros (Hmesh & Hpos & Hcol). unfold useFrame. rewrite Hmesh.
  fold (clock config delta st).
  rewrite (for_stride3_ext _ _ _ _ (updateVertex_split config _ _ _)).
  rewrite for_stride3_pair. unfold heights, colours.
  rewrite Hcol, <- Hpos. reflexivity.
Qed.

Lemma useFrame_unmounted (config : WaveConfig) (delta : R) (st : State) :
  meshRef st = None -> useFrame THREE_Color config delta st = st.
Proof. intros Hmesh. unfold useFrame. rewrite Hmesh. reflexivity. Qed.

Lemma useFrame_keeps_mounted (config : WaveConfig) (delta : R) (st : State)
    (geo : Geometry) :
  mounted st geo ->
  exists geo', mounted (useFrame THREE_Color config delta st) geo'.
Proof.
  intros Hm. rewrite (useFrame_mounted config delta st geo Hm).
  destruct Hm as (Hmesh & Hpos & Hcol).
  eexists. split; [reflexivity|].
  cbn [position color originalPositions].
  rewrite heights_length, colours_length. split; assumption.
Qed.

End Callback.

Lemma mount_mounted (grid : Float32Array) :
  mounted (mount grid) (newGeometry grid).
Proof.
  unfold mounted, mount, newGeometry. cbn. rewrite repeat_length. repeat split.
Qed.

End MeshFacts.

(** ** The wireframe revision *)

Module WireframeFacts.
Import Js JsFacts Config WaveMeshWireframe.

Lemma wireframe_updateVertex_length config time orig (i : nat) (a : Float32Array) :
  length (updateVertex config time orig i a) = length a.
Proof. unfold updateVertex. cbv zeta. apply length_set. Qed.

Lemma wireframe_updateVertex_frame config time orig (i : nat) (a : Float32Array) (j : nat) :
  (j < i \/ i + 3 <= j)%nat -> updateVertex config time orig i a !! j = a !! j.
Proof. intros Hj. unfold updateVertex. stores_elsewhere. Qed.

Lemma wireframe_updateVertex_local config time orig (i : nat) (a a' : Float32Array) (j : nat) :
  length a = length a' ->
  (forall j', (i <= j' < i + 3)%nat -> a !! j' = a' !! j') ->
  (i <= j < i + 3)%nat ->
  updateVertex config time orig i a !! j = updateVertex config time orig i a' !! j.
Proof.
  intros Hlen Hloc Hj. unfold updateVertex. cbv zeta.
  apply set_lookup_cong; [exact Hlen|]. apply Hloc. exact Hj.
Qed.

(** The y entry of vertex [k] after the loop. *)
Lemma wireframe_loop_y config time orig (a : Float32Array) (k : nat) :
  (3 * k + 1 < length a)%nat ->
  let x := get orig (3 * k) in
  let z := get orig (3 * k + 2) in
  for_stride3 (length a) (updateVertex config time orig) a !! (3 * k + 1)%nat =
  Some (primaryWave config x z time + secondaryWave config x z time +
        windChop config x z time).
Proof.
  intros Hk x z.
  rewrite (for_stride3_lookup _
             (fun k => wireframe_updateVertex_length config time orig (3 * k))
             (fun k => wireframe_updateVertex_frame config time orig (3 * k))
             (fun k => wireframe_updateVertex_local config time orig (3 * k))).
  rewrite (triple_div k 1) by lia.
  unfold updateVertex, set. cbv zeta.
  apply list_lookup_insert_eq. exact Hk.
Qed.

Lemma wireframe_useFrame_mounted (config : WaveConfig) (delta : R) (st : State)
    (positions : Float32Array) :
  meshRef st = Some positions ->
  useFrame config delta st =
  {| timeRef := clock config delta st;
     meshRef := Some (for_stride3 (length positions)
                        (updateVertex config (clock config delta st)
                           (originalPositions st)) positions);
     originalPositions := originalPositions st |}.
Proof. intros Hmesh. unfold useFrame. rewrite Hmesh. reflexivity. Qed.

Lemma wireframe_useFrame_unmounted (config : WaveConfig) (delta : R) (st : State) :
  meshRef st = None -> useFrame config delta st = st.
Proof. intros Hmesh. unfold useFrame. rewrite Hmesh. reflexivity. Qed.

(** The clock of a frame, mounted or not. *)
Lemma wireframe_useFrame_timeRef (config : WaveConfig) (delta : R) (st : State) :
  timeRef (useFrame config delta st) =
  match meshRef st with
  | None => timeRef st
  | Some _ => clock config delta st
  end.
Proof. unfold useFrame. destruct (meshRef st); reflexivity. Qed.

Lemma wireframe_clock_monotone (config : WaveConfig) (delta : R) (st : State) :
  0 <= delta -> 0 <= timeScale config -> timeRef st <= clock config delta st.
Proof.
  intros Hd Hs. unfold clock. destruct (animateWaves config); [nra|lra].
Qed.

Lemma wireframe_frames_monotone (ticks : list (WaveConfig * R)) (st : State) :
  List.Forall (fun tick => 0 <= snd tick /\ 0 <= timeScale (fst tick)) ticks ->
  timeRef st <= timeRef (frames ticks st).
Proof.
  unfold frames. intros Hticks. induction Hticks as [|tick ticks [Hd Hs] _ IH] in st |- *.
  - simpl. lra.
  - simpl. eapply Rle_trans; [|apply IH].
    rewrite wireframe_useFrame_timeRef. destruct (meshRef st); [|lra].
    apply wireframe_clock_monotone; assumption.
Qed.

(** The phase speed of this revision is the square-root form: it follows
    the wave length and ignores the period and the [waveSpeed] multiplier. *)
Lemma wireframe_primarySpeed_sqrt (config : WaveConfig) :
  primarySpeed config = sqrt (9.8 * waveLength config / (2 * PI)) * 0.5 /\
  secondarySpeed config =
    sqrt (9.8 * (waveLength config * 0.6) / (2 * PI)) * 0.5.
Proof. split; reflexivity. Qed.

End WireframeFacts.

(** ** Frames: clock, heights and colours *)

Module FrameFacts.
Import Js JsFacts Config WaveMesh.
Import WaveFacts MeshFacts.

Section Clock.

Variable THREE_Color : string -> Color.

Lemma useFrame_timeRef (config : WaveConfig) (delta : R) (st : State) :
  timeRef (useFrame THREE_Color config delta st) =
  match meshRef st with
  | None => timeRef st
  | Some _ => clock config delta st
  end.
Proof.
  unfold useFrame, clock. destruct (meshRef st) as [geo|]; [|reflexivity].
  destruct (for_stride3 _ _ _). reflexivity.
Qed.

Lemma useFrame_originalPositions (config : WaveConfig) (delta : R) (st : State) :
  originalPositions (useFrame THREE_Color config delta st) = originalPositions st.
Proof.
  unfold useFrame. destruct (meshRef st) as [geo|]; [|reflexivity].
  destruct (for_stride3 _ _ _). reflexivity.
Qed.

Lemma clock_monotone (config : WaveConfig) (delta : R) (st : State) :
  0 <= delta -> 0 <= timeScale config -> timeRef st <= clock config delta st.
Proof.
  intros Hd Hs. unfold clock. destruct (animateWaves config); [nra|lra].
Qed.

Lemma frames_monotone (ticks : list (WaveConfig * R)) (st : State) :
  List.Forall (fun tick => 0 <= snd tick /\ 0 <= timeScale (fst tick)) ticks ->
  timeRef st <= timeRef (frames THREE_Color ticks st).
Proof.
  unfold frames. intros Hticks.
  induction Hticks as [|tick ticks [Hd Hs] _ IH] in st |- *.
  - simpl. lra.
  - simpl. eapply Rle_trans; [|apply IH].
    rewrite useFrame_timeRef. destruct (meshRef st); [|lra].
    apply clock_monotone; assumption.
Qed.

(** *** The invariant of a mounted component *)

Lemma mount_aligned (grid : Float32Array) : aligned (mount grid).
Proof.
  eexists. split; [apply mount_mounted|]. intros j _. reflexivity.
Qed.

Lemma useFrame_aligned (config : WaveConfig) (delta : R) (st : State) :
  aligned st -> aligned (useFrame THREE_Color config delta st).
Proof.
  intros (geo & Hm & Hxz). rewrite (useFrame_mounted _ config delta st geo Hm).
  destruct Hm as (Hmesh & Hpos & Hcol).
  eexists. split.
  - split; [reflexivity|]. cbn [position color originalPositions].
    rewrite heights_length, colours_length. split; assumption.
  - intros j Hj. cbn [position originalPositions].
    rewrite heights_xz by exact Hj. apply Hxz. exact Hj.
Qed.

Lemma frames_aligned (ticks : list (WaveConfig * R)) (st : State) :
  aligned st ->
  aligned (frames THREE_Color ticks st) /\
  originalPositions (frames THREE_Color ticks st) = originalPositions st.
Proof.
  unfold frames. induction ticks as [|tick ticks IH] in st |- *; intros Hal.
  - split; [exact Hal|reflexivity].
  - simpl. destruct (IH _ (useFrame_aligned (fst tick) (snd tick) st Hal)) as [H1 H2].
    split; [exact H1|]. rewrite H2. apply useFrame_originalPositions.
Qed.

(** On aligned states over the same grid, the arrays after a frame are a
    function of the configuration and the clock. *)
Lemma frame_arrays_determined (config : WaveConfig) (delta1 delta2 : R)
    (st1 st2 : State) :
  aligned st1 -> aligned st2 ->
  originalPositions st1 = originalPositions st2 ->
  clock config delta1 st1 = clock config delta2 st2 ->
  exists geo,
    meshRef (useFrame THREE_Color config delta1 st1) = Some geo /\
    meshRef (useFrame THREE_Color config delta2 st2) = Some geo.
Proof.
  intros (geo1 & Hm1 & Hxz1) (geo2 & Hm2 & Hxz2) Horig Hclock.
  rewrite (useFrame_mounted _ config delta1 st1 geo1 Hm1).
  rewrite (useFrame_mounted _ config delta2 st2 geo2 Hm2).
  destruct Hm1 as (_ & Hpos1 & Hcol1). destruct Hm2 as (_ & Hpos2 & Hcol2).
  rewrite <- Horig in *. rewrite <- Hclock.
  set (time := clock config delta1 st1). set (orig := originalPositions st1) in *.
  eexists. split; [reflexivity|]. cbn [meshRef]. f_equal. f_equal.
  - apply list_eq. intros j.
    destruct (Nat.eq_dec (j mod 3) 1%nat) as [Hy|Hxz].
    + assert (Hj : j = (3 * (j / 3) + 1)%nat)
        by (pose proof (Nat.div_mod_eq j 3); lia).
      destruct (lt_dec j (length orig)) as [Hlt|Hge].
      * rewrite Hj, !heights_y by lia. reflexivity.
      * rewrite !lookup_ge_None_2 by (rewrite heights_length; lia). reflexivity.
    + rewrite !heights_xz by exact Hxz. rewrite Hxz1, Hxz2 by exact Hxz.
      reflexivity.
  - apply list_eq. intros j.
    destruct (lt_dec j (length orig)) as [Hlt|Hge].
    + assert (Hj : j = (3 * (j / 3) + j mod 3)%nat) by apply Nat.div_mod_eq.
      pose proof (Nat.mod_upper_bound j 3 ltac:(lia)) as Hd.
      rewrite Hj, !colours_channel by lia. reflexivity.
    + rewrite !lookup_ge_None_2 by (rewrite colours_length; lia). reflexivity.
Qed.

End Clock.

(** C4. Two frames with the same configuration, the same accumulated time
    and the same base grid leave the same position array and the same colour
    array, whatever frames each component has gone through before: the
    arrays depend on nothing else. *)
Theorem useFrame_deterministic (THREE_Color : string -> Color)
    (grid : Float32Array) (vertices : nat) (config : WaveConfig)
    (history1 history2 : list (WaveConfig * R)) (delta1 delta2 : R) :
  length grid = (3 * vertices)%nat ->
  let st1 := frames THREE_Color history1 (mount grid) in
  let st2 := frames THREE_Color history2 (mount grid) in
  timeRef (useFrame THREE_Color config delta1 st1) =
  timeRef (useFrame THREE_Color config delta2 st2) ->
  exists geo,
    meshRef (useFrame THREE_Color config delta1 st1) = Some geo /\
    meshRef (useFrame THREE_Color config delta2 st2) = Some geo.
Proof.
  intros Hlen st1 st2 Htime.
  destruct (frames_aligned THREE_Color history1 _ (mount_aligned grid)) as [Hal1 Ho1].
  destruct (frames_aligned THREE_Color history2 _ (mount_aligned grid)) as [Hal2 Ho2].
  fold st1 in Hal1, Ho1. fold st2 in Hal2, Ho2.
  apply frame_arrays_determined; try assumption.
  - congruence.
  - rewrite !useFrame_timeRef in Htime.
    destruct Hal1 as (g1 & (Hm1 & _) & _). destruct Hal2 as (g2 & (Hm2 & _) & _).
    rewrite Hm1, Hm2 in Htime. exact Htime.
Qed.

(** A fresh component against one that has already run a quarter of a
    second: both reach half a second. *)
Lemma useFrame_deterministic_witness :
  let C := Examples.sampleColor in
  let st1 := frames C [] (mount Examples.twoVertices) in
  let st2 := frames C [(Examples.moderate, 0.25)] (mount Examples.twoVertices) in
  exists geo,
    meshRef (useFrame C Examples.moderate 0.5 st1) = Some geo /\
    meshRef (useFrame C Examples.moderate 0.25 st2) = Some geo.
Proof.
  intros C st1 st2.
  apply (useFrame_deterministic C Examples.twoVertices 2 Examples.moderate
           [] [(Examples.moderate, 0.25)] 0.5 0.25).
  - reflexivity.
  - cbn [frames fold_left fst snd].
    rewrite (useFrame_timeRef C Examples.moderate 0.25
               (useFrame C Examples.moderate 0.25 (mount Examples.twoVertices))).
    rewrite (useFrame_mounted C Examples.moderate 0.25 _ _
               (mount_mounted Examples.twoVertices)).
    rewrite useFrame_timeRef.
    unfold clock. simpl. lra.
Defined.

End FrameFacts.

(** ** Colours, chop and the clock *)

Module SurfaceFacts.
Import Js JsFacts Config WaveMesh.
Import WaveFacts MeshFacts FrameFacts.

(** *** Vertex colours *)

Lemma blend_range (turbid foam hi : R) :
  0 <= turbid <= hi -> 1 <= hi -> 0 <= foam <= 1 ->
  0 <= blend turbid foam <= hi.
Proof. intros Ht Hhi Hf. unfold blend. split; nra. Qed.

Lemma murkiness_range (config : WaveConfig) :
  0 <= waterClarity config <= 1 -> 0 <= murkiness config <= 1.
Proof. unfold murkiness, clarityFactor. lra. Qed.

(** What a frame leaves in the colour array at offset [d] of vertex [k]. *)
Lemma useFrame_colour (THREE_Color : string -> Color) (config : WaveConfig)
    (delta : R) (st : State) (geo : Geometry) (k d : nat) :
  mounted st geo ->
  (d < 3)%nat -> (3 * k + d < length (originalPositions st))%nat ->
  exists geo',
    meshRef (useFrame THREE_Color config delta st) = Some geo' /\
    get (color geo') (3 * k + d) =
    blend (channel config (baseColor THREE_Color config) d)
      (vertexFoam config (get (originalPositions st) (3 * k))
         (get (originalPositions st) (3 * k + 2)) (clock config delta st)).
Proof.
  intros Hm Hd Hk. rewrite (useFrame_mounted _ config delta st geo Hm).
  destruct Hm as (_ & _ & Hcol).
  eexists. split; [reflexivity|]. cbn [color].
  apply get_lookup. apply colours_channel; [exact Hd|]. rewrite Hcol. exact Hk.
Qed.

(** The same for the entry itself: the colour array holds it. *)
Lemma useFrame_colour_entry (THREE_Color : string -> Color) (config : WaveConfig)
    (delta : R) (st : State) (geo : Geometry) (k d : nat) :
  mounted st geo ->
  (d < 3)%nat -> (3 * k + d < length (originalPositions st))%nat ->
  exists geo',
    meshRef (useFrame THREE_Color config delta st) = Some geo' /\
    color geo' !! (3 * k + d)%nat =
    Some (blend (channel config (baseColor THREE_Color config) d)
            (vertexFoam config (get (originalPositions st) (3 * k))
               (get (originalPositions st) (3 * k + 2)) (clock config delta st))).
Proof.
  intros Hm Hd Hk. rewrite (useFrame_mounted _ config delta st geo Hm).
  destruct Hm as (_ & _ & Hcol).
  eexists. split; [reflexivity|]. cbn [color].
  apply colours_channel; [exact Hd|]. rewrite Hcol. exact Hk.
Qed.

(** C1, as the code has it.  With base colour channels, [waterClarity] and
    [foamIntensity] in [0, 1] and a non-zero [waveHeight] (the crest bonus
    divides by it), a frame writes three values for a vertex: the red and
    the blue one lie in [0, 1]; the green one lies in [0, 1.1], and in
    [0, 1] whenever the green channel raised by the turbidity tint,
    [g * (1 + (1 - waterClarity) * 0.1)], does not exceed 1.  What the
    [Float32Array] keeps of them lies in [0, 1] for red and blue and in
    [0, 9227469 / 8388608], the binary32 number next to 1.1, for green. *)
Theorem vertex_colors_range (THREE_Color : string -> Color)
    (config : WaveConfig) (delta : R) (st : State) (geo : Geometry) (k : nat) :
  let base := baseColor THREE_Color config in
  0 <= r base <= 1 -> 0 <= g base <= 1 -> 0 <= b base <= 1 ->
  0 <= waterClarity config <= 1 ->
  0 <= foamIntensity config <= 1 ->
  waveHeight config <> 0 ->
  mounted st geo ->
  (3 * k + 2 < length (originalPositions st))%nat ->
  exists geo' red green blue,
    meshRef (useFrame THREE_Color config delta st) = Some geo' /\
    (color geo' !! (3 * k)%nat = Some red /\
     color geo' !! (3 * k + 1)%nat = Some green /\
     color geo' !! (3 * k + 2)%nat = Some blue) /\
    (0 <= red <= 1 /\ 0 <= Ieee.roundFloat32 red <= 1) /\
    (0 <= green <= 1.1 /\
     0 <= Ieee.roundFloat32 green <= 9227469 / 8388608) /\
    (g base * (1 + (1 - waterClarity config) * 0.1) <= 1 ->
     green <= 1 /\ Ieee.roundFloat32 green <= 1) /\
    (0 <= blue <= 1 /\ 0 <= Ieee.roundFloat32 blue <= 1).
Proof.
  intros base Hr Hg Hb Hclar Hint _ Hm Hk.
  pose proof (murkiness_range config Hclar) as Hmurk.
  destruct (useFrame_colour_entry THREE_Color config delta st geo k 0 Hm)
    as (geo' & Hgeo & H0); [lia|lia|].
  destruct (useFrame_colour_entry THREE_Color config delta st geo k 1 Hm)
    as (geo1 & Hgeo1 & H1); [lia|lia|].
  destruct (useFrame_colour_entry THREE_Color config delta st geo k 2 Hm)
    as (geo2 & Hgeo2 & H2); [lia|lia|].
  assert (geo1 = geo') by congruence. assert (geo2 = geo') by congruence.
  subst geo1 geo2. rewrite Nat.add_0_r in H0.
  cbn [channel] in H0, H1, H2. fold base in H0, H1, H2.
  set (foam := vertexFoam _ _ _ _) in *.
  assert (Hfoam : 0 <= foam <= 1) by (apply foamAmount_range; exact Hint).
  assert (HtR : 0 <= turbidR config base <= 1) by (unfold turbidR; split; nra).
  assert (HtG : 0 <= turbidG config base <= 1.1) by (unfold turbidG; split; nra).
  assert (HtB : 0 <= turbidB config base <= 1) by (unfold turbidB; split; nra).
  assert (Hred : 0 <= blend (turbidR config base) foam <= 1)
    by (apply blend_range; lra).
  assert (Hgreen : 0 <= blend (turbidG config base) foam <= 1.1)
    by (apply blend_range; lra).
  assert (Hblue : 0 <= blend (turbidB config base) foam <= 1)
    by (apply blend_range; lra).
  exists geo', (blend (turbidR config base) foam),
    (blend (turbidG config base) foam), (blend (turbidB config base) foam).
  split; [exact Hgeo|].
  split; [split; [exact H0|split; [exact H1|exact H2]]|].
  split; [split; [exact Hred|apply IeeeFacts.roundFloat32_unit; exact Hred]|].
  split; [split; [exact Hgreen|apply IeeeFacts.roundFloat32_tinted; exact Hgreen]|].
  split; [|split; [exact Hblue|apply IeeeFacts.roundFloat32_unit; exact Hblue]].
  intros Hcap.
  assert (Hcapped : 0 <= blend (turbidG config base) foam <= 1).
  { apply (blend_range _ foam 1); [|lra|exact Hfoam].
    unfold turbidG, murkiness, clarityFactor in *. lra. }
  split; [apply Hcapped|apply IeeeFacts.roundFloat32_unit; exact Hcapped].
Qed.

Lemma vertex_colors_range_witness :
  exists geo' red green blue,
    meshRef (useFrame Examples.sampleColor Examples.moderate 0.25
               (mount Examples.twoVertices)) = Some geo' /\
    (color geo' !! 0%nat = Some red /\
     color geo' !! 1%nat = Some green /\
     color geo' !! 2%nat = Some blue) /\
    (0 <= red <= 1 /\ 0 <= Ieee.roundFloat32 red <= 1) /\
    (0 <= green <= 1.1 /\
     0 <= Ieee.roundFloat32 green <= 9227469 / 8388608) /\
    (0 * (1 + (1 - 0.7) * 0.1) <= 1 ->
     green <= 1 /\ Ieee.roundFloat32 green <= 1) /\
    (0 <= blue <= 1 /\ 0 <= Ieee.roundFloat32 blue <= 1).
Proof.
  apply (vertex_colors_range Examples.sampleColor Examples.moderate 0.25
           (mount Examples.twoVertices) (newGeometry Examples.twoVertices) 0).
  - simpl. lra.
  - simpl. lra.
  - simpl. lra.
  - simpl. lra.
  - simpl. lra.
  - simpl. lra.
  - apply mount_mounted.
  - simpl. lia.
Defined.

(** Pure green water at zero clarity: every premise of C1 holds and the
    green value written for the first vertex is 1.1, of which the
    [Float32Array] keeps [9227469 / 8388608], about 1.10000002. *)
Lemma vertex_colors_counterexample :
  let config := Examples.murkyGreen in
  let base := baseColor Examples.sampleColor config in
  (0 <= r base <= 1 /\ 0 <= g base <= 1 /\ 0 <= b base <= 1) /\
  0 <= waterClarity config <= 1 /\
  0 <= foamIntensity config <= 1 /\
  exists geo',
    meshRef (useFrame Examples.sampleColor config 0.25
               (mount Examples.twoVertices)) = Some geo' /\
    color geo' !! 1%nat = Some 1.1 /\
    Ieee.roundFloat32 1.1 = 9227469 / 8388608 /\
    ~ (0 <= 1.1 <= 1) /\
    ~ (0 <= Ieee.roundFloat32 1.1 <= 1).
Proof.
  intros config base.
  split; [simpl; lra|]. split; [simpl; lra|]. split; [simpl; lra|].
  destruct (useFrame_colour_entry Examples.sampleColor config 0.25
              (mount Examples.twoVertices) _ 0 1
              (mount_mounted Examples.twoVertices)) as (geo' & Hgeo & Hg);
    [lia|simpl; lia|].
  exists geo'. split; [exact Hgeo|].
  split.
  { change (3 * 0 + 1)%nat with 1%nat in Hg. rewrite Hg. f_equal.
    unfold vertexFoam. rewrite foamAmount_no_intensity by reflexivity.
    unfold blend, channel, turbidG, murkiness, clarityFactor. simpl. lra. }
  split; [apply IeeeFacts.roundFloat32_1_1|].
  split; [lra|]. rewrite IeeeFacts.roundFloat32_1_1. lra.
Qed.


(** *** Wind chop *)

Lemma windChop_off (config : WaveConfig) (x z time : R) :
  windChopIntensity config = 0 -> windChop config x z time = 0.
Proof.
  intros Hchop. unfold windChop, windChopMultiplier. rewrite Hchop, Rmult_0_l.
  destruct (Rgt_dec 0 0); [lra|reflexivity].
Qed.

Lemma wireframe_windChop_off (config : WaveConfig) (x z time : R) :
  windChopIntensity config = 0 -> WaveMeshWireframe.windChop config x z time = 0.
Proof.
  intros Hchop. unfold WaveMeshWireframe.windChop. rewrite Hchop.
  destruct (Rgt_dec 0 0); [lra|reflexivity].
Qed.

(** What a frame leaves as the height of vertex [k]. *)
Lemma useFrame_height (THREE_Color : string -> Color) (config : WaveConfig)
    (delta : R) (st : State) (geo : Geometry) (k : nat) :
  mounted st geo ->
  (3 * k + 2 < length (originalPositions st))%nat ->
  exists geo',
    meshRef (useFrame THREE_Color config delta st) = Some geo' /\
    get (position geo') (3 * k + 1) =
    totalHeight config (get (originalPositions st) (3 * k))
      (get (originalPositions st) (3 * k + 2))
      (timeRef (useFrame THREE_Color config delta st)).
Proof.
  intros Hm Hk. rewrite (useFrame_mounted _ config delta st geo Hm).
  destruct Hm as (_ & Hpos & _).
  eexists. split; [reflexivity|]. cbn [position timeRef].
  apply get_lookup. apply heights_y. lia.
Qed.

(** C6. With [windChopIntensity = 0] the wind chop is 0 at every vertex,
    at every time and for every wind speed, so the height a frame writes for
    a vertex is the primary wave plus the secondary wave there; and so it is
    in the wireframe revision. *)
Theorem chop_suppression (THREE_Color : string -> Color) (config : WaveConfig) :
  windChopIntensity config = 0 ->
  (forall x z time,
     windChop config x z time = 0 /\
     totalHeight config x z time =
     primaryWave config x z time + secondaryWave config x z time) /\
  (forall delta st geo k,
     mounted st geo ->
     (3 * k + 2 < length (originalPositions st))%nat ->
     exists geo',
       meshRef (useFrame THREE_Color config delta st) = Some geo' /\
       let x := get (originalPositions st) (3 * k) in
       let z := get (originalPositions st) (3 * k + 2) in
       let time := timeRef (useFrame THREE_Color config delta st) in
       get (position geo') (3 * k + 1) =
       primaryWave config x z time + secondaryWave config x z time) /\
  (forall x z time, WaveMeshWireframe.windChop config x z time = 0) /\
  (forall delta st positions k,
     WaveMeshWireframe.mounted st positions ->
     (3 * k + 2 < length (WaveMeshWireframe.originalPositions st))%nat ->
     exists positions',
       WaveMeshWireframe.meshRef (WaveMeshWireframe.useFrame config delta st) =
         Some positions' /\
       let x := get (WaveMeshWireframe.originalPositions st) (3 * k) in
       let z := get (WaveMeshWireframe.originalPositions st) (3 * k + 2) in
       let time := WaveMeshWireframe.timeRef (WaveMeshWireframe.useFrame config delta st) in
       get positions' (3 * k + 1) =
       WaveMeshWireframe.primaryWave config x z time +
       WaveMeshWireframe.secondaryWave config x z time).
Proof.
  intros Hchop. split; [|split; [|split]].
  - intros x z time. unfold totalHeight.
    rewrite (windChop_off config x z time Hchop). split; [reflexivity|lra].
  - intros delta st geo k Hm Hk.
    destruct (useFrame_height THREE_Color config delta st geo k Hm Hk)
      as (geo' & Hgeo & Hy).
    exists geo'. split; [exact Hgeo|]. cbv zeta. rewrite Hy.
    unfold totalHeight. rewrite (windChop_off config _ _ _ Hchop). lra.
  - intros x z time. apply wireframe_windChop_off. exact Hchop.
  - intros delta st positions k [Hmesh Hlen] Hk.
    rewrite (WireframeFacts.wireframe_useFrame_mounted config delta st positions Hmesh).
    eexists. split; [reflexivity|].
    cbn [WaveMeshWireframe.timeRef]. cbv zeta.
    apply get_lookup. rewrite WireframeFacts.wireframe_loop_y by lia. cbv zeta.
    rewrite (wireframe_windChop_off config _ _ _ Hchop).
    f_equal. lra.
Qed.

Lemma chop_suppression_witness :
  windChop Examples.glassy 1.5 0 0.25 = 0 /\
  totalHeight Examples.glassy 1.5 0 0.25 =
  primaryWave Examples.glassy 1.5 0 0.25 + secondaryWave Examples.glassy 1.5 0 0.25.
Proof.
  apply (chop_suppression Examples.sampleColor Examples.glassy).
  reflexivity.
Defined.

(** *** The clock *)

(** C7, as the code has it.  On a tick with the mesh attached the
    accumulator is left unchanged when [animateWaves] is false and grows by
    exactly [delta * timeScale] when it is true; on a tick without the mesh
    the callback returns at once and the accumulator is left unchanged.
    Paused ticks add nothing to be caught up later, and with non-negative
    [delta] and [timeScale] the accumulator never decreases along a run of
    ticks.  The wireframe revision keeps time the same way. *)
Theorem time_accumulator (THREE_Color : string -> Color) :
  (forall config delta st,
     (meshRef st <> None -> animateWaves config = false ->
      timeRef (useFrame THREE_Color config delta st) = timeRef st) /\
     (meshRef st <> None -> animateWaves config = true ->
      timeRef (useFrame THREE_Color config delta st) =
      timeRef st + delta * timeScale config) /\
     (meshRef st = None ->
      timeRef (useFrame THREE_Color config delta st) = timeRef st)) /\
  (forall ticks st,
     List.Forall (fun tick => animateWaves (fst tick) = false) ticks ->
     timeRef (frames THREE_Color ticks st) = timeRef st) /\
  (forall ticks st,
     List.Forall (fun tick => 0 <= snd tick /\ 0 <= timeScale (fst tick)) ticks ->
     timeRef st <= timeRef (frames THREE_Color ticks st)) /\
  (forall config delta st,
     (WaveMeshWireframe.meshRef st <> None -> animateWaves config = false ->
      WaveMeshWireframe.timeRef (WaveMeshWireframe.useFrame config delta st) =
      WaveMeshWireframe.timeRef st) /\
     (WaveMeshWireframe.meshRef st <> None -> animateWaves config = true ->
      WaveMeshWireframe.timeRef (WaveMeshWireframe.useFrame config delta st) =
      WaveMeshWireframe.timeRef st + delta * timeScale config) /\
     (WaveMeshWireframe.meshRef st = None ->
      WaveMeshWireframe.timeRef (WaveMeshWireframe.useFrame config delta st) =
      WaveMeshWireframe.timeRef st)) /\
  (forall ticks st,
     List.Forall (fun tick => 0 <= snd tick /\ 0 <= timeScale (fst tick)) ticks ->
     WaveMeshWireframe.timeRef st <=
     WaveMeshWireframe.timeRef (WaveMeshWireframe.frames ticks st)).
Proof.
  split; [|split; [|split; [|split]]].
  - intros config delta st. rewrite useFrame_timeRef. unfold clock.
    repeat split.
    + intros Hmesh Hoff. destruct (meshRef st); [|congruence].
      rewrite Hoff. reflexivity.
    + intros Hmesh Hon. destruct (meshRef st); [|congruence].
      rewrite Hon. reflexivity.
    + intros Hmesh. rewrite Hmesh. reflexivity.
  - intros ticks st Hticks. unfold frames.
    induction Hticks as [|tick ticks Hoff _ IH] in st |- *; [reflexivity|].
    simpl. rewrite IH, useFrame_timeRef. unfold clock. rewrite Hoff.
    destruct (meshRef st); reflexivity.
  - intros ticks st. apply frames_monotone.
  - intros config delta st. rewrite WireframeFacts.wireframe_useFrame_timeRef.
    unfold WaveMeshWireframe.clock. repeat split.
    + intros Hmesh Hoff. destruct (WaveMeshWireframe.meshRef st); [|congruence].
      rewrite Hoff. reflexivity.
    + intros Hmesh Hon. destruct (WaveMeshWireframe.meshRef st); [|congruence].
      rewrite Hon. reflexivity.
    + intros Hmesh. rewrite Hmesh. reflexivity.
  - intros ticks st. apply WireframeFacts.wireframe_frames_monotone.
Qed.

(** A quarter of a second on a mounted mesh under the default settings. *)
Lemma time_accumulator_witness :
  timeRef (useFrame Examples.sampleColor Examples.moderate 0.25
             (mount Examples.twoVertices)) =
  timeRef (mount Examples.twoVertices) + 0.25 * timeScale Examples.moderate.
Proof.
  destruct (time_accumulator Examples.sampleColor) as [Htick _].
  destruct (Htick Examples.moderate 0.25 (mount Examples.twoVertices))
    as (_ & Hon & _).
  apply Hon.
  - discriminate.
  - reflexivity.
Defined.

(** A tick before the mesh is attached: animation is enabled, yet the
    accumulator does not move. *)
Lemma time_accumulator_counterexample :
  let st := unmounted Examples.twoVertices in
  animateWaves Examples.moderate = true /\
  timeRef (useFrame Examples.sampleColor Examples.moderate 0.25 st) = timeRef st /\
  timeRef (useFrame Examples.sampleColor Examples.moderate 0.25 st) <>
  timeRef st + 0.25 * timeScale Examples.moderate.
Proof.
  intros st. split; [reflexivity|].
  rewrite useFrame_unmounted by reflexivity.
  split; [reflexivity|]. simpl. lra.
Qed.

End SurfaceFacts.

(** * Further properties *)

(** ** The wave field *)

Module WaveFieldFacts.
Import Js JsFacts Config WaveMesh.
Import WaveFacts CanyonFacts.

Lemma canyonFactor_range (config : WaveConfig) (x : R) :
  1 <= canyonAmplification config -> 0 < canyonFocusWidth config ->
  1 <= canyonFactor config x <= canyonAmplification config.
Proof.
  intros HA Hw. rewrite canyonFactor_exponent.
  pose proof (exp_nonpos_le_1 _ (canyonExponent_nonpos config x Hw)). nra.
Qed.

Lemma depthFactor_range (config : WaveConfig) (z : R) :
  0 <= canyonDepthEffect config -> -150 <= z <= 150 ->
  1 <= depthFactor config z <= 1 + canyonDepthEffect config.
Proof.
  intros He Hz. unfold depthFactor, shoreDistance. split; nra.
Qed.

(** The depth factor steepens the waves linearly from the back edge of the
    grid to the shore: it is 1 at [z = -150], [1 + canyonDepthEffect] at
    [z = 150], grows with [z], and on the grid stays between the two. *)
Theorem depthFactor_shoreward (config : WaveConfig) :
  0 <= canyonDepthEffect config ->
  depthFactor config (-150) = 1 /\
  depthFactor config 150 = 1 + canyonDepthEffect config /\
  (forall z1 z2, z1 <= z2 -> depthFactor config z1 <= depthFactor config z2) /\
  (forall z, -150 <= z <= 150 ->
     1 <= depthFactor config z <= 1 + canyonDepthEffect config).
Proof.
  intros He. split; [|split; [|split]].
  - unfold depthFactor, shoreDistance. lra.
  - unfold depthFactor, shoreDistance. lra.
  - intros z1 z2 Hz. unfold depthFactor, shoreDistance. nra.
  - intros z Hz. apply depthFactor_range; assumption.
Qed.

Lemma depthFactor_shoreward_witness :
  depthFactor Examples.moderate (-150) = 1.
Proof.
  apply (depthFactor_shoreward Examples.moderate). simpl. lra.
Defined.

(** The three sinusoids of the chop, weighted 0.5, 0.3 and 0.2, stay within
    [-1, 1]. *)
Lemma chop_mix_bound (a1 b1 a2 b2 a3 : R) :
  -1 <= sin a1 * cos b1 * 0.5 + sin a2 * cos b2 * 0.3 + sin a3 * 0.2 <= 1.
Proof.
  pose proof (ShoreFacts.sin_cos_bound a1 b1).
  pose proof (ShoreFacts.sin_cos_bound a2 b2).
  pose proof (SIN_bound a3). lra.
Qed.

Lemma windChop_bound (config : WaveConfig) (x z time : R) :
  0 <= windChopMultiplier config ->
  Rabs (windChop config x z time) <= windChopMultiplier config * 3.
Proof.
  intros Hm. unfold windChop.
  destruct (Rgt_dec (windChopMultiplier config) 0) as [Hpos|Hnot].
  - cbv zeta.
    match goal with |- Rabs (?mix * _ * 3) <= _ =>
      assert (Hmix : -1 <= mix <= 1) by apply chop_mix_bound;
      set (m := mix) in * end.
    apply Rabs_le. split; nra.
  - rewrite Rabs_R0. nra.
Qed.

Lemma amplitude_sin_bound (amp bound theta : R) :
  0 <= amp <= bound -> Rabs (amp * sin theta) <= bound.
Proof.
  intros Ha. pose proof (SIN_bound theta). apply Rabs_le. split; nra.
Qed.

(** The surface never leaves the envelope of its three components: on the
    grid, for a non-zero wave length, the height written for a vertex is
    at most [waveHeight * canyonAmplification * (1 + canyonDepthEffect)]
    for the primary wave, plus
    [secondaryWaveHeight * canyonAmplification * 0.7] for the cross swell,
    plus three times the chop multiplier. *)
Theorem totalHeight_envelope (config : WaveConfig) (x z time : R) :
  waveLength config <> 0 ->
  0 <= waveHeight config ->
  0 <= secondaryWaveHeight config ->
  1 <= canyonAmplification config ->
  0 < canyonFocusWidth config ->
  0 <= canyonDepthEffect config ->
  0 <= windChopIntensity config ->
  0 <= windSpeed config ->
  -150 <= z <= 150 ->
  Rabs (totalHeight config x z time) <=
  waveHeight config * canyonAmplification config * (1 + canyonDepthEffect config) +
  secondaryWaveHeight config * canyonAmplification config * 0.7 +
  windChopIntensity config * (1 + windSpeed config / 20) * 3.
Proof.
  intros _ Hwh Hsh HA Hw He Hci Hws Hz.
  pose proof (canyonFactor_range config x HA Hw) as Hcf.
  pose proof (depthFactor_range config z He Hz) as Hdf.
  assert (Hmult : 0 <= windChopMultiplier config)
    by (unfold windChopMultiplier; apply Rmult_le_pos; lra).
  pose proof (windChop_bound config x z time Hmult) as Hchop.
  assert (Hp : Rabs (primaryWave config x z time) <=
               waveHeight config * canyonAmplification config *
               (1 + canyonDepthEffect config)).
  { unfold primaryWave, primaryAmplitude. apply amplitude_sin_bound.
    set (cf := canyonFactor config x) in *. set (df := depthFactor config z) in *.
    assert (0 <= waveHeight config * cf <= waveHeight config * canyonAmplification config)
      by (split; nra).
    split; nra. }
  assert (Hs : Rabs (secondaryWave config x z time) <=
               secondaryWaveHeight config * canyonAmplification config * 0.7).
  { unfold secondaryWave, secondaryAmplitude. apply amplitude_sin_bound.
    set (cf := canyonFactor config x) in *. split; nra. }
  unfold totalHeight. unfold windChopMultiplier in Hchop.
  eapply Rle_trans; [apply Rabs_triang|].
  eapply Rle_trans; [apply Rplus_le_compat_r, Rabs_triang|]. lra.
Qed.

Lemma totalHeight_envelope_witness :
  Rabs (totalHeight Examples.moderate 1.5 0 0.25) <=
  8 * 2.0 * (1 + 0.7) + 2 * 2.0 * 0.7 + 0.3 * (1 + 15 / 20) * 3.
Proof.
  apply (totalHeight_envelope Examples.moderate 1.5 0 0.25); simpl; lra.
Defined.

(** The primary and the secondary wave travel: for a non-zero wave
    length, moving a point by [speed * tau] along the wave direction
    [(sin dir, cos dir)] while the clock advances by [tau] leaves the
    phase, and so the wave height up to the local amplitude, unchanged. *)
Theorem waves_travel_at_phase_speed (config : WaveConfig) (x z time tau : R) :
  waveLength config <> 0 ->
  primaryPhase config
    (x + primarySin config * (primaryWaveSpeed config * tau))
    (z + primaryCos config * (primaryWaveSpeed config * tau))
    (time + tau) = primaryPhase config x z time /\
  secondaryPhase config
    (x + secondarySin config * (secondaryWaveSpeed config * tau))
    (z + secondaryCos config * (secondaryWaveSpeed config * tau))
    (time + tau) = secondaryPhase config x z time.
Proof.
  intros _.
  unfold primaryPhase, secondaryPhase, primarySin, primaryCos, secondarySin,
    secondaryCos.
  pose proof (sin2_cos2 (primaryDir config)) as H1.
  pose proof (sin2_cos2 (secondaryDir config)) as H2.
  unfold Rsqr in *.
  set (s1 := sin (primaryDir config)) in *. set (c1 := cos (primaryDir config)) in *.
  set (s2 := sin (secondaryDir config)) in *. set (c2 := cos (secondaryDir config)) in *.
  split; f_equal.
  - replace (s1 * (x + s1 * (primaryWaveSpeed config * tau)) +
             c1 * (z + c1 * (primaryWaveSpeed config * tau)) -
             primaryWaveSpeed config * (time + tau))
      with (s1 * x + c1 * z - primaryWaveSpeed config * time +
            (s1 * s1 + c1 * c1 - 1) * (primaryWaveSpeed config * tau)) by ring.
    rewrite H1. ring.
  - replace (s2 * (x + s2 * (secondaryWaveSpeed config * tau)) +
             c2 * (z + c2 * (secondaryWaveSpeed config * tau)) -
             secondaryWaveSpeed config * (time + tau))
      with (s2 * x + c2 * z - secondaryWaveSpeed config * time +
            (s2 * s2 + c2 * c2 - 1) * (secondaryWaveSpeed config * tau)) by ring.
    rewrite H2. ring.
Qed.

Lemma waves_travel_at_phase_speed_witness :
  primaryPhase Examples.moderate
    (1.5 + primarySin Examples.moderate * (primaryWaveSpeed Examples.moderate * 2))
    (0 + primaryCos Examples.moderate * (primaryWaveSpeed Examples.moderate * 2))
    (0.25 + 2) = primaryPhase Examples.moderate 1.5 0 0.25.
Proof.
  apply (waves_travel_at_phase_speed Examples.moderate 1.5 0 0.25 2).
  simpl. lra.
Defined.

(** At a fixed vertex the primary wave repeats after
    [waveLength / primaryWaveSpeed] seconds, and the secondary wave after
    [0.6 * waveLength / secondaryWaveSpeed], for a non-zero wave length,
    focus width and speeds. *)
Theorem waves_periodic_in_time (config : WaveConfig) (x z time : R) :
  waveLength config <> 0 ->
  canyonFocusWidth config <> 0 ->
  primaryWaveSpeed config <> 0 ->
  secondaryWaveSpeed config <> 0 ->
  primaryWave config x z (time + waveLength config / primaryWaveSpeed config) =
    primaryWave config x z time /\
  secondaryWave config x z
    (time + waveLength config * 0.6 / secondaryWaveSpeed config) =
    secondaryWave config x z time.
Proof.
  intros HL _ Hc1 Hc2. unfold primaryWave, secondaryWave. split; f_equal.
  - replace (primaryPhase config x z
               (time + waveLength config / primaryWaveSpeed config))
      with (primaryPhase config x z time - 2 * PI).
    + rewrite <- (sin_period _ 1). f_equal. simpl. ring.
    + unfold primaryPhase, primaryK. field. split; assumption.
  - replace (secondaryPhase config x z
               (time + waveLength config * 0.6 / secondaryWaveSpeed config))
      with (secondaryPhase config x z time - 2 * PI).
    + rewrite <- (sin_period _ 1). f_equal. simpl. ring.
    + unfold secondaryPhase, secondaryK, secondaryWaveLength. field.
      split; [assumption|lra].
Qed.

Lemma waves_periodic_in_time_witness :
  primaryWave Examples.moderate 1.5 0
    (0.25 + waveLength Examples.moderate / primaryWaveSpeed Examples.moderate) =
  primaryWave Examples.moderate 1.5 0 0.25.
Proof.
  apply (waves_periodic_in_time Examples.moderate 1.5 0 0.25).
  - simpl. lra.
  - simpl. lra.
  - unfold primaryWaveSpeed, gravity. simpl.
    pose proof PI_RGT_0. apply Rgt_not_eq.
    apply Rmult_lt_0_compat; [|lra]. apply Rmult_lt_0_compat; [|lra].
    apply Rdiv_lt_0_compat; lra.
  - unfold secondaryWaveSpeed, gravity. simpl.
    pose proof PI_RGT_0. apply Rgt_not_eq.
    apply Rmult_lt_0_compat; [|lra]. apply Rmult_lt_0_compat; [|lra].
    apply Rdiv_lt_0_compat; lra.
Defined.

End WaveFieldFacts.

(** ** Slopes and foam *)

Module FoamFacts.
Import Js JsFacts Config WaveMesh.
Import WaveFacts CanyonFacts MeshFacts FrameFacts WaveFieldFacts.

Lemma amplitude_cos_bound (amp bound theta : R) :
  0 <= amp <= bound -> Rabs (amp * cos theta) <= bound.
Proof.
  intros Ha. pose proof (COS_bound theta). apply Rabs_le. split; nra.
Qed.

Lemma chop_slope_mix_bound (a1 b1 a2 b2 : R) :
  -0.085 <= cos a1 * 0.08 * cos b1 * 0.5 + cos a2 * 0.15 * cos b2 * 0.3 <= 0.085.
Proof.
  pose proof (COS_bound a1). pose proof (COS_bound b1).
  pose proof (COS_bound a2). pose proof (COS_bound b2).
  assert (-1 <= cos a1 * cos b1 <= 1) by (split; nra).
  assert (-1 <= cos a2 * cos b2 <= 1) by (split; nra).
  lra.
Qed.

Lemma chopSlope_bound (config : WaveConfig) (x z time : R) :
  0 <= windChopMultiplier config ->
  Rabs (chopSlope config x z time) <= 0.085 * (windChopMultiplier config * 3).
Proof.
  intros Hm. unfold chopSlope.
  destruct (Rgt_dec (windChopMultiplier config) 0) as [Hpos|Hnot].
  - cbv zeta.
    match goal with |- Rabs (?mix * _ * 3) <= _ =>
      assert (Hmix : -0.085 <= mix <= 0.085) by apply chop_slope_mix_bound;
      set (m := mix) in * end.
    apply Rabs_le. split; nra.
  - rewrite Rabs_R0. nra.
Qed.

(** The largest steepness the configuration can produce on the grid. *)
Lemma steepness_bound (config : WaveConfig) (x z time : R) :
  0 <= waveHeight config ->
  0 <= secondaryWaveHeight config ->
  0 < waveLength config ->
  1 <= canyonAmplification config ->
  0 < canyonFocusWidth config ->
  0 <= canyonDepthEffect config ->
  0 <= windChopIntensity config ->
  0 <= windSpeed config ->
  -150 <= z <= 150 ->
  0 <= steepness config x z time <=
  (waveHeight config * canyonAmplification config *
     (1 + canyonDepthEffect config) * primaryK config +
   secondaryWaveHeight config * canyonAmplification config * 0.7 *
     secondaryK config +
   0.085 * (windChopMultiplier config * 3)) / gridSpacing.
Proof.
  intros Hwh Hsh HL HA Hw He Hci Hws Hz.
  pose proof (canyonFactor_range config x HA Hw) as Hcf.
  pose proof (depthFactor_range config z He Hz) as Hdf.
  assert (Hmult : 0 <= windChopMultiplier config)
    by (unfold windChopMultiplier; apply Rmult_le_pos; lra).
  pose proof (chopSlope_bound config x z time Hmult) as Hchop.
  pose proof PI_RGT_0 as Hpi.
  assert (Hk1 : 0 < primaryK config).
  { unfold primaryK. apply Rdiv_lt_0_compat; lra. }
  assert (Hk2 : 0 < secondaryK config).
  { unfold secondaryK, secondaryWaveLength. apply Rdiv_lt_0_compat; lra. }
  assert (Hp : Rabs (primarySlope config x z time) <=
               waveHeight config * canyonAmplification config *
               (1 + canyonDepthEffect config) * primaryK config).
  { unfold primarySlope, primaryAmplitude. apply amplitude_cos_bound.
    set (cf := canyonFactor config x) in *. set (df := depthFactor config z) in *.
    assert (0 <= waveHeight config * cf <= waveHeight config * canyonAmplification config)
      by (split; nra).
    assert (0 <= waveHeight config * cf * df <=
            waveHeight config * canyonAmplification config *
            (1 + canyonDepthEffect config)) by (split; nra).
    split; nra. }
  assert (Hs : Rabs (secondarySlope config x z time) <=
               secondaryWaveHeight config * canyonAmplification config * 0.7 *
               secondaryK config).
  { unfold secondarySlope, secondaryAmplitude. apply amplitude_cos_bound.
    set (cf := canyonFactor config x) in *.
    assert (0 <= secondaryWaveHeight config * cf * 0.7 <=
            secondaryWaveHeight config * canyonAmplification config * 0.7)
      by (split; nra).
    split; nra. }
  unfold steepness, totalSlope, gridSpacing.
  set (total := primarySlope config x z time + secondarySlope config x z time +
                chopSlope config x z time).
  assert (Htot : Rabs total <=
                 waveHeight config * canyonAmplification config *
                   (1 + canyonDepthEffect config) * primaryK config +
                 secondaryWaveHeight config * canyonAmplification config * 0.7 *
                   secondaryK config +
                 0.085 * (windChopMultiplier config * 3)).
  { unfold total. eapply Rle_trans; [apply Rabs_triang|].
    eapply Rle_trans; [apply Rplus_le_compat_r, Rabs_triang|]. lra. }
  pose proof (Rabs_pos total). split.
  - apply Rmult_le_pos; [assumption|]. lra.
  - apply Rmult_le_compat_r; [lra|assumption].
Qed.

(** A sea too gentle to break: when the largest steepness the
    configuration can produce stays at or below the foam threshold, a frame
    writes the turbid water colour, without any white, for every vertex of
    the grid. *)
Theorem gentle_sea_has_no_foam (THREE_Color : string -> Color)
    (config : WaveConfig) (delta : R) (st : State) (geo : Geometry) (k : nat) :
  0 <= waveHeight config ->
  0 <= secondaryWaveHeight config ->
  0 < waveLength config ->
  1 <= canyonAmplification config ->
  0 < canyonFocusWidth config ->
  0 <= canyonDepthEffect config ->
  0 <= windChopIntensity config ->
  0 <= windSpeed config ->
  (waveHeight config * canyonAmplification config *
     (1 + canyonDepthEffect config) * primaryK config +
   secondaryWaveHeight config * canyonAmplification config * 0.7 *
     secondaryK config +
   0.085 * (windChopMultiplier config * 3)) / gridSpacing
    <= foamThreshold config ->
  mounted st geo ->
  (3 * k + 2 < length (originalPositions st))%nat ->
  -150 <= get (originalPositions st) (3 * k + 2) <= 150 ->
  exists geo',
    meshRef (useFrame THREE_Color config delta st) = Some geo' /\
    get (color geo') (3 * k) = turbidR config (baseColor THREE_Color config) /\
    get (color geo') (3 * k + 1) = turbidG config (baseColor THREE_Color config) /\
    get (color geo') (3 * k + 2) = turbidB config (baseColor THREE_Color config).
Proof.
  intros Hwh Hsh HL HA Hw He Hci Hws Hgentle Hm Hk Hz.
  destruct (SurfaceFacts.useFrame_colour THREE_Color config delta st geo k 0 Hm)
    as (geo' & Hgeo & H0); [lia|lia|].
  destruct (SurfaceFacts.useFrame_colour THREE_Color config delta st geo k 1 Hm)
    as (geo1 & Hgeo1 & H1); [lia|lia|].
  destruct (SurfaceFacts.useFrame_colour THREE_Color config delta st geo k 2 Hm)
    as (geo2 & Hgeo2 & H2); [lia|lia|].
  assert (geo1 = geo') by congruence. assert (geo2 = geo') by congruence.
  subst geo1 geo2. rewrite Nat.add_0_r in H0.
  exists geo'. split; [exact Hgeo|].
  assert (Hfoam : vertexFoam config (get (originalPositions st) (3 * k))
                    (get (originalPositions st) (3 * k + 2))
                    (clock config delta st) = 0).
  { unfold vertexFoam. apply foamAmount_below_threshold.
    eapply Rle_trans; [|exact Hgentle].
    apply steepness_bound; assumption. }
  rewrite H0, H1, H2, Hfoam. unfold blend. cbn [channel].
  repeat split; ring.
Qed.

Lemma gentle_sea_has_no_foam_witness :
  exists geo',
    meshRef (useFrame Examples.sampleColor Samples.flatSea 0.25
               (mount Examples.twoVertices)) = Some geo' /\
    get (color geo') 0 =
      turbidR Samples.flatSea (baseColor Examples.sampleColor Samples.flatSea) /\
    get (color geo') 1 =
      turbidG Samples.flatSea (baseColor Examples.sampleColor Samples.flatSea) /\
    get (color geo') 2 =
      turbidB Samples.flatSea (baseColor Examples.sampleColor Samples.flatSea).
Proof.
  apply (gentle_sea_has_no_foam Examples.sampleColor Samples.flatSea 0.25
           (mount Examples.twoVertices) (newGeometry Examples.twoVertices) 0).
  - simpl. lra.
  - simpl. lra.
  - simpl. lra.
  - simpl. lra.
  - simpl. lra.
  - simpl. lra.
  - simpl. lra.
  - simpl. lra.
  - unfold windChopMultiplier, foamThreshold, gridSpacing. simpl. lra.
  - apply mount_mounted.
  - simpl. lia.
  - unfold get. simpl. lra.
Defined.

(** Breaking crests are pure white: at full [foamIntensity], and with a
    non-zero wave length, wave height and focus width, a vertex whose
    steepness exceeds the threshold by 0.5 or more gets the colour
    (1, 1, 1), whatever the water colour and clarity. *)
Theorem breaking_crest_is_white (THREE_Color : string -> Color)
    (config : WaveConfig) (delta : R) (st : State) (geo : Geometry) (k : nat) :
  waveLength config <> 0 ->
  waveHeight config <> 0 ->
  canyonFocusWidth config <> 0 ->
  foamIntensity config = 1 ->
  mounted st geo ->
  (3 * k + 2 < length (originalPositions st))%nat ->
  foamThreshold config + 0.5 <=
    steepness config (get (originalPositions st) (3 * k))
      (get (originalPositions st) (3 * k + 2)) (clock config delta st) ->
  exists geo',
    meshRef (useFrame THREE_Color config delta st) = Some geo' /\
    get (color geo') (3 * k) = 1 /\
    get (color geo') (3 * k + 1) = 1 /\
    get (color geo') (3 * k + 2) = 1.
Proof.
  intros _ _ _ Hint Hm Hk Hsteep.
  destruct (SurfaceFacts.useFrame_colour THREE_Color config delta st geo k 0 Hm)
    as (geo' & Hgeo & H0); [lia|lia|].
  destruct (SurfaceFacts.useFrame_colour THREE_Color config delta st geo k 1 Hm)
    as (geo1 & Hgeo1 & H1); [lia|lia|].
  destruct (SurfaceFacts.useFrame_colour THREE_Color config delta st geo k 2 Hm)
    as (geo2 & Hgeo2 & H2); [lia|lia|].
  assert (geo1 = geo') by congruence. assert (geo2 = geo') by congruence.
  subst geo1 geo2. rewrite Nat.add_0_r in H0.
  exists geo'. split; [exact Hgeo|].
  set (s := steepness _ _ _ _) in *.
  assert (Hfoam : vertexFoam config (get (originalPositions st) (3 * k))
                    (get (originalPositions st) (3 * k + 2))
                    (clock config delta st) = 1).
  { unfold vertexFoam. fold s. unfold foamAmount.
    destruct (Rgt_dec s (foamThreshold config)) as [_|Hn]; [|lra].
    rewrite Hint. rewrite (Rmin_left 1 ((s - foamThreshold config) * 2)) by lra.
    set (crest := Rmax 0 _). assert (0 <= crest) by apply Rmax_l.
    apply Rmin_left. lra. }
  rewrite H0, H1, H2, Hfoam. unfold blend. repeat split; ring.
Qed.

Lemma canyonFactor_center (config : WaveConfig) :
  0 < canyonFocusWidth config ->
  canyonFactor config 0 = canyonAmplification config.
Proof.
  intros Hw. unfold canyonFactor, distFromCenter. rewrite Rabs_R0.
  replace (- (0 / 150) * (0 / 150) /
           (canyonFocusWidth config * canyonFocusWidth config)) with 0
    by (field; lra).
  rewrite exp_0. lra.
Qed.

(** The crest through the origin of the frozen breaking sea. *)
Lemma breaking_crest_is_white_witness :
  exists geo',
    meshRef (useFrame Examples.sampleColor Samples.breakingSea 0.25
               (mount Examples.twoVertices)) = Some geo' /\
    get (color geo') 0 = 1 /\
    get (color geo') 1 = 1 /\
    get (color geo') 2 = 1.
Proof.
  apply (breaking_crest_is_white Examples.sampleColor Samples.breakingSea 0.25
           (mount Examples.twoVertices) (newGeometry Examples.twoVertices) 0).
  - simpl. lra.
  - simpl. lra.
  - simpl. lra.
  - reflexivity.
  - apply mount_mounted.
  - simpl. lia.
  - change (get (originalPositions (mount Examples.twoVertices)) (3 * 0)) with 0.
    change (get (originalPositions (mount Examples.twoVertices)) (3 * 0 + 2)) with 0.
    change (clock Samples.breakingSea 0.25 (mount Examples.twoVertices)) with 0.
    unfold steepness, totalSlope, primarySlope, secondarySlope, chopSlope,
      primaryAmplitude, secondaryAmplitude, primaryPhase, secondaryPhase.
    rewrite (canyonFactor_center Samples.breakingSea) by (simpl; lra).
    unfold windChopMultiplier, depthFactor, shoreDistance, primaryK, gridSpacing,
      foamThreshold.
    cbn [Samples.breakingSea waveHeight secondaryWaveHeight windChopIntensity
         canyonAmplification canyonDepthEffect waveLength windSpeed
         Config.foamThreshold].
    destruct (Rgt_dec (0 * (1 + 0 / 20)) 0) as [Hpos|_]; [lra|].
    rewrite !Rmult_0_r, !Rplus_0_l, Rminus_0_r, Rmult_0_r, cos_0.
    pose proof PI_RGT_0 as Hpi.
    match goal with |- _ <= Rabs ?e / _ =>
      replace e with (2.4 * PI) by lra end.
    rewrite Rabs_right by lra.
    assert (Hdiv : 2.4 * PI / (300 / 200) * (300 / 200) = 2.4 * PI)
      by (field; lra).
    pose proof PI2_1. lra.
Defined.

End FoamFacts.

(** ** Runs of frames *)

Module RunFacts.
Import Js JsFacts Config WaveMesh.
Import WaveFacts MeshFacts FrameFacts.

(** The base grid is never overwritten.  After any run of frames on a
    mounted component the stored copy of the grid is intact, the mesh is
    still attached, its two arrays still have the size of the grid, and the
    x and z entries of the position array are those of the grid: frames
    write heights and colours only. *)
Theorem frames_keep_base_grid (THREE_Color : string -> Color)
    (grid : Float32Array) (ticks : list (WaveConfig * R)) :
  let st := frames THREE_Color ticks (mount grid) in
  originalPositions st = grid /\
  exists geo,
    meshRef st = Some geo /\
    length (position geo) = length grid /\
    length (color geo) = length grid /\
    forall j, (j mod 3 <> 1)%nat -> position geo !! j = grid !! j.
Proof.
  intros st.
  destruct (frames_aligned THREE_Color ticks _ (mount_aligned grid)) as [Hal Horig].
  fold st in Hal, Horig. cbn [mount originalPositions] in Horig.
  split; [exact Horig|].
  destruct Hal as (geo & (Hmesh & Hpos & Hcol) & Hxz).
  rewrite Horig in Hpos, Hcol, Hxz. exists geo. repeat split; assumption.
Qed.

Lemma frames_keep_base_grid_witness :
  originalPositions
    (frames Examples.sampleColor [(Examples.moderate, 0.25); (Examples.paused, 3)]
       (mount Examples.twoVertices)) = Examples.twoVertices.
Proof.
  apply (frames_keep_base_grid Examples.sampleColor Examples.twoVertices
           [(Examples.moderate, 0.25); (Examples.paused, 3)]).
Defined.

Lemma state_eq (st1 st2 : State) :
  timeRef st1 = timeRef st2 -> meshRef st1 = meshRef st2 ->
  originalPositions st1 = originalPositions st2 -> st1 = st2.
Proof.
  destruct st1, st2. cbn. intros -> -> ->. reflexivity.
Qed.

(** While the animation is paused the surface is frozen: after one paused
    frame, further frames with the same configuration change nothing at
    all, whatever time passes between them. *)
Theorem paused_frames_are_idempotent (THREE_Color : string -> Color)
    (grid : Float32Array) (history : list (WaveConfig * R))
    (config : WaveConfig) (delta1 delta2 : R) :
  animateWaves config = false ->
  let st := frames THREE_Color history (mount grid) in
  useFrame THREE_Color config delta2 (useFrame THREE_Color config delta1 st) =
  useFrame THREE_Color config delta1 st.
Proof.
  intros Hoff st.
  destruct (frames_aligned THREE_Color history _ (mount_aligned grid)) as [Hal _].
  fold st in Hal.
  pose proof (useFrame_aligned THREE_Color config delta1 st Hal) as Hal'.
  set (st' := useFrame THREE_Color config delta1 st) in *.
  assert (Htime : timeRef st' = timeRef st).
  { unfold st'. rewrite useFrame_timeRef. unfold clock. rewrite Hoff.
    destruct (meshRef st); reflexivity. }
  assert (Hclock : clock config delta1 st = clock config delta2 st').
  { unfold clock. rewrite Hoff. symmetry. exact Htime. }
  destruct (frame_arrays_determined THREE_Color config delta1 delta2 st st'
              Hal Hal') as (geo & Hg1 & Hg2).
  - unfold st'. symmetry. apply useFrame_originalPositions.
  - exact Hclock.
  - fold st' in Hg1. apply state_eq.
    + rewrite useFrame_timeRef. destruct Hal' as (g & (Hm & _) & _).
      rewrite Hm. unfold clock. rewrite Hoff. reflexivity.
    + rewrite Hg2, Hg1. reflexivity.
    + apply useFrame_originalPositions.
Qed.

Lemma paused_frames_are_idempotent_witness :
  let C := Examples.sampleColor in
  let st := frames C [(Examples.moderate, 0.25)] (mount Examples.twoVertices) in
  useFrame C Examples.paused 3 (useFrame C Examples.paused 0.5 st) =
  useFrame C Examples.paused 0.5 st.
Proof.
  intros C st.
  apply (paused_frames_are_idempotent C Examples.twoVertices
           [(Examples.moderate, 0.25)] Examples.paused 0.5 3).
  reflexivity.
Defined.

End RunFacts.

(** ** The water material *)

Module MaterialFacts.
Import Config WaveMaterial.

(** With [waterClarity] in [0, 1] the material settings are valid: the
    opacity lies in [0.85, 1], the roughness in [0.1, 1] and the metalness
    in [0, 0.1]; the wireframe is opaque and fully rough, and the solid
    surface is the one that is transparent and uses the vertex colours.
    On the solid surface clearer water is more opaque and smoother. *)
Theorem material_settings_valid (config : WaveConfig) :
  0 <= waterClarity config <= 1 ->
  0.85 <= opacity config <= 1 /\
  0.1 <= roughness config <= 1 /\
  0 <= metalness config <= 0.1 /\
  (wireframe config = true ->
   opacity config = 1 /\ roughness config = 1 /\
   transparent config = false /\ vertexColors config = false) /\
  (wireframe config = false ->
   transparent config = true /\ vertexColors config = true /\
   (forall other, wireframe other = false ->
      waterClarity config <= waterClarity other ->
      opacity config <= opacity other /\ roughness other <= roughness config)).
Proof.
  intros Hc. unfold opacity, roughness, metalness, transparent, vertexColors.
  destruct (wireframe config) eqn:Hw.
  - repeat split; try lra; discriminate.
  - split; [lra|]. split; [lra|]. split; [lra|]. split; [discriminate|].
    intros _. split; [reflexivity|]. split; [reflexivity|].
    intros other Hother Hle. rewrite Hother. lra.
Qed.

Lemma material_settings_valid_witness :
  0.85 <= opacity Samples.flatSea <= 1.
Proof.
  apply (material_settings_valid Samples.flatSea). simpl. lra.
Defined.

End MaterialFacts.

(** ** Noise and displaced terrain *)

Module ReliefFacts.
Import Js JsFacts Shore ShoreFacts TerrainFacts.

Lemma seededRandom_unit (seed : R) : 0 <= seededRandom seed < 1.
Proof.
  unfold seededRandom. cbv zeta.
  pose proof (Math_floor_spec (sin seed * 10000)). lra.
Qed.

Lemma seededRandom_zero : seededRandom 0 = 0.
Proof.
  unfold seededRandom. cbv zeta. rewrite sin_0.
  replace (0 * 10000) with 0 by lra. rewrite Math_floor_0. lra.
Qed.

Lemma triple_mod (k d : nat) : (d < 3)%nat -> ((3 * k + d) mod 3 = d)%nat.
Proof.
  intros Hd. symmetry. apply (Nat.mod_unique _ 3 k d); lia.
Qed.

(** The noise is bounded: [noise3D] stays within [-1.75, 1.75] everywhere,
    and so does [fbm] for any number of octaves from one up, the
    normalisation by the summed amplitudes keeping the octaves from adding
    up. *)
Theorem noise_is_bounded (octaves : nat) :
  (0 < octaves)%nat ->
  (forall x y z, -1.75 <= noise3D x y z <= 1.75) /\
  (forall x y, -1.75 <= fbm x y octaves <= 1.75).
Proof.
  intros Hoct. split.
  - apply noise3D_bound.
  - intros x y. apply fbm_bound. exact Hoct.
Qed.

Lemma noise_is_bounded_witness : -1.75 <= fbm 0.3 0.4 4 <= 1.75.
Proof.
  apply (noise_is_bounded 4). lia.
Defined.

(** *** The cliff face *)

(** The depth stored for a vertex at plane coordinates [(x, y)]. *)
Lemma displaceCliff_depth ht sd da (a : Float32Array) (k : nat) :
  (3 * k + 2 < length a)%nat ->
  let x := get a (3 * k) in
  let y := get a (3 * k + 1) in
  get (displaceCliff ht sd da a) (3 * k + 2) =
  fbm (x * 0.03 + sd) (y * 0.04) 3 * da +
  fbm (x * 0.1 + sd) (y * 0.12) 2 * (da * 0.4) +
  fbm (x * 0.3 + sd) (y * 0.35) 2 * (da * 0.15) +
  Rmax 0 (1 - (y + ht / 2) / (ht * 0.4)) *
    fbm (x * 0.15 + sd) (y * 0.1) 2 * (da * 0.5) -
  Rmax 0 ((y - ht * 0.3) / (ht * 0.2)) *
    fbm (x * 0.08 + sd) (y * 0.05) 2 * (da * 0.3) +
  sin (x * 0.4 + sd) * sin (y * 0.2) * (da * 0.15).
Proof.
  intros Hk x y. apply get_lookup.
  destruct (displaceCliff_z ht sd da a k Hk) as (depth & Hd & Hv).
  rewrite Hd, <- Hv. unfold cliffVertex, set. cbv zeta.
  apply list_lookup_insert_eq. exact Hk.
Qed.

Lemma erosion_weight (ht y : R) :
  0 < ht -> - (ht / 2) <= y ->
  0 <= Rmax 0 (1 - (y + ht / 2) / (ht * 0.4)) <= 1 /\
  (- (0.1 * ht) <= y -> Rmax 0 (1 - (y + ht / 2) / (ht * 0.4)) = 0).
Proof.
  intros Hh Hy.
  assert (Hq : (y + ht / 2) / (ht * 0.4) * (ht * 0.4) = y + ht / 2) by (field; lra).
  set (q := (y + ht / 2) / (ht * 0.4)) in *.
  assert (0 <= q) by nra.
  split.
  - split; [apply Rmax_l|]. apply Rmax_lub; lra.
  - intros Hmid. apply Rmax_left. assert (1 <= q) by nra. lra.
Qed.

Lemma overhang_weight (ht y : R) :
  0 < ht -> y <= ht / 2 ->
  0 <= Rmax 0 ((y - ht * 0.3) / (ht * 0.2)) <= 1 /\
  (y <= 0.3 * ht -> Rmax 0 ((y - ht * 0.3) / (ht * 0.2)) = 0).
Proof.
  intros Hh Hy.
  assert (Hq : (y - ht * 0.3) / (ht * 0.2) * (ht * 0.2) = y - ht * 0.3) by (field; lra).
  set (q := (y - ht * 0.3) / (ht * 0.2)) in *.
  assert (q <= 1) by nra.
  split.
  - split; [apply Rmax_l|]. apply Rmax_lub; lra.
  - intros Hmid. apply Rmax_left. nra.
Qed.

Lemma weighted_noise_bound (w n amp : R) :
  0 <= w <= 1 -> -1.75 <= n <= 1.75 -> 0 <= amp ->
  - (1.75 * amp) <= w * n * amp <= 1.75 * amp.
Proof.
  intros Hw Hn Ha.
  assert (-1.75 <= w * n <= 1.75) by (split; nra).
  split; nra.
Qed.

(** The cliff relief.  For a positive [height] and a non-negative
    [displaceAmount], every vertex of the plane (|y| <= height / 2) keeps
    its x and y and gets a depth of at most [3.7375 * displaceAmount] in
    absolute value.  Erosion only carves the lower 40 % of the face and
    overhangs only the upper 20 %: in between, the depth is the sum of the
    three fbm scales and the cracks alone. *)
Theorem cliff_relief (PlaneGeometry : R -> R -> R -> R -> Float32Array)
    (width height segX segY seed displaceAmount : R) (h : Heap) (k : nat) :
  0 < height ->
  0 <= displaceAmount ->
  let base := PlaneGeometry width height segX segY in
  let made := createCliffGeometry PlaneGeometry width height segX segY seed
                displaceAmount h in
  let cliff := deref (snd made) (fst made) in
  let x := get base (3 * k) in
  let y := get base (3 * k + 1) in
  (3 * k + 2 < length base)%nat ->
  - (height / 2) <= y <= height / 2 ->
  get cliff (3 * k) = x /\
  get cliff (3 * k + 1) = y /\
  Rabs (get cliff (3 * k + 2)) <= 3.7375 * displaceAmount /\
  (- (0.1 * height) <= y <= 0.3 * height ->
   get cliff (3 * k + 2) =
   fbm (x * 0.03 + seed) (y * 0.04) 3 * displaceAmount +
   fbm (x * 0.1 + seed) (y * 0.12) 2 * (displaceAmount * 0.4) +
   fbm (x * 0.3 + seed) (y * 0.35) 2 * (displaceAmount * 0.15) +
   sin (x * 0.4 + seed) * sin (y * 0.2) * (displaceAmount * 0.15)).
Proof.
  intros Hh Hd base made cliff x y Hk Hy.
  assert (Hcliff : cliff = displaceCliff height seed displaceAmount base).
  { unfold cliff, made. rewrite createCliffGeometry_heap. cbn [fst snd].
    apply deref_alloc. }
  rewrite Hcliff.
  assert (Hx : get (displaceCliff height seed displaceAmount base) (3 * k) = x).
  { apply get_ext, displaceCliff_xy.
    replace (3 * k)%nat with (3 * k + 0)%nat by lia. rewrite triple_mod; lia. }
  assert (Hyy : get (displaceCliff height seed displaceAmount base) (3 * k + 1) = y).
  { apply get_ext, displaceCliff_xy. rewrite triple_mod; lia. }
  split; [exact Hx|]. split; [exact Hyy|].
  rewrite (displaceCliff_depth height seed displaceAmount base k Hk). cbv zeta.
  fold x y.
  destruct (erosion_weight height y Hh ltac:(lra)) as [He He0].
  destruct (overhang_weight height y Hh ltac:(lra)) as [Ho Ho0].
  set (erosion := Rmax 0 (1 - (y + height / 2) / (height * 0.4))) in *.
  set (overhang := Rmax 0 ((y - height * 0.3) / (height * 0.2))) in *.
  pose proof (fbm_bound (x * 0.03 + seed) (y * 0.04) 3 ltac:(lia)) as Hl.
  pose proof (fbm_bound (x * 0.1 + seed) (y * 0.12) 2 ltac:(lia)) as Hm.
  pose proof (fbm_bound (x * 0.3 + seed) (y * 0.35) 2 ltac:(lia)) as Hs.
  pose proof (fbm_bound (x * 0.15 + seed) (y * 0.1) 2 ltac:(lia)) as Hfe.
  pose proof (fbm_bound (x * 0.08 + seed) (y * 0.05) 2 ltac:(lia)) as Hfo.
  assert (Hc : -1 <= sin (x * 0.4 + seed) * sin (y * 0.2) <= 1).
  { pose proof (SIN_bound (x * 0.4 + seed)). pose proof (SIN_bound (y * 0.2)).
    split; nra. }
  set (large := fbm (x * 0.03 + seed) (y * 0.04) 3) in *.
  set (medium := fbm (x * 0.1 + seed) (y * 0.12) 2) in *.
  set (small := fbm (x * 0.3 + seed) (y * 0.35) 2) in *.
  set (fe := fbm (x * 0.15 + seed) (y * 0.1) 2) in *.
  set (fo := fbm (x * 0.08 + seed) (y * 0.05) 2) in *.
  set (cracks := sin (x * 0.4 + seed) * sin (y * 0.2)) in *.
  pose proof (weighted_noise_bound erosion fe (displaceAmount * 0.5) He Hfe
                ltac:(lra)) as Hbe.
  pose proof (weighted_noise_bound overhang fo (displaceAmount * 0.3) Ho Hfo
                ltac:(lra)) as Hbo.
  split.
  - apply Rabs_le.
    destruct (Rle_dec y (0.3 * height)) as [Hlow|Hhigh].
    + rewrite (Ho0 Hlow) in *. split; nra.
    + rewrite (He0 ltac:(lra)) in *. split; nra.
  - intros Hmid. rewrite (He0 ltac:(lra)), (Ho0 ltac:(lra)). ring.
Qed.

Lemma cliff_relief_witness :
  let Plane := fun (_ _ _ _ : R) => [1; 2; 0] in
  let made := createCliffGeometry Plane 420 55 100 28 0 18 [] in
  get (deref (snd made) (fst made)) 0 = 1.
Proof.
  intros Plane made.
  apply (cliff_relief Plane 420 55 100 28 0 18 [] 0).
  - lra.
  - lra.
  - simpl. lia.
  - unfold get. simpl. lra.
Defined.

(** *** Rocks *)

(** The three coordinates of vertex [k] after the rock loop. *)
Lemma displaceRock_vertex sd fb sx sz (a : Float32Array) (k : nat) :
  (3 * k + 2 < length a)%nat ->
  let x := get a (3 * k) in
  let y := get a (3 * k + 1) in
  let z := get a (3 * k + 2) in
  let displacement := 1 + fbm (x * 0.08 + sd) (y * 0.1 + z * 0.08 + sd) 3 * 0.3 in
  let angular := 1 + sin (x * 2 + sd) * cos (z * 2 + sd) * 0.1 in
  get (displaceRock sd fb sx sz a) (3 * k) = x * displacement * angular * sx /\
  get (displaceRock sd fb sx sz a) (3 * k + 1) =
    y * (if Rlt_dec y 0 then fb else 1.0) * displacement * 0.85 /\
  get (displaceRock sd fb sx sz a) (3 * k + 2) = z * displacement * angular * sz.
Proof.
  intros Hk x y z displacement angular.
  assert (Hlook : forall d, (d < 3)%nat ->
            displaceRock sd fb sx sz a !! (3 * k + d)%nat =
            rockVertex sd fb sx sz (3 * k) a !! (3 * k + d)%nat).
  { intros d Hd. unfold displaceRock.
    rewrite (for_stride3_lookup _
               (fun k => rockVertex_length sd fb sx sz (3 * k))
               (fun k => rockVertex_frame sd fb sx sz (3 * k))
               (fun k => rockVertex_local sd fb sx sz (3 * k))).
    rewrite (triple_div k d) by lia. reflexivity. }
  split; [|split]; apply get_lookup.
  - replace (3 * k)%nat with (3 * k + 0)%nat at 1 by lia.
    rewrite Hlook by lia. rewrite Nat.add_0_r.
    unfold rockVertex, set. cbv zeta.
    rewrite !list_lookup_insert_ne by lia.
    apply list_lookup_insert_eq. lia.
  - rewrite Hlook by lia. unfold rockVertex, set. cbv zeta.
    rewrite list_lookup_insert_ne by lia.
    apply list_lookup_insert_eq. rewrite length_insert. lia.
  - rewrite Hlook by lia. unfold rockVertex, set. cbv zeta.
    apply list_lookup_insert_eq. rewrite !length_insert. lia.
Qed.

Lemma scaled_between (v f lo hi : R) :
  0 < lo -> lo <= f <= hi ->
  lo * Rabs v <= Rabs (v * f) <= hi * Rabs v /\ 0 <= v * (v * f).
Proof.
  intros Hlo Hf. rewrite Rabs_mult, (Rabs_right f) by lra.
  pose proof (Rabs_pos v). repeat split; nra.
Qed.

(** A rock keeps its shape.  For positive stretches every vertex stays on
    its side of the vertical axis, its x and z are scaled by a factor
    between 0.4275 and 1.6775 times the stretch of that axis, and a vertex
    of the upper half keeps a height between 0.40375 and 1.29625 times the
    one it had: the displacement never collapses the rock or turns it
    inside out. *)
Theorem rock_shape_is_kept (IcosahedronGeometry : R -> R -> Float32Array)
    (baseSize detail seed flattenBottom stretchX stretchZ : R) (h : Heap)
    (k : nat) :
  0 < stretchX ->
  0 < stretchZ ->
  let base := IcosahedronGeometry baseSize detail in
  let made := createRockGeometry IcosahedronGeometry baseSize detail seed
                flattenBottom stretchX stretchZ h in
  let rock := deref (snd made) (fst made) in
  let x := get base (3 * k) in
  let y := get base (3 * k + 1) in
  let z := get base (3 * k + 2) in
  (3 * k + 2 < length base)%nat ->
  (0.4275 * stretchX * Rabs x <= Rabs (get rock (3 * k))
     <= 1.6775 * stretchX * Rabs x /\
   0 <= x * get rock (3 * k)) /\
  (0.4275 * stretchZ * Rabs z <= Rabs (get rock (3 * k + 2))
     <= 1.6775 * stretchZ * Rabs z /\
   0 <= z * get rock (3 * k + 2)) /\
  (0 <= y -> 0.40375 * y <= get rock (3 * k + 1) <= 1.29625 * y).
Proof.
  intros Hsx Hsz base made rock x y z Hk.
  assert (Hrock : rock = displaceRock seed flattenBottom stretchX stretchZ base).
  { unfold rock, made. rewrite createRockGeometry_heap. cbn [fst snd].
    apply deref_alloc. }
  rewrite Hrock.
  destruct (displaceRock_vertex seed flattenBottom stretchX stretchZ base k Hk)
    as (Hx & Hy & Hz).
  cbv zeta in Hx, Hy, Hz. fold x y z in Hx, Hy, Hz. rewrite Hx, Hy, Hz.
  pose proof (fbm_bound (x * 0.08 + seed) (y * 0.1 + z * 0.08 + seed) 3
                ltac:(lia)) as Hf.
  pose proof (ShoreFacts.sin_cos_bound (x * 2 + seed) (z * 2 + seed)) as Ha.
  set (d := 1 + fbm _ _ 3 * 0.3) in *.
  set (a := 1 + sin _ * cos _ * 0.1) in *.
  assert (Hd : 0.475 <= d <= 1.525) by (unfold d; lra).
  assert (Haa : 0.9 <= a <= 1.1) by (unfold a; lra).
  assert (Hda : 0.4275 <= d * a <= 1.6775) by (split; nra).
  split; [|split].
  - replace (x * d * a * stretchX) with (x * (d * a * stretchX)) by ring.
    apply scaled_between; [nra|]. split; nra.
  - replace (z * d * a * stretchZ) with (z * (d * a * stretchZ)) by ring.
    apply scaled_between; [nra|]. split; nra.
  - intros Hy0. destruct (Rlt_dec y 0) as [Hneg|_]; [lra|]. split; nra.
Qed.

Lemma rock_shape_is_kept_witness :
  let Ico := fun (_ _ : R) => [1; 2; -3] in
  let made := createRockGeometry Ico 35 4 400 0.3 1.4 1.2 [] in
  0.40375 * 2 <= get (deref (snd made) (fst made)) 1 <= 1.29625 * 2.
Proof.
  intros Ico made.
  destruct (rock_shape_is_kept Ico 35 4 400 0.3 1.4 1.2 [] 0) as (_ & _ & Hy).
  - lra.
  - lra.
  - simpl. lia.
  - apply Hy. unfold get. simpl. lra.
Defined.

End ReliefFacts.

(** ** Cliff top and beach *)

Module GroundFacts.
Import Js JsFacts Shore ShoreFacts.
Import ReliefFacts.

(** *** The cliff top *)

Lemma cliffTopVertex_length (i : nat) (a : Float32Array) :
  length (CliffTop.cliffTopVertex i a) = length a.
Proof. unfold CliffTop.cliffTopVertex. cbv zeta. apply length_set. Qed.

Lemma cliffTopVertex_frame (i : nat) (a : Float32Array) (j : nat) :
  (j < i \/ i + 3 <= j)%nat -> CliffTop.cliffTopVertex i a !! j = a !! j.
Proof. intros Hj. unfold CliffTop.cliffTopVertex. stores_elsewhere. Qed.

Lemma cliffTopVertex_local (i : nat) (a a' : Float32Array) (j : nat) :
  length a = length a' ->
  (forall j', (i <= j' < i + 3)%nat -> a !! j' = a' !! j') ->
  (i <= j < i + 3)%nat ->
  CliffTop.cliffTopVertex i a !! j = CliffTop.cliffTopVertex i a' !! j.
Proof.
  intros Hlen Hloc Hj. unfold CliffTop.cliffTopVertex. cbv zeta.
  rewrite (get_ext a a' i) by (apply Hloc; lia).
  rewrite (get_ext a a' (i + 1)) by (apply Hloc; lia).
  apply set_lookup_cong; [exact Hlen|]. apply Hloc. exact Hj.
Qed.

Lemma cliffTopRelief_lookup (a : Float32Array) (j : nat) :
  CliffTop.cliffTopRelief a !! j = CliffTop.cliffTopVertex (3 * (j / 3)) a !! j.
Proof.
  unfold CliffTop.cliffTopRelief.
  apply (for_stride3_lookup _
           (fun k => cliffTopVertex_length (3 * k))
           (fun k => cliffTopVertex_frame (3 * k))
           (fun k => cliffTopVertex_local (3 * k))).
Qed.

(** The rolling terrain above the cliffs is gentle: before the final
    rotation every vertex of the plane keeps its two plane coordinates and
    gets a height of at most 19.25 in absolute value. *)
Theorem cliffTop_relief_bounded
    (PlaneGeometry : R -> R -> R -> R -> Float32Array)
    (rotateX : R -> Float32Array -> Float32Array) (k : nat) :
  let base := PlaneGeometry 420 120 70 40 in
  (3 * k + 2 < length base)%nat ->
  exists relief,
    CliffTop.cliffTopGeo PlaneGeometry rotateX = rotateX (- PI / 2) relief /\
    length relief = length base /\
    get relief (3 * k) = get base (3 * k) /\
    get relief (3 * k + 1) = get base (3 * k + 1) /\
    Rabs (get relief (3 * k + 2)) <= 19.25.
Proof.
  intros base Hk. exists (CliffTop.cliffTopRelief base).
  split; [reflexivity|]. split.
  { unfold CliffTop.cliffTopRelief.
    apply (for_stride3_length _ (fun k => cliffTopVertex_length (3 * k))). }
  split; [|split].
  - apply get_ext. rewrite cliffTopRelief_lookup.
    unfold CliffTop.cliffTopVertex. cbv zeta.
    apply list_lookup_insert_ne. pose proof (Nat.div_mod_eq (3 * k) 3).
    replace (3 * k)%nat with (3 * k + 0)%nat by lia.
    rewrite (triple_div k 0) by lia. lia.
  - apply get_ext. rewrite cliffTopRelief_lookup, (triple_div k 1) by lia.
    unfold CliffTop.cliffTopVertex. cbv zeta.
    apply list_lookup_insert_ne. lia.
  - rewrite (get_lookup _ _
               (fbm (get base (3 * k) * 0.015) (get base (3 * k + 1) * 0.02) 4 * 8 +
                fbm (get base (3 * k) * 0.05) (get base (3 * k + 1) * 0.06) 2 * 3)).
    + pose proof (fbm_bound (get base (3 * k) * 0.015)
                    (get base (3 * k + 1) * 0.02) 4 ltac:(lia)).
      pose proof (fbm_bound (get base (3 * k) * 0.05)
                    (get base (3 * k + 1) * 0.06) 2 ltac:(lia)).
      apply Rabs_le. lra.
    + rewrite cliffTopRelief_lookup, (triple_div k 2) by lia.
      unfold CliffTop.cliffTopVertex, set. cbv zeta.
      apply list_lookup_insert_eq. exact Hk.
Qed.

Lemma cliffTop_relief_bounded_witness :
  let Plane := fun (_ _ _ _ : R) => [-210; 60; 0] in
  let turn := fun (_ : R) (a : Float32Array) => a in
  exists relief,
    CliffTop.cliffTopGeo Plane turn = turn (- PI / 2) relief /\
    length relief = length (Plane 420 120 70 40) /\
    get relief 0 = get (Plane 420 120 70 40) 0 /\
    get relief 1 = get (Plane 420 120 70 40) 1 /\
    Rabs (get relief 2) <= 19.25.
Proof.
  intros Plane turn.
  apply (cliffTop_relief_bounded Plane turn 0). simpl. lia.
Defined.

(** *** The beach *)

Import Beach.

Lemma beachHeight_length depth (i : nat) (a : Float32Array) :
  length (beachHeight depth i a) = length a.
Proof. unfold beachHeight. cbv zeta. apply length_set. Qed.

Lemma beachHeight_frame depth (i : nat) (a : Float32Array) (j : nat) :
  (j < i \/ i + 3 <= j)%nat -> beachHeight depth i a !! j = a !! j.
Proof. intros Hj. unfold beachHeight. stores_elsewhere. Qed.

Lemma beachHeight_local depth (i : nat) (a a' : Float32Array) (j : nat) :
  length a = length a' ->
  (forall j', (i <= j' < i + 3)%nat -> a !! j' = a' !! j') ->
  (i <= j < i + 3)%nat ->
  beachHeight depth i a !! j = beachHeight depth i a' !! j.
Proof.
  intros Hlen Hloc Hj. unfold beachHeight. cbv zeta.
  rewrite (get_ext a a' i) by (apply Hloc; lia).
  rewrite (get_ext a a' (i + 1)) by (apply Hloc; lia).
  apply set_lookup_cong; [exact Hlen|]. apply Hloc. exact Hj.
Qed.

(** The height loop never touches the plane coordinates. *)
Lemma fold_beachHeight_plane depth (n : nat) (a : Float32Array) (j : nat) :
  (j mod 3 <> 2)%nat ->
  fold_left (fun s k => beachHeight depth (3 * k) s) (seq 0 n) a !! j = a !! j.
Proof.
  intros Hj.
  rewrite (fold_stride3_lookup _
             (fun k => beachHeight_length depth (3 * k))
             (fun k => beachHeight_frame depth (3 * k))
             (fun k => beachHeight_local depth (3 * k))).
  destruct (j <? 3 * n)%nat; [|reflexivity].
  unfold beachHeight, set. cbv zeta. apply list_lookup_insert_ne.
  pose proof (Nat.div_mod_eq j 3). lia.
Qed.

Lemma beachColors_length depth p (i : nat) (a : Float32Array) :
  length (beachColors depth p i a) = length a.
Proof. unfold beachColors. cbv zeta. rewrite !length_set. reflexivity. Qed.

Lemma beachColors_frame depth p (k : nat) (a : Float32Array) (j : nat) :
  (j < 3 * k \/ 3 * k + 3 <= j)%nat ->
  beachColors depth p (3 * k) a !! j = a !! j.
Proof.
  intros Hj. unfold beachColors, set. cbv zeta.
  rewrite MeshFacts.vertexIndex_triple.
  rewrite !list_lookup_insert_ne by lia. reflexivity.
Qed.

Lemma beachColors_local depth p (k : nat) (a a' : Float32Array) (j : nat) :
  length a = length a' ->
  (forall j', (3 * k <= j' < 3 * k + 3)%nat -> a !! j' = a' !! j') ->
  (3 * k <= j < 3 * k + 3)%nat ->
  beachColors depth p (3 * k) a !! j = beachColors depth p (3 * k) a' !! j.
Proof.
  intros Hlen Hloc Hj. unfold beachColors. cbv zeta.
  repeat (apply set_lookup_cong; [rewrite ?length_set; exact Hlen|]).
  apply Hloc. exact Hj.
Qed.

(** The loop over both arrays is the height loop on the plane together
    with the colour loop reading the untouched plane coordinates. *)
Lemma beach_loop_split depth (n : nat) (p c : Float32Array) :
  fold_left (fun s k => beachVertex depth (3 * k) s) (seq 0 n) (p, c) =
  (fold_left (fun s k => beachHeight depth (3 * k) s) (seq 0 n) p,
   fold_left (fun s k => beachColors depth p (3 * k) s) (seq 0 n) c).
Proof.
  induction n as [|n IH]; [reflexivity|].
  rewrite !seq_S, !fold_left_app. cbn [fold_left Nat.add]. rewrite IH.
  set (p' := fold_left _ (seq 0 n) p). set (c' := fold_left _ (seq 0 n) c).
  unfold beachVertex, beachHeight, beachColors, wetness. cbv zeta.
  assert (Hz : get p' (3 * n + 1) = get p (3 * n + 1)).
  { apply get_ext, fold_beachHeight_plane. rewrite triple_mod; lia. }
  rewrite Hz. reflexivity.
Qed.

Lemma wetness_range (depth z : R) : 0 <= wetness depth z <= 1.
Proof.
  unfold wetness. split; [apply Rmax_l|].
  apply Rmax_lub; [lra|apply Rmin_l].
Qed.

Lemma wetness_linear (depth z : R) :
  0 < depth -> - (depth / 2) <= z <= depth / 2 ->
  wetness depth z = 1 / 2 - z / depth.
Proof.
  intros Hd Hz. unfold wetness.
  assert (Hq : z / depth * depth = z) by (field; lra).
  set (q := z / depth) in *.
  replace (1 - (z + depth / 2) / depth) with (1 / 2 - q)
    by (unfold q; field; lra).
  assert (-1 / 2 <= q <= 1 / 2) by (split; nra).
  rewrite Rmin_right by lra. apply Rmax_right. lra.
Qed.

(** The beach.  Every vertex gets one wetness value in all three colour
    channels, within [0, 1] for a non-zero depth; across the beach
    ([depth > 0], |z| <= depth / 2) it falls linearly from 1 at the water
    edge to 0 at the dry edge, [1/2 - z / depth].  Before the final
    rotation the sand height lies between -8.3 and 0.3 there. *)
Theorem beach_profile (PlaneGeometry : R -> R -> R -> R -> Float32Array)
    (rotateX : R -> Float32Array -> Float32Array)
    (width depth segX segY : R) (k : nat) :
  let base := PlaneGeometry width depth segX segY in
  let geo := createBeachGeometry PlaneGeometry rotateX width depth segX segY in
  let z := get base (3 * k + 1) in
  (3 * k + 2 < length base)%nat ->
  length (color geo) = length base /\
  (get (color geo) (3 * k) = wetness depth z /\
   get (color geo) (3 * k + 1) = wetness depth z /\
   get (color geo) (3 * k + 2) = wetness depth z) /\
  (depth <> 0 -> 0 <= wetness depth z <= 1) /\
  (0 < depth -> - (depth / 2) <= z <= depth / 2 ->
   wetness depth z = 1 / 2 - z / depth /\
   exists sand,
     position geo = rotateX (- PI / 2) sand /\
     -8.3 <= get sand (3 * k + 2) <= 0.3).
Proof.
  intros base geo z Hk.
  assert (Hgeo : geo =
    {| position := rotateX (- PI / 2)
         (for_stride3 (length base) (beachHeight depth) base);
       color := for_stride3 (length base) (beachColors depth base)
                  (repeat 0 (length base)) |}).
  { unfold geo, createBeachGeometry, beachBuffers. fold base.
    unfold for_stride3. rewrite beach_loop_split. reflexivity. }
  rewrite Hgeo. cbn [color position].
  set (zeros := repeat 0 (length base)).
  assert (Hzl : length zeros = length base) by apply repeat_length.
  assert (Hcol : forall d, (d < 3)%nat ->
            get (for_stride3 (length base) (beachColors depth base) zeros)
                (3 * k + d) = wetness depth z).
  { intros d Hd. apply get_lookup. rewrite <- Hzl.
    rewrite (for_stride3_lookup _
               (fun k => beachColors_length depth base (3 * k))
               (beachColors_frame depth base)
               (beachColors_local depth base)).
    rewrite (triple_div k d) by lia.
    unfold beachColors, set. cbv zeta. rewrite MeshFacts.vertexIndex_triple.
    fold z.
    destruct d as [|[|[|d]]]; [| | |lia].
    - rewrite !list_lookup_insert_ne by lia. rewrite Nat.add_0_r.
      apply list_lookup_insert_eq. lia.
    - rewrite list_lookup_insert_ne by lia.
      apply list_lookup_insert_eq. rewrite length_insert. lia.
    - apply list_lookup_insert_eq. rewrite !length_insert. lia. }
  split.
  { rewrite <- Hzl at 1.
    rewrite (for_stride3_length _
               (fun k => beachColors_length depth base (3 * k))).
    exact Hzl. }
  split.
  { pose proof (Hcol 0%nat ltac:(lia)) as H0. rewrite Nat.add_0_r in H0.
    split; [exact H0|]. split; apply Hcol; lia. }
  split; [intros _; apply wetness_range|].
  intros Hd Hz. split; [apply wetness_linear; assumption|].
  eexists. split; [reflexivity|].
  rewrite (get_lookup _ _
             ((z / depth) * 8 - 4 +
              sin (get base (3 * k) * 0.2) * cos (z * 0.3) * 0.3)).
  - assert (Hq : z / depth * depth = z) by (field; lra).
    set (q := z / depth) in *.
    assert (-1 / 2 <= q <= 1 / 2) by (split; nra).
    pose proof (ShoreFacts.sin_cos_bound (get base (3 * k) * 0.2) (z * 0.3)).
    lra.
  - rewrite (for_stride3_lookup _
               (fun k => beachHeight_length depth (3 * k))
               (fun k => beachHeight_frame depth (3 * k))
               (fun k => beachHeight_local depth (3 * k))).
    rewrite (triple_div k 2) by lia.
    unfold beachHeight, set. cbv zeta. fold z.
    apply list_lookup_insert_eq. exact Hk.
Qed.

Lemma beach_profile_witness :
  let Plane := fun (_ _ _ _ : R) => [0; -12.5; 0] in
  let turn := fun (_ : R) (a : Float32Array) => a in
  0 <= wetness 25 (get (Plane 100 25 40 15) 1) <= 1.
Proof.
  intros Plane turn.
  destruct (beach_profile Plane turn 100 25 40 15 0) as (_ & _ & Hw & _).
  - simpl. lia.
  - apply Hw. lra.
Defined.

End GroundFacts.

(** ** Placed scenery *)

Module PlacementFacts.
Import Js JsNum JsFacts Shore ShoreFacts.
Import ReliefFacts.

Lemma ltb_true (x y : R) : ltb x y = true <-> x < y.
Proof. unfold ltb. destruct (Rlt_dec x y); split; (lra || discriminate || auto). Qed.

Lemma ltb_false (x y : R) : ltb x y = false <-> y <= x.
Proof. unfold ltb. destruct (Rlt_dec x y); split; (lra || discriminate || auto). Qed.

Lemma Int_part_1 : Int_part 1 = 1%Z.
Proof. symmetry. apply Int_part_spec. lra. Qed.

Lemma omap_length_le {A B : Type} (f : A -> option B) (l : list A) :
  (length (omap f l) <= length l)%nat.
Proof.
  induction l as [|a l IH]; [reflexivity|]. cbn.
  destruct (f a); cbn; lia.
Qed.

Lemma Forall_omap {A B : Type} (f : A -> option B) (P : B -> Prop) (l : list A) :
  (forall a b, f a = Some b -> P b) -> Forall P (omap f l).
Proof.
  intros Hf. induction l as [|a l IH]; [constructor|]. cbn.
  destruct (f a) as [b|] eqn:Hfa; [constructor; [eapply Hf; eauto|exact IH]|exact IH].
Qed.

(** *** Rocks at the waterline *)

Import WaterRocks.

Lemma waterRock_placed (index : nat) (rock : Rock) :
  waterRock index = Some rock -> placedWaterRock rock.
Proof.
  unfold waterRock. cbv zeta.
  set (i := INR index).
  pose proof (seededRandom_unit (i * 7)) as Hx.
  pose proof (seededRandom_unit (i * 7 + 1)) as Hz.
  pose proof (seededRandom_unit (i * 7 + 2)) as Hs.
  pose proof (seededRandom_unit (i * 11)) as Hr1.
  pose proof (seededRandom_unit (i * 11 + 1)) as Hr2.
  pose proof (seededRandom_unit (i * 11 + 2)) as Hr3.
  pose proof PI_RGT_0 as Hpi.
  destruct (ltb (-130) _ && ltb _ (-30)) eqn:Hskip; [discriminate|].
  intros [= <-]. unfold placedWaterRock. cbn.
  apply andb_false_iff in Hskip.
  rewrite !ltb_false in Hskip.
  repeat split; try lra; try nra.
  - destruct (ltb 4 _) eqn:H4; [apply ltb_true in H4; lra|discriminate].
  - intros H4. apply ltb_true in H4. rewrite H4. reflexivity.
  - destruct (ltb 4 _) eqn:H4; [discriminate|apply ltb_false in H4; lra].
  - intros H4. apply ltb_false in H4. rewrite H4. reflexivity.
Qed.

(** The rocks at the waterline.  Every rock the loop places lies on the
    shore strip (x in [-160, 160), z in [128, 156)) and outside the fort
    promontory (never with -130 < x < -30), sits at a height between -7.2
    and -6.3, lower the larger it is, has a size in [2, 8) with the flat
    scale (1.5, 0.35, 1.2) times it, and is tilted by less than 0.2; there
    are at most [Math.floor (30 * rockDensity)] of them, the product taken
    as the doubles round it.  Up to a density of 0.033 there is none; from
    [30 * rockDensity >= 1] on there is at least one, and the first of the
    list is the candidate of index 0, which is always kept and sits at
    x = -160. *)
Theorem waterRocks_placement (rockDensity : R) :
  Forall placedWaterRock (waterRocks rockDensity) /\
  (length (waterRocks rockDensity) <=
   floorCount (Ieee.roundDouble (30 * rockDensity)))%nat /\
  (rockDensity <= 0.033 -> waterRocks rockDensity = []) /\
  (1 <= 30 * rockDensity ->
   exists first rest,
     waterRocks rockDensity = first :: rest /\
     waterRock 0 = Some first /\
     placedWaterRock first /\
     fst (fst (position first)) = -160).
Proof.
  split; [|split; [|split]].
  - unfold waterRocks. cbv zeta. apply Forall_omap. intros a b. apply waterRock_placed.
  - unfold waterRocks. cbv zeta.
    eapply Nat.le_trans; [apply omap_length_le|]. rewrite length_seq. lia.
  - intros Hd. unfold waterRocks, floorCount. cbv zeta.
    set (product := Ieee.roundDouble (30 * rockDensity)).
    assert (Hp : product < 1).
    { unfold product, Ieee.roundDouble.
      destruct (Rle_dec (30 * rockDensity) 0) as [Hle|Hgt].
      - pose proof (IeeeFacts.round_nonpos 53 (-1022) _ Hle). lra.
      - apply IeeeFacts.round_below_1; [lia|lia|lra]. }
    assert (Hz : (Int_part product <= 0)%Z).
    { destruct (base_Int_part product) as [Hle _].
      assert (IZR (Int_part product) < 1) by lra.
      apply lt_IZR in H. lia. }
    replace (Z.to_nat (Int_part product)) with 0%nat by lia.
    reflexivity.
  - intros Hd.
    assert (Hfirst : exists first,
              waterRock 0 = Some first /\ fst (fst (position first)) = -160).
    { unfold waterRock. cbv zeta. cbn [INR].
      rewrite !Rmult_0_l, seededRandom_zero.
      replace (-160 + 0 * 320) with (-160) by lra.
      assert (Hskip : ltb (-130) (-160) && ltb (-160) (-30) = false).
      { apply andb_false_iff. left. apply ltb_false. lra. }
      rewrite Hskip. eexists. split; [reflexivity|]. reflexivity. }
    destruct Hfirst as (first & Hfirst & Hx).
    set (product := Ieee.roundDouble (30 * rockDensity)).
    assert (Hp : 1 <= product).
    { unfold product, Ieee.roundDouble.
      apply IeeeFacts.round_from_1; [lia|lia|exact Hd]. }
    assert (Hcount : exists n, floorCount product = S n).
    { unfold floorCount.
      assert (Hz : (1 <= Int_part product)%Z).
      { destruct (base_Int_part product) as [_ Hgt].
        assert (0 < IZR (Int_part product)) by lra.
        apply lt_IZR in H. lia. }
      exists (Z.to_nat (Int_part product - 1)). lia. }
    destruct Hcount as (n & Hn).
    exists first, (omap waterRock (seq 1 n)).
    split; [|split; [exact Hfirst|split; [|exact Hx]]].
    + unfold waterRocks. cbv zeta. fold product. rewrite Hn.
      change (omap waterRock (seq 0 (S n))) with
        (match waterRock 0 with
         | Some rock => rock :: omap waterRock (seq 1 n)
         | None => omap waterRock (seq 1 n)
         end).
      rewrite Hfirst. reflexivity.
    + apply (waterRock_placed 0 first Hfirst).
Qed.

(** At the default density of 1 the list starts with the rock at
    x = -160. *)
Lemma waterRocks_placement_witness :
  exists first rest,
    waterRocks 1 = first :: rest /\
    waterRock 0 = Some first /\
    placedWaterRock first /\
    fst (fst (position first)) = -160.
Proof.
  apply (waterRocks_placement 1). lra.
Defined.

(** At the double nearest to 1/30 the exact product is [1 - 2 ^ -56], the
    doubles round it to 1, and one rock is placed. *)
Lemma waterRocks_at_a_thirtieth :
  let rockDensity := 4803839602528529 / 144115188075855872 in
  30 * rockDensity < 1 /\
  Ieee.roundDouble (30 * rockDensity) = 1 /\
  length (waterRocks rockDensity) = 1%nat.
Proof.
  intros rockDensity.
  assert (Hround : Ieee.roundDouble (30 * rockDensity) = 1).
  { unfold Ieee.roundDouble, rockDensity.
    rewrite (IeeeFacts.round_binade 53 (-1022) _ (-1)); [| |lia].
    - change (-1 - (53 - 1))%Z with (-53)%Z. rewrite IeeeFacts.pow2_neg.
      change (IZR (2 ^ 53)) with 9007199254740992.
      rewrite (IeeeFacts.nearestEven_near _ 9007199254740992); lra.
    - rewrite Rabs_right by lra.
      change (-1 + 1)%Z with 0%Z. rewrite IeeeFacts.pow2_neg.
      change (IZR (2 ^ 1)) with 2. cbn [powerRZ]. lra. }
  split; [unfold rockDensity; lra|]. split; [exact Hround|].
  unfold waterRocks. cbv zeta. rewrite Hround.
  unfold floorCount. rewrite Int_part_1.
  change (Z.to_nat 1) with 1%nat.
  change (omap waterRock (seq 0 1)) with
    (match waterRock 0 with
     | Some rock => [rock]
     | None => []
     end).
  unfold waterRock. cbv zeta. cbn [INR].
  rewrite !Rmult_0_l, seededRandom_zero.
  replace (-160 + 0 * 320) with (-160) by lra.
  assert (Hskip : ltb (-130) (-160) && ltb (-160) (-30) = false).
  { apply andb_false_iff. left. apply ltb_false. lra. }
  rewrite Hskip. reflexivity.
Qed.

(** *** Outcrops on the cliff face *)

Import CliffOutcrops.



(** *** Rocks scattered on the beach *)

Import BeachRocks.



(** *** Sedimentary strata *)

Import Strata.

Lemma strataLayer_range (theme : StrataTheme) (index : nat) :
  let l := strataLayer theme index in
  -5 + INR index * 9 <= Strata.y l < -1 + INR index * 9 /\
  0.8 <= thickness l < 1.4.
Proof.
  unfold strataLayer. cbn.
  pose proof (seededRandom_unit (800 + INR index)).
  pose proof (seededRandom_unit (810 + INR index)). lra.
Qed.

(** The strata bands.  There are six; each is between 0.8 and 1.4 thick;
    they are stacked in order and never touch, the top of a band lying
    more than 3.6 below the bottom of the next; all of them lie between
    -5.7 and 44.7; and the three colours of the theme repeat every three
    bands. *)
Theorem strata_bands_do_not_overlap (theme : StrataTheme) :
  length (strataLayers theme) = 6%nat /\
  (forall i, (i < 6)%nat ->
     exists l, strataLayers theme !! i = Some l /\
       l = strataLayer theme i /\
       0.8 <= thickness l < 1.4 /\
       -5.7 < bottom l /\ top l < 44.7) /\
  (forall i, (i < 5)%nat ->
     top (strataLayer theme i) + 3.6 < bottom (strataLayer theme (S i))) /\
  (forall i, (i < 3)%nat ->
     Strata.color (strataLayer theme (i + 3)) = Strata.color (strataLayer theme i)) /\
  (Strata.color (strataLayer theme 0) = strataLight theme /\
   Strata.color (strataLayer theme 1) = strataDark theme /\
   Strata.color (strataLayer theme 2) = strataOchre theme).
Proof.
  split; [reflexivity|]. split; [|split; [|split]].
  - intros i Hi. exists (strataLayer theme i).
    split.
    { unfold strataLayers. do 6 (destruct i as [|i]; [reflexivity|]). lia. }
    split; [reflexivity|].
    destruct (strataLayer_range theme i) as [Hy Ht]. cbv zeta in Hy, Ht.
    assert (0 <= INR i <= 5).
    { split; [apply pos_INR|]. replace 5 with (INR 5) by (simpl; lra).
      apply le_INR. lia. }
    unfold bottom, top. repeat split; lra.
  - intros i Hi.
    destruct (strataLayer_range theme i) as [Hy Ht].
    destruct (strataLayer_range theme (S i)) as [Hy' Ht'].
    cbv zeta in *. rewrite S_INR in Hy'. unfold bottom, top. lra.
  - intros i Hi. unfold strataLayer. cbn [Strata.color].
    do 3 (destruct i as [|i]; [reflexivity|]). lia.
  - repeat split.
Qed.

Lemma strata_bands_do_not_overlap_witness :
  top (strataLayer (shoreThemes Config.dark) 2) + 3.6 <
  bottom (strataLayer (shoreThemes Config.dark) 3).
Proof.
  apply (strata_bands_do_not_overlap (shoreThemes Config.dark)). lia.
Defined.

End PlacementFacts.

(** ** The lighthouse *)

Module LighthouseFacts.
Import Js JsFacts ShoreFacts Lighthouse.

Lemma weathering_offset (seed : R) :
  -0.075 <= Lighthouse.seededRandom seed * 0.15 - 0.075 < 0.075.
Proof.
  unfold Lighthouse.seededRandom. cbv zeta.
  pose proof (Math_floor_spec (sin seed * 10000)). lra.
Qed.

Lemma weatherVertex_length seed (i : nat) (a : Float32Array) :
  length (weatherVertex seed i a) = length a.
Proof. unfold weatherVertex. cbv zeta. rewrite !length_set. reflexivity. Qed.

Lemma weatherVertex_frame seed (i : nat) (a : Float32Array) (j : nat) :
  (j < i \/ i + 3 <= j)%nat -> weatherVertex seed i a !! j = a !! j.
Proof. intros Hj. unfold weatherVertex. stores_elsewhere. Qed.

Lemma weatherVertex_local seed (i : nat) (a a' : Float32Array) (j : nat) :
  length a = length a' ->
  (forall j', (i <= j' < i + 3)%nat -> a !! j' = a' !! j') ->
  (i <= j < i + 3)%nat ->
  weatherVertex seed i a !! j = weatherVertex seed i a' !! j.
Proof.
  intros Hlen Hloc Hj. unfold weatherVertex. cbv zeta.
  rewrite !get_set_ne by lia.
  rewrite (get_ext a a' i) by (apply Hloc; lia).
  rewrite (get_ext a a' (i + 1)) by (apply Hloc; lia).
  rewrite (get_ext a a' (i + 2)) by (apply Hloc; lia).
  repeat (apply set_lookup_cong; [rewrite ?length_set; exact Hlen|]).
  apply Hloc. exact Hj.
Qed.

(** Weathering is subtle.  Every vertex of a weathered box is moved by one
    offset of at most 0.075 in absolute value, taken from the seed and the
    index of the vertex in the array: x and z move by the offset, y by
    half of it, and nothing else about the box changes. *)
Theorem weathering_is_subtle
    (BoxGeometry : R -> R -> R -> R -> R -> R -> Float32Array)
    (width height depth seed : R) (k : nat) :
  let base := BoxGeometry width height depth 4 4 4 in
  let box := createWeatheredBox BoxGeometry width height depth seed in
  (3 * k + 2 < length base)%nat ->
  length box = length base /\
  exists offset,
    offset = Lighthouse.seededRandom (seed + INR (3 * k)) * 0.15 - 0.075 /\
    -0.075 <= offset < 0.075 /\
    get box (3 * k) = get base (3 * k) + offset /\
    get box (3 * k + 1) = get base (3 * k + 1) + offset * 0.5 /\
    get box (3 * k + 2) = get base (3 * k + 2) + offset.
Proof.
  intros base box Hk. unfold box, createWeatheredBox, weather. fold base.
  split.
  { apply (for_stride3_length _ (fun k => weatherVertex_length seed (3 * k))). }
  eexists. split; [reflexivity|]. split; [apply weathering_offset|].
  assert (Hlook : forall d, (d < 3)%nat ->
            for_stride3 (length base) (weatherVertex seed) base !! (3 * k + d)%nat =
            weatherVertex seed (3 * k) base !! (3 * k + d)%nat).
  { intros d Hd.
    rewrite (for_stride3_lookup _
               (fun k => weatherVertex_length seed (3 * k))
               (fun k => weatherVertex_frame seed (3 * k))
               (fun k => weatherVertex_local seed (3 * k))).
    rewrite (triple_div k d) by lia. reflexivity. }
  split; [|split]; apply get_lookup.
  - replace (3 * k)%nat with (3 * k + 0)%nat at 1 by lia.
    rewrite Hlook by lia. rewrite Nat.add_0_r.
    unfold weatherVertex, set. cbv zeta.
    rewrite !list_lookup_insert_ne by lia.
    apply list_lookup_insert_eq. lia.
  - rewrite Hlook by lia. unfold weatherVertex. cbv zeta.
    rewrite !get_set_ne by lia. unfold set.
    rewrite list_lookup_insert_ne by lia.
    apply list_lookup_insert_eq. rewrite length_insert. lia.
  - rewrite Hlook by lia. unfold weatherVertex. cbv zeta.
    rewrite !get_set_ne by lia. unfold set.
    apply list_lookup_insert_eq. rewrite !length_insert. lia.
Qed.

Lemma weathering_is_subtle_witness :
  let Box := fun (_ _ _ _ _ _ : R) => [16; 2.5; 12] in
  length (createWeatheredBox Box 32 5 24 100) = length (Box 32 5 24 4 4 4).
Proof.
  intros Box.
  apply (weathering_is_subtle Box 32 5 24 100 0). simpl. lia.
Defined.

Lemma sin_add_2PI (a : R) : sin (a + 2 * PI) = sin a.
Proof. rewrite sin_plus, sin_2PI, cos_2PI. ring. Qed.

Lemma cos_add_2PI (a : R) : cos (a + 2 * PI) = cos a.
Proof. rewrite cos_plus, sin_2PI, cos_2PI. ring. Qed.

(** The beam sweeps a circle.  While both refs are set, the spotlight
    target lies at height 0 on the circle of radius 150 about the origin
    of its coordinates and the beam mesh is turned by minus the sweep angle; the sweep repeats
    every [2 * PI / 0.3] seconds, between 20 and 27 seconds per revolution.
    With either ref unset the callback does nothing. *)
Theorem beam_sweeps_a_circle (elapsedTime : R) (st : Beam) :
  (forall target turn,
     lightTarget st = Some target -> beamRotationY st = Some turn ->
     exists x z,
       lightTarget (useFrame elapsedTime st) = Some (x, 0, z) /\
       x * x + z * z = 150 * 150 /\
       beamRotationY (useFrame elapsedTime st) = Some (- (elapsedTime * 0.3)) /\
       lightTarget (useFrame (elapsedTime + 2 * PI / 0.3) st) = Some (x, 0, z)) /\
  (lightTarget st = None \/ beamRotationY st = None ->
   useFrame elapsedTime st = st) /\
  20 < 2 * PI / 0.3 < 27.
Proof.
  split; [|split].
  - intros target turn Ht Hr. unfold useFrame. rewrite Ht, Hr. cbv zeta.
    eexists _, _. split; [reflexivity|]. split; [|split].
    + pose proof (sin2_cos2 (elapsedTime * 0.3)) as H. unfold Rsqr in H. nra.
    + reflexivity.
    + cbn [lightTarget].
      replace ((elapsedTime + 2 * PI / 0.3) * 0.3)
        with (elapsedTime * 0.3 + 2 * PI) by (field; lra).
      rewrite sin_add_2PI, cos_add_2PI. reflexivity.
  - unfold useFrame. intros [Hn|Hn]; rewrite Hn.
    + reflexivity.
    + destruct (lightTarget st); reflexivity.
  - pose proof PI2_3_2. pose proof PI_4.
    assert (Hq : 2 * PI / 0.3 * 0.3 = 2 * PI) by (field; lra).
    set (q := 2 * PI / 0.3) in *. clearbody q. lra.
Qed.

Lemma beam_sweeps_a_circle_witness :
  let st := {| lightTarget := Some (0, 0, 150); beamRotationY := Some 0 |} in
  exists x z,
    lightTarget (useFrame 5 st) = Some (x, 0, z) /\
    x * x + z * z = 150 * 150 /\
    beamRotationY (useFrame 5 st) = Some (- (5 * 0.3)) /\
    lightTarget (useFrame (5 + 2 * PI / 0.3) st) = Some (x, 0, z).
Proof.
  intros st.
  destruct (beam_sweeps_a_circle 5 st) as [Hsweep _].
  apply (Hsweep (0, 0, 150) 0); reflexivity.
Defined.

End LighthouseFacts.

(** ** Forecast values in the configuration *)

Module ForecastFacts.
Import Js JsNum.
Import Forecast.

Lemma Int_part_between (x : R) (n : Z) :
  IZR n <= x < IZR n + 1 -> Int_part x = n.
Proof. intros Hx. symmetry. apply Int_part_spec. lra. Qed.

Lemma trunc_nonneg (x : R) : 0 <= x -> trunc x = Int_part x.
Proof. intros Hx. unfold trunc. destruct (Rle_dec 0 x); [reflexivity|lra]. Qed.

(** The remainder of a non-negative dividend by a positive divisor is the
    dividend reduced into [0, divisor). *)
Lemma rem_range (a b : R) : 0 <= a -> 0 < b -> 0 <= rem a b < b.
Proof.
  intros Ha Hb. unfold rem.
  assert (Hq : a / b * b = a) by (field; lra).
  assert (0 <= a / b) by (apply Rmult_le_pos; [lra|left; apply Rinv_0_lt_compat; lra]).
  rewrite trunc_nonneg by assumption.
  destruct (base_Int_part (a / b)) as [Hle Hgt].
  set (q := a / b) in *. set (n := IZR (Int_part q)) in *. split; nra.
Qed.

Lemma rem_small (a b : R) : 0 <= a < b -> rem a b = a.
Proof.
  intros Ha. unfold rem.
  assert (Hq : a / b * b = a) by (field; lra).
  assert (0 <= a / b) by (apply Rmult_le_pos; [lra|left; apply Rinv_0_lt_compat; lra]).
  rewrite trunc_nonneg by assumption.
  rewrite (Int_part_between (a / b) 0); [lra|].
  set (q := a / b) in *. split; [simpl; lra|]. simpl. nra.
Qed.

Lemma rem_once (a b : R) : 0 < b -> b <= a < 2 * b -> rem a b = a - b.
Proof.
  intros Hb Ha. unfold rem.
  assert (Hq : a / b * b = a) by (field; lra).
  assert (0 <= a / b) by (apply Rmult_le_pos; [lra|left; apply Rinv_0_lt_compat; lra]).
  rewrite trunc_nonneg by assumption.
  rewrite (Int_part_between (a / b) 1); [lra|].
  set (q := a / b) in *. split; nra.
Qed.

(** A forecast entry is turned into valid settings.  For a wave direction
    from -180 degrees up the simulated direction lies in [0, 360); for a
    non-negative wind speed in knots the wind speed in m/s is non-negative
    and the chop intensity lies in [0, 1], equal to a fifteenth of the wind
    speed in m/s up to 15 m/s and to 1 beyond; height, period and wind
    direction are taken over as they are, and the wave length, the speed
    multiplier, the secondary swell, the canyon, the foam, the clarity, the
    colour, the display settings and the time scale are left alone. *)
Theorem applyForecastToConfig_valid (config : Config.WaveConfig)
    (entry : ForecastEntry) :
  let applied := applyForecastToConfig config entry in
  (-180 <= waveDirection entry -> 0 <= Config.waveDirection applied < 360) /\
  (0 <= windSpeed entry ->
   0 <= Config.windSpeed applied /\
   0 <= Config.windChopIntensity applied <= 1 /\
   (Config.windSpeed applied <= 15 ->
    Config.windChopIntensity applied = Config.windSpeed applied / 15) /\
   (15 <= Config.windSpeed applied -> Config.windChopIntensity applied = 1)) /\
  (Config.waveHeight applied = waveHeight entry /\
   Config.wavePeriod applied = wavePeriod entry /\
   Config.windDirection applied = windDirection entry /\
   Config.windSpeed applied = windSpeed entry * 0.514444) /\
  (Config.waveLength applied = Config.waveLength config /\
   Config.waveSpeed applied = Config.waveSpeed config /\
   Config.secondaryWaveHeight applied = Config.secondaryWaveHeight config /\
   Config.secondaryWavePeriod applied = Config.secondaryWavePeriod config /\
   Config.secondaryWaveDirection applied = Config.secondaryWaveDirection config /\
   Config.canyonAmplification applied = Config.canyonAmplification config /\
   Config.canyonFocusWidth applied = Config.canyonFocusWidth config /\
   Config.canyonDepthEffect applied = Config.canyonDepthEffect config /\
   Config.foamThreshold applied = Config.foamThreshold config /\
   Config.foamIntensity applied = Config.foamIntensity config /\
   Config.waterClarity applied = Config.waterClarity config /\
   Config.waveColor applied = Config.waveColor config /\
   Config.wireframe applied = Config.wireframe config /\
   Config.animateWaves applied = Config.animateWaves config /\
   Config.theme applied = Config.theme config /\
   Config.timeScale applied = Config.timeScale config).
Proof.
  intros applied. unfold applied, applyForecastToConfig. cbn.
  split; [|split; [|split]].
  - intros Hd. apply rem_range; lra.
  - intros Hw. set (ms := windSpeed entry * 0.514444).
    assert (0 <= ms) by (unfold ms; nra).
    split; [assumption|]. split; [|split].
    + split; [apply Rmin_glb; lra|apply Rmin_l].
    + intros Hle. apply Rmin_right. lra.
    + intros Hge. apply Rmin_left. lra.
  - repeat split.
  - repeat split.
Qed.

Lemma applyForecastToConfig_valid_witness :
  let entry := {| datetime := "Fri 16. 18h"; dayName := "Fri"; hour := 18;
                  waveHeight := 4.5; wavePeriod := 14; waveDirection := 300;
                  windSpeed := 12; windDirection := 45 |} in
  0 <= Config.waveDirection (applyForecastToConfig Examples.moderate entry) < 360.
Proof.
  intros entry.
  destruct (applyForecastToConfig_valid Examples.moderate entry) as [Hdir _].
  apply Hdir. simpl. lra.
Defined.

(** The simulated wave direction is the opposite of the meteorological
    one: below 180 degrees 180 is added, from 180 degrees on 180 is taken
    off, and taking the opposite twice gives back the direction. *)
Theorem wave_direction_is_reversed (config : Config.WaveConfig)
    (entry : ForecastEntry) :
  let sim e := Config.waveDirection (applyForecastToConfig config e) in
  let turned :=
    {| datetime := datetime entry; dayName := dayName entry; hour := hour entry;
       waveHeight := waveHeight entry; wavePeriod := wavePeriod entry;
       waveDirection := sim entry;
       windSpeed := windSpeed entry; windDirection := windDirection entry |} in
  0 <= waveDirection entry < 360 ->
  (waveDirection entry < 180 -> sim entry = waveDirection entry + 180) /\
  (180 <= waveDirection entry -> sim entry = waveDirection entry - 180) /\
  sim turned = waveDirection entry.
Proof.
  intros sim turned Hd. unfold sim, turned, applyForecastToConfig. cbn.
  assert (Hlow : waveDirection entry < 180 ->
                 rem (waveDirection entry + 180) 360 = waveDirection entry + 180).
  { intros H. apply rem_small. lra. }
  assert (Hhigh : 180 <= waveDirection entry ->
                  rem (waveDirection entry + 180) 360 = waveDirection entry - 180).
  { intros H. rewrite rem_once by lra. lra. }
  split; [exact Hlow|]. split; [exact Hhigh|].
  destruct (Rlt_dec (waveDirection entry) 180) as [Hl|Hh].
  - rewrite (Hlow Hl). rewrite rem_once by lra. lra.
  - rewrite (Hhigh ltac:(lra)). rewrite rem_small by lra. lra.
Qed.

Lemma wave_direction_is_reversed_witness :
  let entry := {| datetime := "Fri 16. 18h"; dayName := "Fri"; hour := 18;
                  waveHeight := 4.5; wavePeriod := 14; waveDirection := 300;
                  windSpeed := 12; windDirection := 45 |} in
  Config.waveDirection (applyForecastToConfig Examples.moderate entry) = 300 - 180.
Proof.
  intros entry.
  destruct (wave_direction_is_reversed Examples.moderate entry) as (_ & Hhigh & _).
  - simpl. lra.
  - apply Hhigh. simpl. lra.
Defined.

End ForecastFacts.

(** ** Reading the day back from a forecast key *)

Module KeyFacts.
Import Js JsNum.
Import Forecast ForecastText.

Lemma isWord_not_dot (c : ascii) : isWord c = true -> c <> "."%char.
Proof. intros Hw ->. discriminate Hw. Qed.

Lemma isDigit_not_dot (c : ascii) : isDigit c = true -> c <> "."%char.
Proof. intros Hw ->. discriminate Hw. Qed.

(** A run of digits followed by something that is not a digit is what
    [spanDigits] splits off. *)
Lemma spanDigits_run (ds rest : string) :
  allChars isDigit ds = true ->
  match rest with
  | EmptyString => True
  | String c _ => isDigit c = false
  end ->
  spanDigits (ds ++ rest) = (ds, rest).
Proof.
  intros Hds Hrest. induction ds as [|c ds IH]; cbn in *.
  - destruct rest as [|c r]; [reflexivity|]. cbn. rewrite Hrest. reflexivity.
  - apply andb_true_iff in Hds. destruct Hds as [Hc Hds].
    rewrite Hc, (IH Hds). reflexivity.
Qed.

(** After a word and a space, what follows the leading digits is not a
    dot. *)
Lemma spanDigits_in_word (w rest : string) :
  allChars isWord w = true ->
  exists c after,
    snd (spanDigits (w ++ String " " rest)) = String c after /\ c <> "."%char.
Proof.
  intros Hw. induction w as [|c w IH]; cbn in *.
  - eexists _, _. split; [reflexivity|discriminate].
  - apply andb_true_iff in Hw. destruct Hw as [Hc Hw].
    destruct (isDigit c) eqn:Hd.
    + destruct (IH Hw) as (c' & after & Hsnd & Hne).
      destruct (spanDigits (w ++ String " " rest)) as [run aft]. cbn in *.
      eexists _, _. split; [exact Hsnd|exact Hne].
    + cbn. eexists _, _. split; [reflexivity|]. apply isWord_not_dot. exact Hc.
Qed.

Lemma matchDayAt_no_dot (s : string) (c : ascii) (after : string) :
  snd (spanDigits s) = String c after -> c <> "."%char -> matchDayAt s = None.
Proof.
  intros Hsnd Hne. unfold matchDayAt.
  destruct (spanDigits s) as [run aft]. cbn in Hsnd. subst aft.
  destruct run as [|d ds]; [reflexivity|].
  destruct c as [[] [] [] [] [] [] [] []]; try reflexivity. congruence.
Qed.

Lemma dayMatch_here (ds rest : string) :
  allChars isDigit ds = true -> ds <> EmptyString ->
  dayMatch (ds ++ String "." rest) = Some ds.
Proof.
  intros Hds Hne.
  assert (Hat : matchDayAt (ds ++ String "." rest) = Some ds).
  { unfold matchDayAt. rewrite spanDigits_run; [|exact Hds|reflexivity].
    destruct ds; [congruence|reflexivity]. }
  destruct ds as [|c ds]; [congruence|].
  cbn [append dayMatch] in *. rewrite Hat. reflexivity.
Qed.

Lemma dayMatch_skip_word (w rest : string) :
  allChars isWord w = true ->
  dayMatch (w ++ String " " rest) = dayMatch rest.
Proof.
  intros Hw. induction w as [|c w IH].
  - cbn [append]. cbn [dayMatch].
    assert (Hat : matchDayAt (String " " rest) = None) by reflexivity.
    rewrite Hat. reflexivity.
  - destruct (spanDigits_in_word (String c w) rest Hw) as (c' & after & Hsnd & Hne).
    pose proof (matchDayAt_no_dot _ _ _ Hsnd Hne) as Hat.
    cbn [append] in *. cbn [dayMatch]. rewrite Hat.
    apply IH. cbn in Hw. apply andb_true_iff in Hw. tauto.
Qed.

(** The day of a forecast key reads back.  A key built as
    [dayName dayNum. hourStr h] from a day name of word characters and a
    non-empty run of digits for the day gives that run of digits back to
    [findNearestForecast], whatever the hour, even when the day name itself
    contains digits. *)
Theorem forecast_key_day_reads_back (dayName dayNum hourStr : string) :
  allChars isWord dayName = true ->
  allChars isDigit dayNum = true ->
  dayNum <> EmptyString ->
  dayMatch (forecastKey dayName dayNum hourStr) = Some dayNum.
Proof.
  intros Hname Hnum Hne. unfold forecastKey.
  cbn [append]. rewrite dayMatch_skip_word by exact Hname.
  apply dayMatch_here; assumption.
Qed.

Lemma forecast_key_day_reads_back_witness :
  dayMatch (forecastKey "Fr1" "16" "18") = Some "16"%string.
Proof.
  apply (forecast_key_day_reads_back "Fr1" "16" "18").
  - reflexivity.
  - reflexivity.
  - discriminate.
Defined.

(** *** Decimal numbers *)

Lemma decimal_digits (d : Decimal.uint) :
  allChars isDigit (NilEmpty.string_of_uint d) = true.
Proof. induction d; cbn; try reflexivity; exact IHd. Qed.

Lemma to_uint_nonnil (n : nat) : Nat.to_uint n <> Decimal.Nil.
Proof.
  intros Hnil. pose proof (Unsigned.of_to n) as Hn. rewrite Hnil in Hn.
  cbn in Hn. subst n. discriminate Hnil.
Qed.

Lemma decimal_nonempty (n : nat) : decimal n <> EmptyString.
Proof.
  unfold decimal. pose proof (to_uint_nonnil n) as Hn.
  destruct (Nat.to_uint n); [congruence| | | | | | | | | |]; discriminate.
Qed.

Lemma parseDigits_uint (d : Decimal.uint) (acc : nat) :
  parseDigits (Z.of_nat acc) (NilEmpty.string_of_uint d) =
  Z.of_nat (Nat.of_uint_acc d acc).
Proof.
  induction d in acc |- *; cbn [NilEmpty.string_of_uint parseDigits Nat.of_uint_acc];
    [reflexivity| | | | | | | | | |];
    rewrite <- IHd; f_equal; rewrite Nat.tail_mul_spec;
    match goal with |- context [digitValue ?c] =>
      let v := eval vm_compute in (digitValue c) in
      change (digitValue c) with v
    end; lia.
Qed.

Lemma parseInt_decimal (n : nat) : parseInt (decimal n) = Z.of_nat n.
Proof.
  unfold parseInt, decimal. change 0%Z with (Z.of_nat 0).
  rewrite parseDigits_uint. f_equal. apply Unsigned.of_to.
Qed.

Lemma days_are_words (i : nat) :
  allChars isWord (nth i days "undefined"%string) = true.
Proof.
  unfold days. do 7 (destruct i as [|i]; [reflexivity|]). destruct i; reflexivity.
Qed.

(** The sample forecast carries its dates intact: the [datetime] of every
    sample entry reads back as the day of the month it was built from. *)
Theorem fallback_day_reads_back (getDay getDate : nat -> nat) (d h : nat) :
  let entry := fallbackEntry getDay getDate d h in
  exists digits,
    dayMatch (datetime entry) = Some digits /\
    parseInt digits = Z.of_nat (getDate d).
Proof.
  intros entry. exists (decimal (getDate d)). split.
  - unfold entry, fallbackEntry. cbn [datetime]. unfold forecastKey.
    cbn [append]. rewrite dayMatch_skip_word by apply days_are_words.
    apply dayMatch_here; [apply decimal_digits|apply decimal_nonempty].
  - apply parseInt_decimal.
Qed.

End KeyFacts.

(** ** The forecast entry nearest to now *)

Module NearestFacts.
Import Js JsNum.
Import Forecast PlacementFacts.

(** What the loop holds after the entries [seen]: nothing usable so far and
    still the first entry, or the earliest of the nearest entries. *)
Lemma nearest_loop (currentDayOfMonth currentMonth currentYear : Z)
    (nowTime : R) (Date_getTime : Z -> Z -> Z -> R -> option R)
    (first : ForecastEntry) (seen : list ForecastEntry) :
  let diffOf :=
    entryDiff currentDayOfMonth currentMonth currentYear nowTime Date_getTime in
  let stepOf :=
    nearestStep currentDayOfMonth currentMonth currentYear nowTime Date_getTime in
  let acc := fold_left stepOf seen (first, None) in
  match snd acc with
  | None => fst acc = first /\ Forall (fun e => diffOf e = None) seen
  | Some d =>
      exists before after,
        seen = before ++ fst acc :: after /\
        diffOf (fst acc) = Some d /\
        Forall (fun e => forall d', diffOf e = Some d' -> d < d') before /\
        Forall (fun e => forall d', diffOf e = Some d' -> d <= d') after
  end.
Proof.
  intros diffOf stepOf.
  induction seen as [|entry seen IH] using rev_ind; cbv zeta in *.
  - cbn. split; [reflexivity|constructor].
  - rewrite fold_left_app. cbn [fold_left].
    destruct (fold_left stepOf seen (first, None)) as [nearest smallest].
    cbn [fst snd] in IH.
    destruct (diffOf entry) as [diff|] eqn:Hdiff.
    + destruct smallest as [smallestDiff|].
      * destruct IH as (before & after & Hseen & Hnear & Hbefore & Hafter).
        destruct (ltb diff smallestDiff) eqn:Hlt.
        -- assert (Hstep : stepOf (nearest, Some smallestDiff) entry =
                           (entry, Some diff)).
           { unfold stepOf, nearestStep. fold diffOf. cbn [snd].
             rewrite Hdiff, Hlt. reflexivity. }
           rewrite Hstep. cbn [fst snd]. apply ltb_true in Hlt.
           exists seen, []. split; [reflexivity|]. split; [exact Hdiff|].
           split; [|constructor].
           rewrite Hseen. apply Forall_app. split; [|constructor].
           ++ eapply Forall_impl; [exact Hbefore|].
              cbn. intros e He d' Hd'. specialize (He d' Hd'). lra.
           ++ intros d' Hd'. rewrite Hnear in Hd'. injection Hd' as <-. lra.
           ++ eapply Forall_impl; [exact Hafter|].
              cbn. intros e He d' Hd'. specialize (He d' Hd'). lra.
        -- assert (Hstep : stepOf (nearest, Some smallestDiff) entry =
                           (nearest, Some smallestDiff)).
           { unfold stepOf, nearestStep. fold diffOf. cbn [snd].
             rewrite Hdiff, Hlt. reflexivity. }
           rewrite Hstep. cbn [fst snd]. apply ltb_false in Hlt.
           exists before, (after ++ [entry]).
           split; [rewrite Hseen, <- app_assoc; reflexivity|].
           split; [exact Hnear|]. split; [exact Hbefore|].
           apply Forall_app. split; [exact Hafter|].
           constructor; [|constructor].
           intros d' Hd'. rewrite Hdiff in Hd'. injection Hd' as <-. exact Hlt.
      * assert (Hstep : stepOf (nearest, None) entry = (entry, Some diff)).
        { unfold stepOf, nearestStep. fold diffOf. cbn [snd]. rewrite Hdiff. reflexivity. }
        rewrite Hstep. cbn [fst snd]. destruct IH as [_ Hnone].
        exists seen, []. split; [reflexivity|]. split; [exact Hdiff|].
        split; [|constructor].
        eapply Forall_impl; [exact Hnone|].
        cbn. intros e He d' Hd'. congruence.
    + assert (Hstep : stepOf (nearest, smallest) entry = (nearest, smallest)).
      { unfold stepOf, nearestStep. fold diffOf. rewrite Hdiff. reflexivity. }
      rewrite Hstep. cbn [fst snd]. destruct smallest as [smallestDiff|].
      * destruct IH as (before & after & Hseen & Hnear & Hbefore & Hafter).
        exists before, (after ++ [entry]).
        split; [rewrite Hseen, <- app_assoc; reflexivity|].
        split; [exact Hnear|]. split; [exact Hbefore|].
        apply Forall_app. split; [exact Hafter|].
        constructor; [|constructor]. intros d' Hd'. congruence.
      * destruct IH as [Hfirst Hnone]. split; [exact Hfirst|].
        apply Forall_app. split; [exact Hnone|]. constructor; [exact Hdiff|constructor].
Qed.

(** [findNearestForecast] answers [null] for the empty list only.
    Otherwise it answers an entry of the list: when some entry has a
    usable distance from now (its [datetime] shows a day, and the date is
    valid), the answer is the earliest entry of the smallest distance:
    every entry before it is strictly farther from now and no entry after
    it is nearer.  When no entry has a usable distance, the answer is the
    first entry. *)
Theorem findNearestForecast_is_nearest
    (currentDayOfMonth currentMonth currentYear : Z) (nowTime : R)
    (Date_getTime : Z -> Z -> Z -> R -> option R)
    (entries : list ForecastEntry) :
  let diff :=
    entryDiff currentDayOfMonth currentMonth currentYear nowTime Date_getTime in
  let found :=
    findNearestForecast currentDayOfMonth currentMonth currentYear nowTime
      Date_getTime entries in
  (found = None <-> entries = []) /\
  (forall nearest, found = Some nearest ->
     (exists before after d,
        entries = before ++ nearest :: after /\
        diff nearest = Some d /\
        Forall (fun e => forall d', diff e = Some d' -> d < d') before /\
        Forall (fun e => forall d', diff e = Some d' -> d <= d') after) \/
     (Forall (fun e => diff e = None) entries /\ hd_error entries = Some nearest)).
Proof.
  intros diff found. subst diff found. split.
  - destruct entries; cbn; split; congruence.
  - intros nearest Hfound. destruct entries as [|first rest]; [discriminate|].
    pose proof (nearest_loop currentDayOfMonth currentMonth currentYear nowTime
                  Date_getTime first (first :: rest)) as Hloop.
    cbv zeta in Hloop. unfold findNearestForecast in Hfound.
    destruct (fold_left _ (first :: rest) (first, None)) as [found smallest].
    cbn [fst snd] in *. injection Hfound as ->.
    destruct smallest as [d|].
    + left. destruct Hloop as (before & after & Hl & Hd & Hb & Ha).
      exists before, after, d. repeat split; assumption.
    + right. destruct Hloop as [Hfirst Hnone]. split; [exact Hnone|].
      cbn. congruence.
Qed.

Lemma findNearestForecast_is_nearest_witness :
  let entries := [ForecastSamples.fridayNoon; ForecastSamples.fridayEvening] in
  let diff := entryDiff 16 0 2026 (16 * 24 + 17) ForecastSamples.hoursOfMonth in
  (exists before after d,
     entries = before ++ ForecastSamples.fridayEvening :: after /\
     diff ForecastSamples.fridayEvening = Some d /\
     Forall (fun e => forall d', diff e = Some d' -> d < d') before /\
     Forall (fun e => forall d', diff e = Some d' -> d <= d') after) \/
  (Forall (fun e => diff e = None) entries /\
   hd_error entries = Some ForecastSamples.fridayEvening).
Proof.
  apply (proj2 (findNearestForecast_is_nearest 16 0 2026 (16 * 24 + 17)
                  ForecastSamples.hoursOfMonth
                  [ForecastSamples.fridayNoon; ForecastSamples.fridayEvening])).
  unfold findNearestForecast. cbn [fold_left].
  assert (Hnoon : entryDiff 16 0 2026 (16 * 24 + 17) ForecastSamples.hoursOfMonth
                    ForecastSamples.fridayNoon = Some 5).
  { unfold entryDiff. cbn. f_equal. change (parseInt "16") with 16%Z.
    rewrite Rabs_left by lra. lra. }
  assert (Hevening : entryDiff 16 0 2026 (16 * 24 + 17) ForecastSamples.hoursOfMonth
                       ForecastSamples.fridayEvening = Some 1).
  { unfold entryDiff. cbn. f_equal. change (parseInt "16") with 16%Z.
    rewrite Rabs_right by lra. lra. }
  unfold nearestStep. rewrite Hnoon. cbn [snd]. rewrite Hevening.
  assert (Hlt : ltb 1 5 = true) by (apply ltb_true; lra).
  rewrite Hlt. reflexivity.
Defined.

End NearestFacts.

(** ** The sample forecast and the fetch around it *)

Module FallbackFacts.
Import Js JsNum.
Import Forecast ForecastFacts.

(** Rounding stays between two integers that bound the argument. *)
Lemma Math_round_between (a b : Z) (x : R) :
  IZR a <= x <= IZR b -> IZR a <= Math_round x <= IZR b.
Proof.
  intros Hx. unfold Math_round.
  destruct (base_Int_part (x + 0.5)) as [Hle Hgt].
  split.
  - apply IZR_le.
    assert (IZR a - 1 < IZR (Int_part (x + 0.5))) by lra.
    rewrite <- minus_IZR in H. apply lt_IZR in H. lia.
  - apply IZR_le.
    assert (IZR (Int_part (x + 0.5)) < IZR b + 1) by lra.
    rewrite <- plus_IZR in H. apply lt_IZR in H. lia.
Qed.

Lemma fallbackEntry_values (getDay getDate : nat -> nat) (d h : nat) :
  let e := fallbackEntry getDay getDate d h in
  3 <= waveHeight e <= 15 /\
  10 <= wavePeriod e <= 18 /\
  240 <= waveDirection e <= 320 /\
  5 <= windSpeed e <= 25 /\
  5 <= windDirection e <= 85.
Proof.
  cbv zeta. unfold fallbackEntry. cbn.
  set (variation := sin (INR d * 0.8 + INR h * 0.1) * 0.5 + 0.5).
  assert (Hv : 0 <= variation <= 1).
  { unfold variation. pose proof (SIN_bound (INR d * 0.8 + INR h * 0.1)). lra. }
  pose proof (SIN_bound (INR d)) as Hs.
  pose proof (COS_bound (INR d * 0.5)) as Hc.
  pose proof (Math_round_between 30 150 ((3 + variation * 12) * 10)) as Hh.
  pose proof (Math_round_between 100 180 ((10 + variation * 8) * 10)) as Hp.
  pose proof (Math_round_between 240 320 (280 + sin (INR d) * 40)) as Hd.
  pose proof (Math_round_between 50 250 ((5 + variation * 20) * 10)) as Hw.
  pose proof (Math_round_between 5 85 (45 + cos (INR d * 0.5) * 40)) as Hwd.
  repeat split; lra.
Qed.

Lemma generateFallbackForecast_entries (getDay getDate : nat -> nat)
    (e : ForecastEntry) :
  In e (generateFallbackForecast getDay getDate) ->
  exists d j, (d < 7)%nat /\ (j < 8)%nat /\
              e = fallbackEntry getDay getDate d (3 * j).
Proof.
  unfold generateFallbackForecast. intros Hin.
  apply in_flat_map in Hin. destruct Hin as (d & Hd & Hin).
  apply in_map_iff in Hin. destruct Hin as (j & <- & Hj).
  apply in_seq in Hd. apply in_seq in Hj.
  exists d, j. repeat split; lia.
Qed.

Lemma generateFallbackForecast_length (getDay getDate : nat -> nat) :
  length (generateFallbackForecast getDay getDate) = 56%nat.
Proof. reflexivity. Qed.

(** The sample forecast, whatever the calendar says: 56 entries, eight a
    day at hours 0, 3, ..., 21; wave heights between 3 and 15 m, periods
    between 10 and 18 s, wave directions between 240 and 320 degrees, wind
    speeds between 5 and 25 knots and wind directions between 5 and 85
    degrees; the entry for day [d] and hour [3 * j] stands at index
    [8 * d + j]. *)
Theorem fallback_forecast_values (getDay getDate : nat -> nat) :
  let sample := generateFallbackForecast getDay getDate in
  length sample = 56%nat /\
  Forall (fun e =>
            (exists j, (j < 8)%nat /\ hour e = INR (3 * j)) /\
            3 <= waveHeight e <= 15 /\
            10 <= wavePeriod e <= 18 /\
            240 <= waveDirection e <= 320 /\
            5 <= windSpeed e <= 25 /\
            5 <= windDirection e <= 85) sample /\
  (forall d j, (d < 7)%nat -> (j < 8)%nat ->
     nth_error sample (8 * d + j) = Some (fallbackEntry getDay getDate d (3 * j))).
Proof.
  cbv zeta. split; [reflexivity|]. split.
  - apply List.Forall_forall. intros e Hin.
    apply generateFallbackForecast_entries in Hin.
    destruct Hin as (d & j & Hd & Hj & ->). split.
    + exists j. split; [exact Hj|reflexivity].
    + apply fallbackEntry_values.
  - intros d j Hd Hj.
    do 7 (destruct d as [|d]; [do 8 (destruct j as [|j]; [reflexivity|]); lia|]).
    lia.
Qed.

Lemma fallback_forecast_values_witness :
  nth_error (generateFallbackForecast (fun d => d) (fun d => 16 + d)%nat) (8 * 1 + 2) =
  Some (fallbackEntry (fun d => d) (fun d => 16 + d)%nat 1 (3 * 2)).
Proof.
  apply (fallback_forecast_values (fun d => d) (fun d => 16 + d)%nat); lia.
Defined.

(** *** Fetching *)

(** [fetchWithProxy] answers the page of the first proxy that responds; it
    fails only when every proxy fails. *)
Theorem fetchWithProxy_first_response (proxies : list (option string)) :
  (forall text,
     fetchWithProxy proxies = Some text <->
     exists failed rest,
       proxies = failed ++ Some text :: rest /\
       Forall (fun r => r = None) failed) /\
  (fetchWithProxy proxies = None <-> Forall (fun r => r = None) proxies).
Proof.
  split.
  - intros text. induction proxies as [|[t|] proxies IH]; cbn.
    + split; [discriminate|].
      intros (failed & rest & Heq & _). destruct failed; discriminate.
    + split.
      * intros [= ->]. exists [], proxies. split; [reflexivity|constructor].
      * intros (failed & rest & Heq & Hfailed).
        destruct failed as [|r failed]; cbn in Heq.
        -- congruence.
        -- inversion Hfailed; subst. discriminate.
    + rewrite IH. split.
      * intros (failed & rest & -> & Hfailed).
        exists (None :: failed), rest. split; [reflexivity|constructor; auto].
      * intros (failed & rest & Heq & Hfailed).
        destruct failed as [|r failed]; cbn in Heq; [discriminate|].
        injection Heq as _ ->. inversion Hfailed; subst.
        exists failed, rest. split; [reflexivity|assumption].
  - induction proxies as [|[t|] proxies IH]; cbn.
    + split; [constructor|reflexivity].
    + split; [discriminate|]. intros H. inversion H; discriminate.
    + rewrite IH. split; [constructor; auto|]. intros H. inversion H; assumption.
Qed.

Lemma fetchWithProxy_first_response_witness :
  fetchWithProxy [None; Some "page"%string; Some "other"%string] =
  Some "page"%string.
Proof.
  apply (proj1 (fetchWithProxy_first_response
                  [None; Some "page"%string; Some "other"%string])).
  exists [None], [Some "other"%string]. split; [reflexivity|].
  constructor; [reflexivity|constructor].
Defined.

(** [fetchForecastData] never leaves the panel without a forecast.  The
    entries it answers are never empty; there is no error exactly when
    both pages were fetched and the parser found entries, and then the
    entries are the parsed ones; in every other case the entries are the
    sample forecast and an error message says so. *)
Theorem fetchForecastData_never_empty (getDay getDate : nat -> nat)
    (parseWindguruText : string -> string -> list ForecastEntry)
    (waveProxies windProxies : list (option string)) :
  let result :=
    fetchForecastData getDay getDate parseWindguruText waveProxies windProxies in
  entries result <> [] /\
  (error result = None <->
   exists waveText windText,
     fetchWithProxy waveProxies = Some waveText /\
     fetchWithProxy windProxies = Some windText /\
     parseWindguruText waveText windText <> [] /\
     entries result = parseWindguruText waveText windText) /\
  (error result <> None ->
   entries result = generateFallbackForecast getDay getDate).
Proof.
  cbv zeta. unfold fetchForecastData.
  destruct (fetchWithProxy waveProxies) as [waveText|];
    [destruct (fetchWithProxy windProxies) as [windText|]|].
  - destruct (parseWindguruText waveText windText) as [|e parsed] eqn:Hparse; cbn.
    + split; [discriminate|]. split; [|reflexivity]. split; [discriminate|].
      intros (w & d & [= <-] & [= <-] & Hne & _). congruence.
    + split; [discriminate|]. split; [|congruence]. split; [|reflexivity].
      intros _. exists waveText, windText. rewrite Hparse.
      repeat split; discriminate || reflexivity.
  - cbn. split; [discriminate|]. split; [|reflexivity]. split; [discriminate|].
    intros (w & d & _ & Hd & _). discriminate.
  - cbn. split; [discriminate|]. split; [|reflexivity]. split; [discriminate|].
    intros (w & d & Hw & _). discriminate.
Qed.

Lemma fetchForecastData_never_empty_witness :
  entries (fetchForecastData (fun d => d) (fun d => 16 + d)%nat (fun _ _ => [])
             [None; Some "wave page"%string] [None; None]) =
  generateFallbackForecast (fun d => d) (fun d => 16 + d)%nat.
Proof.
  apply (fetchForecastData_never_empty (fun d => d) (fun d => 16 + d)%nat
           (fun _ _ => []) [None; Some "wave page"%string] [None; None]).
  discriminate.
Defined.

End FallbackFacts.

(** ** Presets and slider limits *)

Module PresetFacts.
Import Config Presets.

Lemma withinLimits_rows (config : WaveConfig) :
  withinLimits config <->
  0.5 <= waveHeight config <= 30 /\
  4 <= wavePeriod config <= 25 /\
  0 <= waveDirection config <= 360 /\
  50 <= waveLength config <= 500 /\
  0.1 <= waveSpeed config <= 3 /\
  0 <= secondaryWaveHeight config <= 10 /\
  4 <= secondaryWavePeriod config <= 15 /\
  0 <= secondaryWaveDirection config <= 360 /\
  0 <= windSpeed config <= 60 /\
  0 <= windDirection config <= 360 /\
  0 <= windChopIntensity config <= 1 /\
  1 <= canyonAmplification config <= 4 /\
  0.1 <= canyonFocusWidth config <= 1 /\
  0 <= canyonDepthEffect config <= 1 /\
  0 <= foamThreshold config <= 1 /\
  0 <= foamIntensity config <= 1 /\
  0 <= waterClarity config <= 1 /\
  0.1 <= timeScale config <= 3.
Proof.
  unfold withinLimits, configLimits, within.
  rewrite !Forall_cons, Forall_nil. cbn. tauto.
Qed.

(** Every preset is reachable with the sliders, and so is what
    [applyPreset] hands over: all limited settings lie between the [min]
    and the [max] of their slider.  [applyPreset] takes every numeric
    setting, the time scale included, from the preset and keeps the
    wireframe switch, the animation switch, the colour and the theme of
    the current configuration; applying a second preset leaves nothing of
    the first. *)
Theorem presets_within_limits (colour : string) (th : Theme)
    (config : WaveConfig) (name other : PresetName) :
  let applied := applyPreset colour th config name in
  withinLimits (wavePresets colour th name) /\
  withinLimits applied /\
  (wireframe applied = wireframe config /\
   animateWaves applied = animateWaves config /\
   waveColor applied = waveColor config /\
   theme applied = theme config) /\
  timeScale applied = 1 /\
  applyPreset colour th (applyPreset colour th config other) name = applied.
Proof.
  cbv zeta. split; [|split; [|split; [|split]]].
  - apply withinLimits_rows. destruct name; cbn; lra.
  - apply withinLimits_rows. destruct name; cbn; lra.
  - repeat split.
  - destruct name; cbn; lra.
  - reflexivity.
Qed.

End PresetFacts.

(** ** Forecasts and the slider limits *)

Module ForecastLimitFacts.
Import Js JsNum.
Import Forecast ForecastFacts FallbackFacts PresetFacts.

Lemma applyForecastToConfig_within (config : Config.WaveConfig)
    (entry : ForecastEntry) :
  Presets.withinLimits config ->
  0.5 <= waveHeight entry <= 30 ->
  4 <= wavePeriod entry <= 25 ->
  -180 <= waveDirection entry ->
  0 <= windSpeed entry <= 116 ->
  0 <= windDirection entry <= 360 ->
  Presets.withinLimits (applyForecastToConfig config entry).
Proof.
  intros Hconfig Hh Hp Hd Hw Hwd.
  apply withinLimits_rows in Hconfig. apply withinLimits_rows.
  unfold applyForecastToConfig. cbn.
  pose proof (rem_range (waveDirection entry + 180) 360 ltac:(lra) ltac:(lra)).
  assert (0 <= Rmin 1 (windSpeed entry * 0.514444 / 15) <= 1).
  { split; [apply Rmin_glb; lra|apply Rmin_l]. }
  repeat split; try tauto; lra.
Qed.

(** A forecast keeps the configuration within reach of the sliders.
    Starting from settings within the slider limits, applying an entry
    whose wave height, period and wind direction are within their limits,
    whose wave direction is at least -180 degrees and whose wind speed is
    between 0 and 116 knots gives settings within the limits again; every
    entry of the sample forecast is such an entry. *)
Theorem forecast_keeps_slider_limits (config : Config.WaveConfig)
    (getDay getDate : nat -> nat) :
  Presets.withinLimits config ->
  (forall entry,
     0.5 <= waveHeight entry <= 30 ->
     4 <= wavePeriod entry <= 25 ->
     -180 <= waveDirection entry ->
     0 <= windSpeed entry <= 116 ->
     0 <= windDirection entry <= 360 ->
     Presets.withinLimits (applyForecastToConfig config entry)) /\
  Forall (fun entry => Presets.withinLimits (applyForecastToConfig config entry))
    (generateFallbackForecast getDay getDate).
Proof.
  intros Hconfig. split.
  - intros entry. apply applyForecastToConfig_within. exact Hconfig.
  - apply List.Forall_forall. intros e Hin.
    apply generateFallbackForecast_entries in Hin.
    destruct Hin as (d & j & _ & _ & ->).
    pose proof (fallbackEntry_values getDay getDate d (3 * j)) as Hv.
    cbv zeta in Hv.
    apply applyForecastToConfig_within; [exact Hconfig|lra..].
Qed.

Lemma forecast_keeps_slider_limits_witness :
  Presets.withinLimits
    (applyForecastToConfig Examples.moderate ForecastSamples.fridayEvening).
Proof.
  apply (forecast_keeps_slider_limits Examples.moderate (fun d => d) (fun d => d)).
  - apply withinLimits_rows. simpl. lra.
  - simpl. lra.
  - simpl. lra.
  - simpl. lra.
  - simpl. lra.
  - simpl. lra.
Defined.

End ForecastLimitFacts.
